(** * velocidad.c: pulse-based speed estimation, potentiometer setpoint,
      cruise-control toggle and slew-limited PWM command

    A shallow embedding of [src/firmware/velocidad.c].  The C globals become
    one record threaded through a small state monad; hardware reads (the
    millisecond timer, the button level, the ADC sample) are arguments of the
    functions that perform them; hardware writes, [printf] and [sleep_ms]
    are appended to an event log.  [float] and [double] are IEEE-754
    binary32 and binary64, computed with the executable specification
    [SpecFloat] of the standard library. *)

From Stdlib Require Import ZArith List Bool Lia QArith Qround Qpower Qabs Lqa.
From Stdlib Require Import Floats.SpecFloat.
Import ListNotations.
Open Scope Z_scope.

(** ** IEEE-754 arithmetic as the C expressions use it *)

Module IEEE.

(** A C [float] is binary32, a C [double] is binary64; both are carried by
    [spec_float], in canonical form for their format. *)
Definition float32 := spec_float.
Definition float64 := spec_float.

Definition prec32 := 24.
Definition emax32 := 128.
Definition prec64 := 53.
Definition emax64 := 1024.

(** Integer to [double] (exact below 2^53) and integer to [float]. *)
Definition f64_of_Z (n : Z) : float64 := binary_normalize prec64 emax64 n 0 false.
Definition f32_of_Z (n : Z) : float32 := binary_normalize prec32 emax32 n 0 false.

(** The narrowing conversion of an assignment [float x = <double>]:
    round to nearest, ties to even. *)
Definition f32_of_f64 (x : float64) : float32 :=
  match x with
  | S754_finite s m e => binary_round prec32 emax32 s m e
  | _ => x
  end.

(** The promotion of a [float] operand to [double]: exact, the mantissa
    is realigned to the canonical binary64 exponent. *)
Definition f64_of_f32 (x : float32) : float64 :=
  match x with
  | S754_finite s m e => binary_round prec64 emax64 s m e
  | _ => x
  end.

Definition f64_div : float64 -> float64 -> float64 := SFdiv prec64 emax64.
Definition f64_mul : float64 -> float64 -> float64 := SFmul prec64 emax64.
Definition f32_div : float32 -> float32 -> float32 := SFdiv prec32 emax32.
Definition f32_mul : float32 -> float32 -> float32 := SFmul prec32 emax32.
Definition f32_sub : float32 -> float32 -> float32 := SFsub prec32 emax32.

(** [fabs] of <math.h>, on a [double]. *)
Definition fabs (x : float64) : float64 := SFabs x.

(** [x < y] and [x > y] on doubles; false when an operand is NaN. *)
Definition f64_lt (x y : float64) : bool := SFltb x y.
Definition f64_gt (x y : float64) : bool := SFltb y x.

Definition INT_MAX := 2147483647.
Definition INT_MIN := -2147483648.

(** The integer part of [m * 2^e], for a positive mantissa. *)
Definition trunc_pos (m : positive) (e : Z) : Z :=
  if 0 <=? e then Z.shiftl (Zpos m) e else Z.shiftr (Zpos m) (- e).

Definition saturate (n : Z) : Z := Z.max INT_MIN (Z.min INT_MAX n).

(** The conversion of an initialisation [int n = <float>]: the fractional
    part is discarded (truncation toward zero).  C leaves the conversion
    undefined when the integer part does not fit an [int]; the model
    clamps to the [int] range, as a saturating run-time conversion does,
    and takes 0 for NaN. *)
Definition float_to_int (x : float32) : Z :=
  match x with
  | S754_zero _ => 0
  | S754_nan => 0
  | S754_infinity s => if s then INT_MIN else INT_MAX
  | S754_finite s m e =>
      saturate (if s then - trunc_pos m e else trunc_pos m e)
  end.

(** The rational number a finite float denotes (0 for the others). *)
Definition SF2Q (x : spec_float) : Q :=
  match x with
  | S754_finite s m e =>
      let v := if 0 <=? e then inject_Z (Zpos m * 2 ^ e)
               else Qmake (Zpos m) (Z.to_pos (2 ^ (- e))) in
      if s then Qopp v else v
  | _ => 0%Q
  end.

Definition is_finite (x : spec_float) : bool :=
  match x with
  | S754_zero _ | S754_finite _ _ _ => true
  | _ => false
  end.

End IEEE.
Import IEEE.

(** ** Compile-time constants *)

Definition MOTOR_PIN := 15.
Definition TARGET_SPEED := 20.
Definition PULSES_PER_REV := 3.
Definition MOTOR_MAX_DUTY_CYCLE := 255.
(** The literal [0.5] is a double, exactly one half. *)
Definition POT_CHANGE_THRESHOLD : float64 := f64_div (f64_of_Z 1) (f64_of_Z 2).
(** The literal [0.2] is the double nearest to one fifth. *)
Definition POT_DEAD_ZONE : float64 := f64_div (f64_of_Z 1) (f64_of_Z 5).
Definition duty_cycle_step := 20.

(** ** Machine integers *)

(** [uint32_t] arithmetic wraps modulo 2^32. *)
Definition u32 (n : Z) : Z := n mod 4294967296.

(** [int] arithmetic, as two's complement wrap-around on 32 bits. *)
Definition i32 (n : Z) : Z := (n + 2147483648) mod 4294967296 - 2147483648.

(** ** Program state and effects *)

Inductive event :=
| Printf_speed (v : float32)        (* "Velocidad calculada: %.2f RPM" *)
| Printf_pwm (d : Z)                (* "PWM enviado al motor: %d" *)
| Printf_pot (v : float32)          (* "Valor del potenciometro: %.2f" *)
| Printf_cruise (active : bool)     (* "Velocidad crucero activada/desactivada" *)
| Printf_cruise_pot                 (* "... desactivada por cambio en el potenciometro." *)
| Sleep_ms (ms : Z)
| Pwm_set_gpio_level (pin level : Z).

(** The globals of the file, the local [last_button_state] of [main] that
    lives across loop iterations, and the output produced so far. *)
Record state := mkState {
  pulse_count : Z;
  last_pulse_time : Z;
  speed : float32;
  cruise_control_active : bool;
  current_duty_cycle : Z;
  last_pot_value : float32;
  last_button_state : bool;
  log : list event
}.

(** The initialisers of the globals and of [last_button_state]. *)
Definition initial_state : state :=
  {| pulse_count := 0;
     last_pulse_time := 0;
     speed := S754_zero false;
     cruise_control_active := false;
     current_duty_cycle := 0;
     last_pot_value := S754_zero false;
     last_button_state := true;
     log := [] |}.

Definition M (A : Type) : Type := state -> A * state.

Definition ret {A} (a : A) : M A := fun st => (a, st).
Definition bind {A B} (c : M A) (k : A -> M B) : M B :=
  fun st => let (a, st') := c st in k a st'.
Definition gets {A} (f : state -> A) : M A := fun st => (f st, st).
Definition modify (f : state -> state) : M unit := fun st => (tt, f st).
Definition exec {A} (c : M A) (st : state) : state := snd (c st).
Definition eval {A} (c : M A) (st : state) : A := fst (c st).

Declare Scope prog_scope.
Delimit Scope prog_scope with prog.
Notation "x <- c ;; k" := (bind c (fun x => k))
  (at level 61, c at next level, right associativity) : prog_scope.
Notation "c ;; k" := (bind c (fun _ => k))
  (at level 61, right associativity) : prog_scope.
Open Scope prog_scope.

Definition set_pulse_count (v : Z) : M unit :=
  modify (fun st => mkState v (last_pulse_time st) (speed st)
    (cruise_control_active st) (current_duty_cycle st) (last_pot_value st)
    (last_button_state st) (log st)).
Definition set_last_pulse_time (v : Z) : M unit :=
  modify (fun st => mkState (pulse_count st) v (speed st)
    (cruise_control_active st) (current_duty_cycle st) (last_pot_value st)
    (last_button_state st) (log st)).
Definition set_speed (v : float32) : M unit :=
  modify (fun st => mkState (pulse_count st) (last_pulse_time st) v
    (cruise_control_active st) (current_duty_cycle st) (last_pot_value st)
    (last_button_state st) (log st)).
Definition set_cruise_control_active (v : bool) : M unit :=
  modify (fun st => mkState (pulse_count st) (last_pulse_time st) (speed st)
    v (current_duty_cycle st) (last_pot_value st)
    (last_button_state st) (log st)).
Definition set_current_duty_cycle (v : Z) : M unit :=
  modify (fun st => mkState (pulse_count st) (last_pulse_time st) (speed st)
    (cruise_control_active st) v (last_pot_value st)
    (last_button_state st) (log st)).
Definition set_last_pot_value (v : float32) : M unit :=
  modify (fun st => mkState (pulse_count st) (last_pulse_time st) (speed st)
    (cruise_control_active st) (current_duty_cycle st) v
    (last_button_state st) (log st)).
Definition set_last_button_state (v : bool) : M unit :=
  modify (fun st => mkState (pulse_count st) (last_pulse_time st) (speed st)
    (cruise_control_active st) (current_duty_cycle st) (last_pot_value st)
    v (log st)).
Definition emit (e : event) : M unit :=
  modify (fun st => mkState (pulse_count st) (last_pulse_time st) (speed st)
    (cruise_control_active st) (current_duty_cycle st) (last_pot_value st)
    (last_button_state st) (log st ++ [e])).

Definition sleep_ms (ms : Z) : M unit := emit (Sleep_ms ms).
Definition pwm_set_gpio_level (pin level : Z) : M unit :=
  emit (Pwm_set_gpio_level pin level).

(** ** The functions of velocidad.c *)

(** [sensor_callback]: the falling-edge interrupt handler. *)
Definition sensor_callback : M unit :=
  n <- gets pulse_count ;;
  set_pulse_count (u32 (n + 1)).

(** [calculate_speed]; [now] is what [to_ms_since_boot(get_absolute_time())]
    returns if it is called. *)
Definition calculate_speed (now : Z) : M unit :=
  n <- gets pulse_count ;;
  if PULSES_PER_REV <=? n then
    let current_time := u32 now in
    last <- gets last_pulse_time ;;
    let time_per_rev : float32 :=
      f32_of_f64 (f64_div (f64_of_Z (u32 (current_time - last))) (f64_of_Z 1000)) in
    set_speed (f32_of_f64 (f64_div (f64_of_Z 60) (f64_of_f32 time_per_rev))) ;;
    set_last_pulse_time current_time ;;
    set_pulse_count 0 ;;
    v <- gets speed ;;
    emit (Printf_speed v) ;;
    sleep_ms 1000
  else ret tt.

(** The value [set_motor_speed] gives its local [target_duty_cycle]: the
    float product converted to [int], then the three guards in order. *)
Definition target_duty_cycle (target_speed : float32) : Z :=
  let t := float_to_int
             (f32_mul (f32_div target_speed (f32_of_Z TARGET_SPEED))
                      (f32_of_Z MOTOR_MAX_DUTY_CYCLE)) in
  let t := if t >? MOTOR_MAX_DUTY_CYCLE then MOTOR_MAX_DUTY_CYCLE else t in
  let t := if t <? 0 then 0 else t in
  let t := if t <? 1 then 0 else t in
  t.

(** The slew limiter of [set_motor_speed]: [current_duty_cycle] moves one
    step toward the target and is cut back to it when it went past. *)
Definition ramp (target : Z) : M unit :=
  cur <- gets current_duty_cycle ;;
  if cur <? target then
    set_current_duty_cycle (i32 (cur + duty_cycle_step)) ;;
    cur <- gets current_duty_cycle ;;
    if cur >? target then set_current_duty_cycle target else ret tt
  else if cur >? target then
    set_current_duty_cycle (i32 (cur - duty_cycle_step)) ;;
    cur <- gets current_duty_cycle ;;
    if cur <? target then set_current_duty_cycle target else ret tt
  else ret tt.

(** [pwm_set_gpio_level] takes a [uint16_t] level. *)
Definition u16 (n : Z) : Z := n mod 65536.

Definition set_motor_speed (target_speed : float32) : M unit :=
  ramp (target_duty_cycle target_speed) ;;
  cur <- gets current_duty_cycle ;;
  pwm_set_gpio_level MOTOR_PIN (u16 cur) ;;
  emit (Printf_pwm cur) ;;
  sleep_ms 1000.

(** The scaling of [read_potentiometer], before the dead zone. *)
Definition pot_scale (raw_value : Z) : float32 :=
  f32_of_f64 (f64_mul (f64_div (f64_of_Z raw_value) (f64_of_Z 4095))
                      (f64_of_Z TARGET_SPEED)).

(** [read_potentiometer]; [raw] is what [adc_read()] returns. *)
Definition read_potentiometer (raw : Z) : M float32 :=
  let raw_value := u16 raw in
  let pot_value := pot_scale raw_value in
  let pot_value :=
    if f64_lt (fabs (f64_of_f32 pot_value)) POT_DEAD_ZONE
    then S754_zero false else pot_value in
  emit (Printf_pot pot_value) ;;
  sleep_ms 1000 ;;
  ret pot_value.

(** ** The loop of [main] *)

(** The button block of the loop; [current_button_state] is what
    [gpio_get(BUTTON_PIN)] returns (true is released: the pin is pulled up). *)
Definition main_button (current_button_state : bool) : M unit :=
  last <- gets last_button_state ;;
  (if negb current_button_state && last then
     active <- gets cruise_control_active ;;
     set_cruise_control_active (negb active) ;;
     active <- gets cruise_control_active ;;
     emit (Printf_cruise active) ;;
     sleep_ms 200
   else ret tt) ;;
  set_last_button_state current_button_state.

(** The condition of the potentiometer block:
    [fabs(current_pot_value - last_pot_value) > POT_CHANGE_THRESHOLD]. *)
Definition pot_changed (current_pot_value last : float32) : bool :=
  f64_gt (fabs (f64_of_f32 (f32_sub current_pot_value last))) POT_CHANGE_THRESHOLD.

Definition main_pot_change (current_pot_value : float32) : M unit :=
  active <- gets cruise_control_active ;;
  last <- gets last_pot_value ;;
  (if active && pot_changed current_pot_value last then
     set_cruise_control_active false ;;
     emit Printf_cruise_pot ;;
     sleep_ms 1000
   else ret tt) ;;
  set_last_pot_value current_pot_value.

Definition main_motor (current_pot_value : float32) : M unit :=
  active <- gets cruise_control_active ;;
  if active then
    v <- gets speed ;;
    set_motor_speed v
  else set_motor_speed current_pot_value.

(** What the hardware presents during one iteration of the loop. *)
Record input := mkInput {
  in_pulses : nat;   (* sensor interrupts since the previous iteration *)
  in_now : Z;        (* the millisecond timer *)
  in_button : bool;  (* the level of BUTTON_PIN *)
  in_adc : Z         (* the ADC sample *)
}.

Fixpoint deliver_pulses (n : nat) : M unit :=
  match n with
  | O => ret tt
  | S n' => sensor_callback ;; deliver_pulses n'
  end.

(** The body of [while (true)], with no interrupt during it. *)
Definition main_iteration (i : input) : M unit :=
  calculate_speed (in_now i) ;;
  main_button (in_button i) ;;
  current_pot_value <- read_potentiometer (in_adc i) ;;
  main_pot_change current_pot_value ;;
  main_motor current_pot_value ;;
  sleep_ms 100.

(** One cycle: the interrupts that fired since the last one, then the body. *)
Definition cycle (i : input) : M unit :=
  deliver_pulses (in_pulses i) ;;
  main_iteration i.

Fixpoint run (inputs : list input) (st : state) : state :=
  match inputs with
  | [] => st
  | i :: rest => run rest (exec (cycle i) st)
  end.

(** ** [calculate_speed] with the interrupt between its statements *)

(** Where the main context stands inside [calculate_speed]. *)
Inductive point :=
| At_test      (* line 32, before [pulse_count >= PULSES_PER_REV] *)
| At_compute   (* lines 33-36, the branch was taken *)
| At_reset     (* line 37, before [pulse_count = 0] *)
| At_print     (* lines 38-39 *)
| Returned.

(** The next statement group of the main context.  [seen] accumulates
    the counter values the test has read when it took the branch: the
    pulses the estimator has accounted for. *)
Definition main_step (now : Z) (p : point) (seen : Z) : M (point * Z) :=
  match p with
  | At_test =>
      n <- gets pulse_count ;;
      if PULSES_PER_REV <=? n then ret (At_compute, seen + n)
      else ret (Returned, seen)
  | At_compute =>
      let current_time := u32 now in
      last <- gets last_pulse_time ;;
      let time_per_rev : float32 :=
        f32_of_f64 (f64_div (f64_of_Z (u32 (current_time - last))) (f64_of_Z 1000)) in
      set_speed (f32_of_f64 (f64_div (f64_of_Z 60) (f64_of_f32 time_per_rev))) ;;
      set_last_pulse_time current_time ;;
      ret (At_reset, seen)
  | At_reset =>
      set_pulse_count 0 ;;
      ret (At_print, seen)
  | At_print =>
      v <- gets speed ;;
      emit (Printf_speed v) ;;
      sleep_ms 1000 ;;
      ret (Returned, seen)
  | Returned => ret (Returned, seen)
  end.

Inductive turn := Irq | Main.

(** A schedule says who runs next: the interrupt handler or the next
    statement group of [calculate_speed]. *)
Fixpoint interleave (now : Z) (sched : list turn) (p : point) (seen : Z)
  : M (point * Z) :=
  match sched with
  | [] => ret (p, seen)
  | Irq :: sched' => sensor_callback ;; interleave now sched' p seen
  | Main :: sched' =>
      r <- main_step now p seen ;;
      interleave now sched' (fst r) (snd r)
  end.

Definition irqs (sched : list turn) : Z :=
  Z.of_nat (length (filter (fun t => match t with Irq => true | Main => false end) sched)).

(** ** Quantities the statements speak about *)

(** The milliseconds between the stored instant and [now], as the
    unsigned subtraction of [calculate_speed] computes them. *)
Definition elapsed_ms (now : Z) (st : state) : Z :=
  u32 (u32 now - last_pulse_time st).

(** The raw samples of the 12-bit converter. *)
Definition adc_range : list Z := map Z.of_nat (seq 0 4096).

(** The exact scaling of a raw sample: raw / 4095 * TARGET_SPEED. *)
Definition pot_exact (raw : Z) : Q := (raw * TARGET_SPEED) # 4095.

(** What [read_potentiometer] is expected to return for [raw]: zero when
    the exact scaled value is below one fifth, and otherwise the scaled
    float, which lies in [0, TARGET_SPEED] and within 2^-20 of the exact
    scaling. *)
Definition pot_reading_ok (raw : Z) (r : float32) : bool :=
  if Qle_bool (1 # 5) (pot_exact raw) then
    match r with
    | S754_finite false _ _ =>
        Qle_bool (1 # 5) (SF2Q r) &&
        Qle_bool (SF2Q r) (inject_Z TARGET_SPEED) &&
        Qle_bool (SF2Q r - pot_exact raw) (1 # 1048576) &&
        Qle_bool (pot_exact raw - SF2Q r) (1 # 1048576)
    | _ => false
    end
  else
    match r with
    | S754_zero false => true
    | _ => false
    end.

(** The dead-zone test of [read_potentiometer] on the scaled float. *)
Definition in_dead_zone (pot_value : float32) : bool :=
  f64_lt (fabs (f64_of_f32 pot_value)) POT_DEAD_ZONE.

(** The invariant of the motor command: a duty level of the PWM range. *)
Definition duty_in_range (st : state) : Prop :=
  0 <= current_duty_cycle st <= MOTOR_MAX_DUTY_CYCLE.

(** Successive calls of [set_motor_speed], oldest first. *)
Fixpoint motor_calls (targets : list float32) (st : state) : state :=
  match targets with
  | [] => st
  | x :: rest => motor_calls rest (exec (set_motor_speed x) st)
  end.

(** The float product [set_motor_speed] converts to its target level:
    (target_speed / TARGET_SPEED) * MOTOR_MAX_DUTY_CYCLE. *)
Definition duty_product (target_speed : float32) : float32 :=
  f32_mul (f32_div target_speed (f32_of_Z TARGET_SPEED))
          (f32_of_Z MOTOR_MAX_DUTY_CYCLE).

(** A cycle up to and including the button block of the loop. *)
Definition cycle_to_button (i : input) : M unit :=
  deliver_pulses (in_pulses i) ;;
  calculate_speed (in_now i) ;;
  main_button (in_button i).

(** The setpoint [read_potentiometer] returns for a raw sample. *)
Definition pot_setpoint (raw : Z) : float32 :=
  eval (read_potentiometer raw) initial_state.

(** A falling edge: the stored level is released, the sampled one pressed. *)
Definition falling_edge (last current : bool) : bool := negb current && last.

(** The speed [calculate_speed] stores for an interval of [ms]
    milliseconds, as the two statements of lines 34-35 compute it. *)
Definition rpm_of_elapsed (ms : Z) : float32 :=
  let time_per_rev : float32 :=
    f32_of_f64 (f64_div (f64_of_Z ms) (f64_of_Z 1000)) in
  f32_of_f64 (f64_div (f64_of_Z 60) (f64_of_f32 time_per_rev)).

(** Intervals, in milliseconds, whose length in seconds and whose
    60 / seconds are both binary fractions: 125 * d * 2^a with d a divisor
    of 15, below 2^32. *)
Definition dyadic_intervals : list Z :=
  filter (fun ms => ms <? 4294967296)
    (flat_map (fun d => map (fun a => 125 * d * 2 ^ Z.of_nat a) (seq 0 26))
              [1; 3; 5; 15]).

(** ** Predicates on the rounding of [SpecFloat] *)

(** The rational [x] lies in the interval of width 2^e that starts at
    [shr_m mrs] * 2^e, at the place the round and sticky bits of [mrs]
    say: on the lower end, below the middle, on the middle, above it. *)
Definition located_at (mrs : shr_record) (e : Z) (x : Q) : Prop :=
  let lo := (inject_Z (shr_m mrs) * 2 ^ e)%Q in
  let half := ((1 # 2) * 2 ^ e)%Q in
  match shr_r mrs, shr_s mrs with
  | false, false => (x == lo)%Q
  | false, true => (lo < x /\ x < lo + half)%Q
  | true, false => (x == lo + half)%Q
  | true, true => (lo + half < x /\ x < lo + 2 ^ e)%Q
  end.

(** A positive normal float of precision [prec], its magnitude exponent
    between [lo] and [hi], denoting [v]. *)
Definition normal_in (prec : Z) (f : spec_float) (lo hi : Z) (v : Q) : Prop :=
  exists (m : positive) (e : Z),
    f = S754_finite false m e /\
    2 ^ (prec - 1) <= Zpos m < 2 ^ prec /\
    lo <= prec + e <= hi /\
    (v == inject_Z (Zpos m) * 2 ^ e)%Q.

(** ** The setpoints of the converter's samples *)

(** What [read_potentiometer] can return: +0, or a positive normal float
    between 2^-3 and 2^5. *)
Definition setpoint_like (f : float32) (v : Q) : Prop :=
  (f = S754_zero false /\ (v == 0)%Q) \/ normal_in 24 f (-2) 5 v.

(** A setpoint in units of 2^-26, the finest grid of the setpoints. *)
Definition pot_units (raw : Z) : Z :=
  match pot_setpoint raw with
  | S754_finite false m e => Zpos m * 2 ^ (e + 26)
  | _ => 0
  end.

(** The setpoint of [raw] is +0 or a normal float between 2^-3 and 2^5. *)
Definition setpoint_shape_ok (raw : Z) : bool :=
  match pot_setpoint raw with
  | S754_zero false => true
  | S754_finite false m e =>
      (8388608 <=? Zpos m) && (Zpos m <? 16777216) && (-26 <=? e) && (e <=? -19)
  | _ => false
  end.

(** From one half upward the setpoints are multiples of 2^-24. *)
Definition unit_grid_ok (k : Z) : bool := (k mod 4 =? 0) || (k <? 33554432).

(** The difference of two setpoints is not one half plus one or two
    units of 2^-26, the two values that round to one half. *)
Definition units_apart_ok (k1 k2 : Z) : bool :=
  let d := k1 - k2 in negb ((d =? 33554433) || (d =? 33554434)).

(** The setpoints of all samples, in units, and those below one half. *)
Definition all_units : list Z := map pot_units adc_range.

Definition small_units : list Z := filter (fun k => k <? 33554432) all_units.

(** ** Further quantities: output, timing, the level after a call *)

(** The milliseconds of [sleep_ms] in an output. *)
Fixpoint slept (l : list event) : Z :=
  match l with
  | [] => 0
  | Sleep_ms ms :: rest => ms + slept rest
  | _ :: rest => slept rest
  end.

(** The calls of [pwm_set_gpio_level] in an output, as (pin, level),
    oldest first. *)
Fixpoint pwm_writes (l : list event) : list (Z * Z) :=
  match l with
  | [] => []
  | Pwm_set_gpio_level pin level :: rest => (pin, level) :: pwm_writes rest
  | _ :: rest => pwm_writes rest
  end.

(** The level one step of [duty_cycle_step] from [c] toward [t], not past
    it. *)
Definition toward (t c : Z) : Z :=
  if c <? t then Z.min (c + duty_cycle_step) t
  else Z.max (c - duty_cycle_step) t.

(** The target level of the manual path for a raw sample: the setpoint
    of [read_potentiometer] passed to [set_motor_speed]. *)
Definition manual_target (raw : Z) : Z := target_duty_cycle (pot_setpoint raw).

(** The manual target of [raw] against the exact 255 * raw / 4095: zero in
    the dead zone, otherwise the integer quotient or one less; and not
    above the target of the next sample. *)
Definition manual_target_ok (raw : Z) : bool :=
  let t := manual_target raw in
  let q := raw * MOTOR_MAX_DUTY_CYCLE / 4095 in
  (if raw <=? 40 then t =? 0 else (q - 1 <=? t) && (t <=? q)) &&
  ((t =? MOTOR_MAX_DUTY_CYCLE) || (raw <? 4095)) &&
  ((t <? MOTOR_MAX_DUTY_CYCLE) || (4095 <=? raw)) &&
  ((4095 <=? raw) || (t <=? manual_target (raw + 1))).

(** The setpoint of [raw] is not above the setpoint of the next sample. *)
Definition setpoint_step_ok (raw : Z) : bool :=
  (4095 <=? raw) || (pot_units raw <=? pot_units (raw + 1)).

(** The schedule in which [a] interrupts come before [calculate_speed],
    [c1] between its test (line 32) and lines 33-36, [c2] between those
    and the reset of line 37, and [b] between the reset and the print. *)
Definition schedule (a c1 c2 b : nat) : list turn :=
  repeat Irq a ++ [Main] ++ repeat Irq c1 ++ [Main] ++ repeat Irq c2
  ++ [Main] ++ repeat Irq b ++ [Main].

(** What holds of the sensor globals at the end of every cycle: fewer than
    PULSES_PER_REV pulses pending, and a stored instant of 32 bits. *)
Definition sensor_idle (st : state) : Prop :=
  0 <= pulse_count st < PULSES_PER_REV /\
  0 <= last_pulse_time st < 4294967296.

(** The speeds [calculate_speed] can leave in [speed]: the initial +0,
    +infinity, or a positive finite float of at most 60000 * (1 + 2^-22). *)
Definition speed_shape (v : float32) : Prop :=
  v = S754_zero false \/ v = S754_infinity false \/
  (is_finite v = true /\ (0 < SF2Q v)%Q /\
   (SF2Q v <= 60000 * (1 + (1 # 4194304)))%Q).

(** Speeds that are zero or carry the negative sign. *)
Definition not_positive (x : float32) : bool :=
  match x with
  | S754_zero _ => true
  | S754_finite s _ _ => s
  | S754_infinity s => s
  | S754_nan => false
  end.

(** The states at the end of the cycles of a run, oldest first. *)
Fixpoint trace (inputs : list input) (st : state) : list state :=
  match inputs with
  | [] => []
  | i :: rest => exec (cycle i) st :: trace rest (exec (cycle i) st)
  end.

(** A cycle in which the button reads pressed and the converter gives
    [raw]. *)
Definition pressed_at (raw : Z) (i : input) : Prop :=
  in_button i = false /\ in_adc i = raw.

(** The sample as [read_potentiometer] lets it count: the samples of the
    dead zone (0..40) count as 0. *)
Definition live_sample (raw : Z) : Z := if raw <=? 40 then 0 else raw.

(** The setpoint of [raw], in units of 2^-26, against the exact scaling
    of the sample that counts: within 65 units. *)
Definition setpoint_units_ok (raw : Z) : bool :=
  Z.abs (4095 * pot_units raw - live_sample raw * TARGET_SPEED * 67108864)
    <=? 4095 * 65.

(** A cycle in which the button reads released and the converter gives
    [raw]. *)
Definition released_at (raw : Z) (i : input) : Prop :=
  in_button i = true /\ in_adc i = raw.

(** A run whose clock is consistent with its pauses: the instant a cycle
    reads in [calculate_speed] is not before [t], the instant the cycle
    before it read plus the milliseconds that cycle then paused, and the
    32-bit millisecond count has not wrapped. *)
Fixpoint clocked (inputs : list input) (st : state) (t : Z) : bool :=
  match inputs with
  | [] => true
  | i :: rest =>
      (t <=? in_now i) && (in_now i <? 4294967296) &&
      clocked rest (exec (cycle i) st)
        (in_now i + (slept (log (exec (cycle i) st)) - slept (log st)))
  end.

(** ** The conversion of line 44 where C defines it *)

(** C defines the conversion of a float to [int] when the integer part of
    the value is an [int]: for a zero and for a finite float whose
    truncation lies in [INT_MIN, INT_MAX]. *)
Definition fits_int (x : float32) : bool :=
  match x with
  | S754_zero _ => true
  | S754_finite s m e =>
      if s then trunc_pos m e <=? - INT_MIN else trunc_pos m e <=? INT_MAX
  | _ => false
  end.

(** The conversion with its undefined cases left open: the truncation
    where C defines it, and [u] for whatever a build yields elsewhere. *)
Definition float_to_int_or (u : Z) (x : float32) : Z :=
  if fits_int x then float_to_int x else u.

(** Lines 44-51 of [set_motor_speed] with that conversion. *)
Definition target_duty_cycle_or (u : Z) (target_speed : float32) : Z :=
  let t := float_to_int_or u
             (f32_mul (f32_div target_speed (f32_of_Z TARGET_SPEED))
                      (f32_of_Z MOTOR_MAX_DUTY_CYCLE)) in
  let t := if t >? MOTOR_MAX_DUTY_CYCLE then MOTOR_MAX_DUTY_CYCLE else t in
  let t := if t <? 0 then 0 else t in
  let t := if t <? 1 then 0 else t in
  t.

(** ** Interrupts during the rest of the loop body *)

(** The loop body after [calculate_speed] (lines 114-141) with sensor
    interrupts between its blocks: [n1] before the button block, [n2]
    before [read_potentiometer], [n3] before the change test, [n4] before
    the motor block, [n5] before the final pause and [n6] after it. *)
Definition loop_rest_with (n1 n2 n3 n4 n5 n6 : nat) (i : input) : M unit :=
  deliver_pulses n1 ;;
  main_button (in_button i) ;;
  deliver_pulses n2 ;;
  current_pot_value <- read_potentiometer (in_adc i) ;;
  deliver_pulses n3 ;;
  main_pot_change current_pot_value ;;
  deliver_pulses n4 ;;
  main_motor current_pot_value ;;
  deliver_pulses n5 ;;
  sleep_ms 100 ;;
  deliver_pulses n6.

(** The same with no interrupt. *)
Definition loop_rest (i : input) : M unit :=
  main_button (in_button i) ;;
  current_pot_value <- read_potentiometer (in_adc i) ;;
  main_pot_change current_pot_value ;;
  main_motor current_pot_value ;;
  sleep_ms 100.

(** A state with another value of the pulse counter. *)
Definition with_pulse_count (p : Z) (st : state) : state :=
  mkState p (last_pulse_time st) (speed st) (cruise_control_active st)
    (current_duty_cycle st) (last_pot_value st) (last_button_state st)
    (log st).

(** A computation that neither reads nor writes the pulse counter. *)
Definition ignores_pulse_count {A} (c : M A) : Prop :=
  forall (p : Z) (st : state),
    c (with_pulse_count p st) = (fst (c st), with_pulse_count p (snd (c st))).

(** ** Proof support *)

Ltac prog_unfold :=
  cbv beta iota zeta delta
    [bind gets ret modify exec eval
     set_pulse_count set_last_pulse_time set_speed set_cruise_control_active
     set_current_duty_cycle set_last_pot_value set_last_button_state
     emit sleep_ms pwm_set_gpio_level].

Ltac prog_fields :=
  cbn [pulse_count last_pulse_time speed cruise_control_active
       current_duty_cycle last_pot_value last_button_state log fst snd].

Ltac prog_simpl := prog_unfold; prog_fields.

Lemma u32_small (n : Z) : 0 <= n < 4294967296 -> u32 n = n.
Proof. intros H. unfold u32. apply Z.mod_small. exact H. Qed.

Lemma i32_small (n : Z) : -2147483648 <= n <= 2147483647 -> i32 n = n.
Proof.
  intros H. unfold i32. rewrite Z.mod_small; lia.
Qed.

(** ** Rounding: what [binary_round_aux], [binary_round] and [SFdiv] return *)

Lemma Q2_pos (e : Z) : (0 < 2 ^ e)%Q.
Proof. apply Qpower_0_lt. reflexivity. Qed.

Lemma Q2_succ (e : Z) : (2 ^ (e + 1) == 2 * 2 ^ e)%Q.
Proof. rewrite Qpower_plus by discriminate. change (2 ^ 1)%Q with 2%Q. ring. Qed.

Lemma Q2_add (a b : Z) : (2 ^ (a + b) == 2 ^ a * 2 ^ b)%Q.
Proof. apply Qpower_plus. discriminate. Qed.

Lemma Q2_lt (a b : Z) : a < b -> (2 ^ a < 2 ^ b)%Q.
Proof. intros H. apply Qpower_lt_compat_l; [exact H | reflexivity]. Qed.

Lemma Q2_le (a b : Z) : a <= b -> (2 ^ a <= 2 ^ b)%Q.
Proof. intros H. apply Qpower_le_compat_l; [exact H | discriminate]. Qed.

Lemma Q2_lt_inv (a b : Z) : (2 ^ a < 2 ^ b)%Q -> a < b.
Proof. intros H. apply Qpower_lt_compat_l_inv in H; [exact H | reflexivity]. Qed.

Lemma Q2_inject (n : Z) : 0 <= n -> (inject_Z (2 ^ n) == 2 ^ n)%Q.
Proof. intros H. apply (Zpower_Qpower 2 n H). Qed.

Lemma SF2Q_finite (s : bool) (m : positive) (e : Z) :
  (SF2Q (S754_finite s m e) ==
   (if s then - (inject_Z (Zpos m) * 2 ^ e) else inject_Z (Zpos m) * 2 ^ e))%Q.
Proof.
  assert (H : ((if 0 <=? e then inject_Z (Zpos m * 2 ^ e)
                else Zpos m # Z.to_pos (2 ^ (- e))) ==
               inject_Z (Zpos m) * 2 ^ e)%Q).
  { destruct (Z.leb_spec 0 e) as [He | He].
    - rewrite inject_Z_mult, Q2_inject by exact He. reflexivity.
    - assert (Hp : 0 < 2 ^ (- e)) by (apply Z.pow_pos_nonneg; lia).
      rewrite Qmake_Qdiv. rewrite Z2Pos.id by exact Hp.
      rewrite Q2_inject by lia. unfold Qdiv.
      rewrite Qpower_opp, Qinv_involutive. reflexivity. }
  unfold SF2Q. destruct s; rewrite H; reflexivity.
Qed.

Lemma digits2_pos_size (p : positive) : digits2_pos p = Pos.size p.
Proof. induction p; cbn; congruence. Qed.

Lemma Zdigits2_log2 (m : Z) : 0 < m -> Zdigits2 m = Z.log2 m + 1.
Proof.
  destruct m as [| p | p]; try lia. intros _.
  cbn [Zdigits2]. rewrite digits2_pos_size.
  pose proof (Pos.size_gt p) as Hgt. pose proof (Pos.size_le p) as Hle.
  assert (Hgt' : Zpos p < 2 ^ Zpos (Pos.size p)).
  { rewrite <- Pos2Z.inj_pow. apply Pos2Z.pos_lt_pos. exact Hgt. }
  assert (Hle' : 2 ^ Zpos (Pos.size p) <= 2 * Zpos p).
  { rewrite <- Pos2Z.inj_pow. change (2 * Zpos p) with (Zpos p~0).
    apply Pos2Z.pos_le_pos. exact Hle. }
  assert (Hs : 2 ^ Zpos (Pos.size p) = 2 * 2 ^ (Zpos (Pos.size p) - 1)).
  { rewrite <- Z.pow_succ_r by lia. f_equal. lia. }
  assert (Hl : Z.log2 (Zpos p) = Zpos (Pos.size p) - 1).
  { apply Z.log2_unique; [lia |].
    rewrite Z.pow_succ_r by lia. lia. }
  lia.
Qed.

Lemma Zdigits2_bounds (m : Z) :
  0 < m -> 2 ^ (Zdigits2 m - 1) <= m < 2 ^ Zdigits2 m.
Proof.
  intros H. rewrite (Zdigits2_log2 m H).
  replace (Z.log2 m + 1 - 1) with (Z.log2 m) by lia.
  rewrite Z.add_1_r. apply Z.log2_spec. exact H.
Qed.

Lemma Zdigits2_unique (m d : Z) :
  0 < m -> 2 ^ (d - 1) <= m < 2 ^ d -> Zdigits2 m = d.
Proof.
  intros H Hb. rewrite (Zdigits2_log2 m H).
  assert (Hd : 0 < d).
  { destruct (Z.lt_ge_cases 0 d) as [Hd | Hd]; [exact Hd | exfalso].
    assert (2 ^ d <= 1).
    { destruct (Z.eq_dec d 0) as [-> | Hn]; [cbn; lia |].
      rewrite Z.pow_neg_r by lia. lia. }
    lia. }
  assert (Z.log2 m = d - 1).
  { apply Z.log2_unique; [lia |].
    rewrite <- Z.add_1_r. replace (d - 1 + 1) with d by lia. exact Hb. }
  lia.
Qed.

Lemma shr_1_spec (mrs : shr_record) :
  0 <= shr_m mrs ->
  shr_1 mrs = Build_shr_record (shr_m mrs / 2) (Z.odd (shr_m mrs))
                               (shr_r mrs || shr_s mrs).
Proof.
  destruct mrs as [m r s]. cbn [shr_m shr_r shr_s]. intros Hm.
  destruct m as [| p | p]; try lia.
  - reflexivity.
  - destruct p as [p | p |]; cbn [shr_1].
    + f_equal. rewrite Pos2Z.inj_xI.
      rewrite Z.mul_comm, Z.div_add_l by lia. cbn. lia.
    + f_equal. rewrite Pos2Z.inj_xO. rewrite Z.mul_comm, Z.div_mul by lia. reflexivity.
    + reflexivity.
Qed.

Lemma shr_1_located (mrs : shr_record) (e : Z) (x : Q) :
  0 <= shr_m mrs ->
  located_at mrs e x ->
  located_at (shr_1 mrs) (e + 1) x.
Proof.
  intros Hm. rewrite (shr_1_spec mrs Hm).
  destruct mrs as [m r s]. cbn [shr_m shr_r shr_s] in *.
  unfold located_at. cbn [shr_m shr_r shr_s].
  pose proof (Q2_pos e) as HP. pose proof (Q2_succ e) as HS.
  set (P := (2 ^ e)%Q) in *. set (P' := (2 ^ (e + 1))%Q) in *.
  assert (HM : (inject_Z m == 2 * inject_Z (m / 2) + (if Z.odd m then 1 else 0))%Q).
  { rewrite (Z.div_mod m 2) at 1 by lia. rewrite Zmod_odd.
    rewrite inject_Z_plus, inject_Z_mult.
    destruct (Z.odd m); reflexivity. }
  set (M := inject_Z m) in *. set (M' := inject_Z (m / 2)) in *.
  destruct (Z.odd m); destruct r; destruct s; cbn [orb];
    intros H; rewrite ?HS; rewrite ?HM in H; try nra.
Qed.

Lemma iter_shr_1_located (n : positive) :
  forall (mrs : shr_record) (e : Z) (x : Q),
    0 <= shr_m mrs ->
    located_at mrs e x ->
    located_at (iter_pos shr_1 n mrs) (e + Zpos n) x /\
    shr_m (iter_pos shr_1 n mrs) = shr_m mrs / 2 ^ Zpos n.
Proof.
  assert (Hone : forall mrs e x, 0 <= shr_m mrs -> located_at mrs e x ->
             located_at (shr_1 mrs) (e + 1) x /\
             shr_m (shr_1 mrs) = shr_m mrs / 2 ^ 1 /\ 0 <= shr_m (shr_1 mrs)).
  { intros mrs e x Hm Hl. split; [apply shr_1_located; assumption |].
    rewrite (shr_1_spec mrs Hm). cbn [shr_m]. change (2 ^ 1) with 2.
    split; [reflexivity | apply Z.div_pos; lia]. }
  assert (Hdiv : forall m a b, 0 < a -> 0 < b ->
             m / 2 ^ a / 2 ^ b = m / 2 ^ (a + b)).
  { intros m a b Ha Hb. rewrite Z.pow_add_r by lia.
    assert (0 < 2 ^ a) by (apply Z.pow_pos_nonneg; lia).
    assert (0 < 2 ^ b) by (apply Z.pow_pos_nonneg; lia).
    rewrite Z.div_div by lia. reflexivity. }
  induction n as [n IH | n IH |]; intros mrs e x Hm Hl; cbn [iter_pos].
  - destruct (Hone mrs e x Hm Hl) as (L1 & M1 & P1).
    destruct (IH _ _ _ P1 L1) as (L2 & M2).
    assert (P2 : 0 <= shr_m (iter_pos shr_1 n (shr_1 mrs))).
    { rewrite M2. apply Z.div_pos; [exact P1 | apply Z.pow_pos_nonneg; lia]. }
    destruct (IH _ _ _ P2 L2) as (L3 & M3).
    split.
    + replace (e + Zpos n~1) with (e + 1 + Zpos n + Zpos n) by lia. exact L3.
    + rewrite M3, M2, M1. rewrite !Hdiv by lia. f_equal. f_equal. lia.
  - destruct (IH _ _ _ Hm Hl) as (L2 & M2).
    assert (P2 : 0 <= shr_m (iter_pos shr_1 n mrs)).
    { rewrite M2. apply Z.div_pos; [exact Hm | apply Z.pow_pos_nonneg; lia]. }
    destruct (IH _ _ _ P2 L2) as (L3 & M3).
    split.
    + replace (e + Zpos n~0) with (e + Zpos n + Zpos n) by lia. exact L3.
    + rewrite M3, M2. rewrite !Hdiv by lia. f_equal. f_equal. lia.
  - destruct (Hone mrs e x Hm Hl) as (L1 & M1 & _). split; assumption.
Qed.

(** [shr] by a non-negative amount. *)
Lemma shr_located (mrs : shr_record) (e n : Z) (x : Q) :
  0 <= shr_m mrs -> 0 <= n ->
  located_at mrs e x ->
  located_at (fst (shr mrs e n)) (e + n) x /\
  snd (shr mrs e n) = e + n /\
  shr_m (fst (shr mrs e n)) = shr_m mrs / 2 ^ n /\
  (n = 0 -> fst (shr mrs e n) = mrs).
Proof.
  intros Hm Hn Hl. unfold shr. destruct n as [| p | p]; try lia.
  - cbn [fst snd]. rewrite Z.add_0_r, Z.div_1_r. auto.
  - cbn [fst snd]. destruct (iter_shr_1_located p mrs e x Hm Hl).
    repeat split; auto. discriminate.
Qed.

Lemma round_nearest_even_located (mrs : shr_record) (e : Z) (x : Q) :
  located_at mrs e x ->
  let m2 := round_nearest_even (shr_m mrs) (loc_of_shr_record mrs) in
  (m2 = shr_m mrs \/ m2 = shr_m mrs + 1) /\
  (- ((1 # 2) * 2 ^ e) <= inject_Z m2 * 2 ^ e - x <= (1 # 2) * 2 ^ e)%Q /\
  (shr_r mrs = false -> shr_s mrs = false ->
     m2 = shr_m mrs /\ (x == inject_Z m2 * 2 ^ e)%Q).
Proof.
  destruct mrs as [m r s]. unfold located_at. cbn [shr_m shr_r shr_s].
  pose proof (Q2_pos e) as HP. set (P := (2 ^ e)%Q) in *.
  assert (HM : (inject_Z (m + 1) == inject_Z m + 1)%Q).
  { rewrite inject_Z_plus. reflexivity. }
  destruct r; destruct s; cbn [loc_of_shr_record round_nearest_even];
    intros H; cbv zeta.
  - split; [right; reflexivity |]. rewrite HM.
    split; [nra | intros; discriminate].
  - destruct (Z.even m).
    + split; [left; reflexivity |]. split; [nra | intros; discriminate].
    + split; [right; reflexivity |]. rewrite HM.
      split; [nra | intros; discriminate].
  - split; [left; reflexivity |]. split; [nra | intros; discriminate].
  - split; [left; reflexivity |]. split; [nra |].
    intros _ _. split; [reflexivity | exact H].
Qed.

Lemma shr_record_of_loc_m (m : Z) (l : location) :
  shr_m (shr_record_of_loc m l) = m.
Proof. destruct l as [| [ | | ]]; reflexivity. Qed.

Section Round.

Variables prec emax : Z.
Hypothesis Hprec : 0 < prec.

Lemma fexp_normal (k : Z) :
  emin prec emax <= k - prec -> fexp prec emax k = k - prec.
Proof. unfold fexp. lia. Qed.

Lemma binary_round_aux_spec (s : bool) (mx ex : Z) (lx : location) (x : Q) :
  0 < mx ->
  located_at (shr_record_of_loc mx lx) ex x ->
  prec <= Zdigits2 mx ->
  emin prec emax <= Zdigits2 mx + ex - prec ->
  Zdigits2 mx + ex < emax ->
  exists (m' : positive) (e' : Z),
    binary_round_aux prec emax s mx ex lx = S754_finite s m' e' /\
    2 ^ (prec - 1) <= Zpos m' < 2 ^ prec /\
    Zdigits2 mx + ex <= prec + e' <= Zdigits2 mx + ex + 1 /\
    (- ((1 # 2) * 2 ^ (Zdigits2 mx + ex - prec))
       <= inject_Z (Zpos m') * 2 ^ e' - x
       <= (1 # 2) * 2 ^ (Zdigits2 mx + ex - prec))%Q /\
    (lx = loc_Exact -> Zdigits2 mx = prec -> Zpos m' = mx /\ e' = ex).
Proof.
  intros Hmx Hloc Hd Hmin Hmax.
  pose proof (Zdigits2_bounds mx Hmx) as Hb.
  set (d := Zdigits2 mx) in *. set (e1 := d + ex - prec) in *.
  unfold binary_round_aux, shr_fexp.
  fold d. rewrite (fexp_normal (d + ex) Hmin). fold e1.
  assert (Hm0 : 0 <= shr_m (shr_record_of_loc mx lx))
    by (rewrite shr_record_of_loc_m; lia).
  assert (Hn : 0 <= e1 - ex) by (unfold e1; lia).
  destruct (shr_located _ ex (e1 - ex) x Hm0 Hn Hloc) as (L1 & E1 & M1 & Z1).
  destruct (shr (shr_record_of_loc mx lx) ex (e1 - ex)) as [mrs1 e1'].
  cbn [fst snd] in L1, E1, M1, Z1. subst e1'.
  replace (ex + (e1 - ex)) with e1 in * by lia.
  rewrite shr_record_of_loc_m in M1.
  (* the truncated mantissa has [prec] digits *)
  assert (Hpow : 2 ^ d = 2 ^ (e1 - ex) * 2 ^ prec).
  { rewrite <- Z.pow_add_r by lia. f_equal. unfold e1. lia. }
  assert (Hpow' : 2 ^ (d - 1) = 2 ^ (e1 - ex) * 2 ^ (prec - 1)).
  { rewrite <- Z.pow_add_r by lia. f_equal. unfold e1. lia. }
  assert (Hp2 : 0 < 2 ^ (e1 - ex)) by (apply Z.pow_pos_nonneg; lia).
  assert (Hm1 : 2 ^ (prec - 1) <= shr_m mrs1 < 2 ^ prec).
  { rewrite M1. split.
    - apply Z.div_le_lower_bound; lia.
    - apply Z.div_lt_upper_bound; lia. }
  destruct (round_nearest_even_located mrs1 e1 x L1) as (Hm2 & Herr & Hex).
  set (m2 := round_nearest_even (shr_m mrs1) (loc_of_shr_record mrs1)) in *.
  assert (Hpp : 2 ^ prec = 2 * 2 ^ (prec - 1)).
  { rewrite <- Z.pow_succ_r by lia. f_equal. lia. }
  assert (Hpp0 : 0 < 2 ^ (prec - 1)) by (apply Z.pow_pos_nonneg; lia).
  assert (Hm2pos : 0 < m2) by lia.
  assert (Hexact : lx = loc_Exact -> d = prec -> m2 = mx /\ e1 = ex).
  { intros -> Hdp.
    assert (Hz : e1 - ex = 0) by (unfold e1; lia).
    specialize (Z1 Hz). subst mrs1. cbn [shr_record_of_loc shr_r shr_s shr_m] in Hex.
    destruct (Hex eq_refl eq_refl) as (-> & _). split; [reflexivity | lia]. }
  destruct (Z.lt_ge_cases m2 (2 ^ prec)) as [Hlt | Hge].
  - (* no carry *)
    assert (Hd2 : Zdigits2 m2 = prec) by (apply Zdigits2_unique; lia).
    rewrite Hd2.
    assert (Hf : fexp prec emax (prec + e1) = e1) by (unfold fexp, e1 in *; lia).
    rewrite Hf, Z.sub_diag. cbn [shr shr_record_of_loc shr_m].
    destruct m2 as [| p2 | p2] eqn:Em2; try lia.
    assert (Hle : (e1 <=? emax - prec) = true) by (apply Z.leb_le; unfold e1; lia).
    rewrite Hle. exists p2, e1.
    split; [reflexivity | split; [lia | split; [unfold e1; lia | split]]].
    + exact Herr.
    + exact Hexact.
  - (* carry: the rounded mantissa is 2^prec *)
    assert (Em2 : m2 = 2 ^ prec) by lia.
    assert (Hd2 : Zdigits2 m2 = prec + 1).
    { apply Zdigits2_unique; [lia |].
      replace (prec + 1 - 1) with prec by lia.
      rewrite Z.pow_add_r by lia. change (2 ^ 1) with 2. lia. }
    rewrite Hd2.
    assert (Hf : fexp prec emax (prec + 1 + e1) = e1 + 1)
      by (unfold fexp, e1 in *; lia).
    rewrite Hf. replace (e1 + 1 - e1) with 1 by lia.
    cbn [shr shr_record_of_loc iter_pos].
    rewrite shr_1_spec by (cbn [shr_m]; lia). cbn [shr_m].
    assert (Hhalf : m2 / 2 = 2 ^ (prec - 1)).
    { rewrite Em2, Hpp. rewrite Z.mul_comm, Z.div_mul by lia. reflexivity. }
    rewrite Hhalf.
    destruct (2 ^ (prec - 1)) as [| p3 | p3] eqn:Ep3; try lia.
    assert (Hle : (e1 + 1 <=? emax - prec) = true)
      by (apply Z.leb_le; unfold e1; lia).
    rewrite Hle. exists p3, (e1 + 1).
    split; [reflexivity | split; [lia | split; [unfold e1; lia | split]]].
    + assert (Hv : (inject_Z (Zpos p3) * 2 ^ (e1 + 1) == inject_Z m2 * 2 ^ e1)%Q).
      { rewrite Q2_succ, Em2, Hpp, inject_Z_mult. ring. }
      rewrite Hv. exact Herr.
    + intros Hl Hdp. destruct (Hexact Hl Hdp) as (Hmm & _).
      exfalso. clearbody d. subst d. lia.
Qed.


Lemma located_bounds (m : Z) (l : location) (e : Z) (x : Q) :
  located_at (shr_record_of_loc m l) e x ->
  (inject_Z m * 2 ^ e <= x /\ x < inject_Z m * 2 ^ e + 2 ^ e)%Q.
Proof.
  pose proof (Q2_pos e) as HP.
  unfold located_at. destruct l as [| [ | | ]];
    cbn [shr_record_of_loc shr_m shr_r shr_s]; intros H; nra.
Qed.

Lemma pos_iter_xO (m d : positive) :
  Zpos (Pos.iter xO m d) = Zpos m * 2 ^ Zpos d.
Proof.
  rewrite <- Z.shiftl_mul_pow2 by lia. cbn [Z.shiftl].
  apply (Pos.iter_swap_gen _ _ Zpos xO (Z.mul 2)). intros a. reflexivity.
Qed.

Lemma shl_align_spec (mx : positive) (ex ex' : Z) :
  let r := shl_align mx ex ex' in
  snd r = Z.min ex ex' /\ Zpos (fst r) = Zpos mx * 2 ^ (ex - snd r).
Proof.
  cbv zeta. unfold shl_align.
  destruct (ex' - ex) as [| d | d] eqn:E; cbn [fst snd].
  - split; [lia |]. rewrite Z.sub_diag. cbn. lia.
  - split; [lia |]. rewrite Z.sub_diag. cbn. lia.
  - split; [lia |]. rewrite pos_iter_xO. f_equal. f_equal. lia.
Qed.

Lemma Zdigits2_shift (m k : Z) :
  0 < m -> 0 <= k -> Zdigits2 (m * 2 ^ k) = Zdigits2 m + k.
Proof.
  intros Hm Hk. pose proof (Zdigits2_bounds m Hm) as Hb.
  assert (Hd : 0 < Zdigits2 m).
  { rewrite (Zdigits2_log2 m Hm). pose proof (Z.log2_nonneg m). lia. }
  assert (Hp : 0 < 2 ^ k) by (apply Z.pow_pos_nonneg; lia).
  apply Zdigits2_unique; [nia |].
  replace (Zdigits2 m + k - 1) with (Zdigits2 m - 1 + k) by lia.
  rewrite !Z.pow_add_r by lia. nia.
Qed.

Lemma binary_round_spec (s : bool) (m : positive) (e : Z) :
  let d := Zdigits2 (Zpos m) in
  emin prec emax <= d + e - prec ->
  d + e < emax ->
  exists (m' : positive) (e' : Z),
    binary_round prec emax s m e = S754_finite s m' e' /\
    2 ^ (prec - 1) <= Zpos m' < 2 ^ prec /\
    d + e <= prec + e' <= d + e + 1 /\
    (- ((1 # 2) * 2 ^ (d + e - prec))
       <= inject_Z (Zpos m') * 2 ^ e' - inject_Z (Zpos m) * 2 ^ e
       <= (1 # 2) * 2 ^ (d + e - prec))%Q /\
    (d <= prec ->
       (inject_Z (Zpos m') * 2 ^ e' == inject_Z (Zpos m) * 2 ^ e)%Q).
Proof.
  intros d Hmin Hmax. unfold binary_round.
  change (Zpos (digits2_pos m)) with d.
  rewrite (fexp_normal (d + e) Hmin).
  destruct (shl_align_spec m e (d + e - prec)) as (Hez & Hmz).
  destruct (shl_align m e (d + e - prec)) as [mz ez]. cbn [fst snd] in Hez, Hmz.
  assert (Hk : 0 <= e - ez) by lia.
  assert (Hdz : Zdigits2 (Zpos mz) = d + (e - ez)).
  { rewrite Hmz. apply Zdigits2_shift; lia. }
  assert (Hx : (inject_Z (Zpos m) * 2 ^ e == inject_Z (Zpos mz) * 2 ^ ez)%Q).
  { rewrite Hmz, inject_Z_mult, Q2_inject by exact Hk.
    rewrite <- Qmult_assoc, <- Q2_add.
    replace (e - ez + ez) with e by lia. reflexivity. }
  destruct (binary_round_aux_spec s (Zpos mz) ez loc_Exact
              (inject_Z (Zpos m) * 2 ^ e)%Q) as (m' & e' & Hr & Hm' & He' & Herr & Hex).
  - lia.
  - unfold located_at. cbn [shr_record_of_loc shr_m shr_r shr_s]. exact Hx.
  - rewrite Hdz. lia.
  - rewrite Hdz. lia.
  - rewrite Hdz. lia.
  - exists m', e'. rewrite Hdz in *.
    replace (d + (e - ez) + ez) with (d + e) in * by lia.
    split; [exact Hr | split; [exact Hm' | split; [exact He' | split]]].
    + exact Herr.
    + intros Hle. destruct (Hex eq_refl) as (Hmm & Hee); [lia |].
      rewrite Hmm, Hee. symmetry. exact Hx.
Qed.


Lemma new_location_located (m2 q r : Z) (e : Z) (x : Q) :
  0 < m2 -> 0 <= r < m2 ->
  (x * inject_Z m2 == (inject_Z q * inject_Z m2 + inject_Z r) * 2 ^ e)%Q ->
  located_at (shr_record_of_loc q (new_location m2 r)) e x.
Proof.
  intros Hm2 Hr Hx.
  pose proof (Q2_pos e) as HP. set (P := (2 ^ e)%Q) in *.
  assert (HM : (0 < inject_Z m2)%Q) by (rewrite <- (Zlt_Qlt 0); exact Hm2).
  assert (HR0 : (0 <= inject_Z r)%Q) by (rewrite <- (Zle_Qle 0); lia).
  assert (Hcmp : forall c, (2 * r ?= m2) = c ->
            located_at (shr_record_of_loc q
                          (if r =? 0 then loc_Exact else loc_Inexact c)) e x).
  { intros c Hc. unfold located_at.
    destruct (Z.eqb_spec r 0) as [-> | Hr0];
      [| assert (HRp : (0 < inject_Z r)%Q) by (rewrite <- (Zlt_Qlt 0); lia);
         destruct c ];
      cbn [shr_record_of_loc shr_m shr_r shr_s]; fold P.
    - apply (Qmult_inj_r _ _ (inject_Z m2)); [lra |]. rewrite Hx.
      change (inject_Z 0) with 0%Q. ring.
    - apply Z.compare_eq in Hc.
      assert (HQ : (2 * inject_Z r == inject_Z m2)%Q).
      { rewrite <- Hc, inject_Z_mult. reflexivity. }
      apply (Qmult_inj_r _ _ (inject_Z m2)); [lra |]. rewrite Hx.
      rewrite <- HQ. ring.
    - rewrite Z.compare_lt_iff in Hc.
      assert (HQ : (2 * inject_Z r < inject_Z m2)%Q).
      { change 2%Q with (inject_Z 2). rewrite <- inject_Z_mult, <- Zlt_Qlt. exact Hc. }
      split; apply (Qmult_lt_r _ _ (inject_Z m2) HM); rewrite Hx; nra.
    - rewrite Z.compare_gt_iff in Hc.
      assert (HQ : (inject_Z m2 < 2 * inject_Z r)%Q).
      { change 2%Q with (inject_Z 2). rewrite <- inject_Z_mult, <- Zlt_Qlt. exact Hc. }
      assert (HQ2 : (inject_Z r < inject_Z m2)%Q) by (rewrite <- Zlt_Qlt; lia).
      split; apply (Qmult_lt_r _ _ (inject_Z m2) HM); rewrite Hx; nra. }
  unfold new_location. destruct (Z.even m2) eqn:Hev.
  - unfold new_location_even. apply Hcmp. reflexivity.
  - unfold new_location_odd.
    assert (Hodd : 2 * r <> m2).
    { intros E. rewrite <- E, Z.even_mul in Hev. discriminate. }
    destruct (Z.compare_spec (2 * r + 1) m2) as [E | L | G].
    + apply Hcmp. apply Z.compare_lt_iff. lia.
    + apply Hcmp. apply Z.compare_lt_iff. lia.
    + apply Hcmp. apply Z.compare_gt_iff. lia.
Qed.


Lemma half_ulp_relative (m d e : Z) (x : Q) :
  0 < d -> 2 ^ (d - 1) <= m ->
  (inject_Z m * 2 ^ e <= x)%Q ->
  ((1 # 2) * 2 ^ (d + e - prec) <= x * 2 ^ (- prec))%Q.
Proof.
  intros Hd Hm Hx.
  assert (H1 : (2 ^ (d + e - prec) == 2 * (2 ^ (d - 1) * 2 ^ e * 2 ^ (- prec)))%Q).
  { replace (d + e - prec) with (d - 1 + e + - prec + 1) by lia.
    rewrite Q2_succ, !Q2_add. reflexivity. }
  assert (H2 : (2 ^ (d - 1) <= inject_Z m)%Q).
  { rewrite <- Q2_inject by lia. rewrite <- Zle_Qle. exact Hm. }
  pose proof (Q2_pos e) as He. pose proof (Q2_pos (- prec)) as Hp.
  pose proof (Q2_pos (d - 1)) as Hd1.
  rewrite H1.
  assert (H3 : (2 ^ (d - 1) * 2 ^ e <= x)%Q) by nra.
  nra.
Qed.

Lemma SFdiv_spec (sx sy : bool) (m1 m2 : positive) (e1 e2 : Z) (x : Q) :
  let D := Zdigits2 (Zpos m1) + e1 - (Zdigits2 (Zpos m2) + e2) in
  emin prec emax <= D - prec ->
  D + 1 < emax ->
  (x * (inject_Z (Zpos m2) * 2 ^ e2) == inject_Z (Zpos m1) * 2 ^ e1)%Q ->
  exists (m' : positive) (e' : Z),
    SFdiv prec emax (S754_finite sx m1 e1) (S754_finite sy m2 e2)
      = S754_finite (xorb sx sy) m' e' /\
    2 ^ (prec - 1) <= Zpos m' < 2 ^ prec /\
    D <= prec + e' <= D + 2 /\
    (- (x * 2 ^ (- prec)) <= inject_Z (Zpos m') * 2 ^ e' - x
       <= x * 2 ^ (- prec))%Q.
Proof.
  intros D Hmin Hmax Hx.
  pose proof (Zdigits2_bounds (Zpos m1) eq_refl) as Hb1.
  pose proof (Zdigits2_bounds (Zpos m2) eq_refl) as Hb2.
  assert (Hd1 : 0 < Zdigits2 (Zpos m1)) by (cbn; lia).
  assert (Hd2 : 0 < Zdigits2 (Zpos m2)) by (cbn; lia).
  unfold SFdiv, SFdiv_core_binary.
  set (d1 := Zdigits2 (Zpos m1)) in *. set (d2 := Zdigits2 (Zpos m2)) in *.
  fold D. rewrite (fexp_normal D Hmin).
  set (e' := Z.min (D - prec) (e1 - e2)).
  set (s := e1 - e2 - e').
  assert (Hs : 0 <= s) by (unfold s, e'; lia).
  set (m' := match s with
             | 0 => Zpos m1
             | Zpos _ => Z.shiftl (Zpos m1) s
             | Zneg _ => 0
             end).
  assert (Hm' : m' = Zpos m1 * 2 ^ s).
  { unfold m'. destruct s as [| p | p]; try lia.
    apply Z.shiftl_mul_pow2. lia. }
  clearbody m'.
  pose proof (Z_div_mod m' (Zpos m2) eq_refl) as Hdm.
  destruct (Z.div_eucl m' (Zpos m2)) as [q r]. destruct Hdm as (Hq & Hr).
  (* the quotient has between K+1 and K+2 digits *)
  set (K := D - 1 - e').
  assert (HK : prec - 1 <= K) by (unfold K, e'; lia).
  assert (Hs2 : 0 < 2 ^ s) by (apply Z.pow_pos_nonneg; lia).
  assert (HK2 : 0 < 2 ^ K) by (apply Z.pow_pos_nonneg; lia).
  assert (E1 : 2 ^ (d1 - 1) * 2 ^ s = 2 ^ K * 2 ^ d2).
  { rewrite <- !Z.pow_add_r by lia. f_equal. unfold K, s, D. lia. }
  assert (E2 : 2 ^ d1 * 2 ^ s = 2 ^ (K + 2) * 2 ^ (d2 - 1)).
  { rewrite <- !Z.pow_add_r by lia. f_equal. unfold K, s, D. lia. }
  assert (Hq1 : 2 ^ K <= q) by nia.
  assert (HK3 : 0 < 2 ^ (d2 - 1)) by (apply Z.pow_pos_nonneg; lia).
  assert (Hq2 : q < 2 ^ (K + 2)) by nia.
  assert (Hqpos : 0 < q) by lia.
  pose proof (Zdigits2_bounds q Hqpos) as Hbq.
  assert (Hdq : K + 1 <= Zdigits2 q <= K + 2).
  { split.
    - assert (K < Zdigits2 q); [| lia].
      apply (Z.pow_lt_mono_r_iff 2); [lia | | lia].
      rewrite (Zdigits2_log2 q Hqpos). pose proof (Z.log2_nonneg q). lia.
    - assert (Zdigits2 q - 1 < K + 2); [| lia].
      apply (Z.pow_lt_mono_r_iff 2); lia. }
  (* the location of the exact quotient *)
  assert (Hloc : located_at (shr_record_of_loc q (new_location (Zpos m2) r)) e' x).
  { apply new_location_located; [lia | exact Hr |].
    pose proof (Q2_pos e2) as Hp2.
    apply (Qmult_inj_r _ _ (2 ^ e2)%Q); [lra |].
    rewrite <- Qmult_assoc, Hx.
    rewrite <- inject_Z_mult, <- inject_Z_plus.
    replace (q * Zpos m2 + r) with m' by lia.
    rewrite Hm', inject_Z_mult, Q2_inject by exact Hs.
    rewrite <- !Qmult_assoc, <- !Q2_add.
    replace (s + (e' + e2)) with e1 by (unfold s; lia). reflexivity. }
  destruct (binary_round_aux_spec (xorb sx sy) q e' (new_location (Zpos m2) r) x)
    as (mr & er & Hres & Hmr & Her & Herr & _).
  - exact Hqpos.
  - exact Hloc.
  - unfold K, e' in *. lia.
  - unfold K in *. lia.
  - unfold K in *. lia.
  - exists mr, er. split; [exact Hres | split; [exact Hmr | split]].
    + unfold K in *. lia.
    + destruct (located_bounds _ _ _ _ Hloc) as (Hlow & _).
      assert (Hdq0 : 0 < Zdigits2 q) by lia.
      pose proof (half_ulp_relative q (Zdigits2 q) e' x Hdq0 (proj1 Hbq) Hlow).
      lra.
Qed.

Lemma binary_round_relative (s : bool) (m : positive) (e : Z) :
  let d := Zdigits2 (Zpos m) in
  let x := (inject_Z (Zpos m) * 2 ^ e)%Q in
  emin prec emax <= d + e - prec ->
  d + e < emax ->
  exists (m' : positive) (e' : Z),
    binary_round prec emax s m e = S754_finite s m' e' /\
    2 ^ (prec - 1) <= Zpos m' < 2 ^ prec /\
    d + e <= prec + e' <= d + e + 1 /\
    (- (x * 2 ^ (- prec)) <= inject_Z (Zpos m') * 2 ^ e' - x
       <= x * 2 ^ (- prec))%Q /\
    (d <= prec -> (inject_Z (Zpos m') * 2 ^ e' == x)%Q).
Proof.
  intros d x Hmin Hmax.
  destruct (binary_round_spec s m e Hmin Hmax) as (m' & e' & Hr & Hm' & He' & Herr & Hex).
  exists m', e'. split; [exact Hr | split; [exact Hm' | split; [exact He' | split]]].
  - pose proof (Zdigits2_bounds (Zpos m) eq_refl) as Hb.
    assert (Hd : 0 < d) by (unfold d; cbn; lia).
    pose proof (half_ulp_relative (Zpos m) d e x Hd (proj1 Hb)) as Hh.
    fold d in Herr. fold x in Herr.
    assert (Hxx : (x <= x)%Q) by lra. specialize (Hh Hxx). lra.
  - exact Hex.
Qed.

Lemma SFmul_spec (sx sy : bool) (m1 m2 : positive) (e1 e2 : Z) :
  let x := ((inject_Z (Zpos m1) * 2 ^ e1) * (inject_Z (Zpos m2) * 2 ^ e2))%Q in
  let M := Zdigits2 (Zpos m1) + e1 + (Zdigits2 (Zpos m2) + e2) in
  prec <= Zdigits2 (Zpos m1) -> prec <= Zdigits2 (Zpos m2) ->
  emin prec emax <= M - 1 - prec ->
  M < emax ->
  exists (m' : positive) (e' : Z),
    SFmul prec emax (S754_finite sx m1 e1) (S754_finite sy m2 e2)
      = S754_finite (xorb sx sy) m' e' /\
    2 ^ (prec - 1) <= Zpos m' < 2 ^ prec /\
    M - 1 <= prec + e' <= M + 1 /\
    (- (x * 2 ^ (- prec)) <= inject_Z (Zpos m') * 2 ^ e' - x
       <= x * 2 ^ (- prec))%Q.
Proof.
  intros x M Hp1 Hp2 Hmin Hmax.
  pose proof (Zdigits2_bounds (Zpos m1) eq_refl) as Hb1.
  pose proof (Zdigits2_bounds (Zpos m2) eq_refl) as Hb2.
  set (d1 := Zdigits2 (Zpos m1)) in *. set (d2 := Zdigits2 (Zpos m2)) in *.
  assert (P1 : 0 < 2 ^ (d1 - 1)) by (apply Z.pow_pos_nonneg; lia).
  assert (P2 : 0 < 2 ^ (d2 - 1)) by (apply Z.pow_pos_nonneg; lia).
  assert (S1 : 2 ^ d1 = 2 * 2 ^ (d1 - 1)).
  { rewrite <- Z.pow_succ_r by lia. f_equal. lia. }
  assert (S2 : 2 ^ d2 = 2 * 2 ^ (d2 - 1)).
  { rewrite <- Z.pow_succ_r by lia. f_equal. lia. }
  assert (Hlow : 2 ^ (d1 + d2 - 1 - 1) <= Zpos m1 * Zpos m2).
  { replace (d1 + d2 - 1 - 1) with (d1 - 1 + (d2 - 1)) by lia.
    rewrite Z.pow_add_r by lia. nia. }
  assert (Hhigh : Zpos m1 * Zpos m2 < 2 ^ (d1 + d2)).
  { rewrite Z.pow_add_r by lia. nia. }
  pose proof (Zdigits2_bounds (Zpos m1 * Zpos m2) ltac:(lia)) as Hbm.
  set (dm := Zdigits2 (Zpos m1 * Zpos m2)) in *.
  assert (Hdm : d1 + d2 - 1 <= dm <= d1 + d2).
  { split.
    - assert (d1 + d2 - 1 - 1 < dm); [| lia].
      apply (Z.pow_lt_mono_r_iff 2); [lia | | lia].
      unfold dm. rewrite Zdigits2_log2 by lia.
      pose proof (Z.log2_nonneg (Zpos m1 * Zpos m2)). lia.
    - assert (dm - 1 < d1 + d2); [| lia].
      apply (Z.pow_lt_mono_r_iff 2); lia. }
  unfold SFmul. rewrite Pos2Z.inj_mul.
  assert (Hloc : located_at (shr_record_of_loc (Zpos m1 * Zpos m2) loc_Exact)
                            (e1 + e2) x).
  { unfold located_at. cbn [shr_record_of_loc shr_m shr_r shr_s].
    unfold x. rewrite inject_Z_mult, Q2_add. ring. }
  destruct (binary_round_aux_spec (xorb sx sy)
              (Zpos m1 * Zpos m2) (e1 + e2) loc_Exact x)
    as (mr & er & Hres & Hmr & Her & Herr & _); fold dm.
  - lia.
  - exact Hloc.
  - lia.
  - unfold M in *. lia.
  - unfold M in *. lia.
  - fold dm in Her, Herr.
    exists mr, er. split; [exact Hres | split; [exact Hmr | split]].
    + unfold M in *. lia.
    + destruct (located_bounds _ _ _ _ Hloc) as (Hlo & _).
      assert (Hdm0 : 0 < dm) by lia.
      pose proof (half_ulp_relative _ dm (e1 + e2) x Hdm0 (proj1 Hbm) Hlo).
      lra.
Qed.

End Round.

Lemma normal_in_pos (prec : Z) (f : spec_float) (lo hi : Z) (v : Q) :
  normal_in prec f lo hi v -> (0 < v)%Q.
Proof.
  intros (m & e & _ & _ & _ & Hv). rewrite Hv.
  pose proof (Q2_pos e).
  assert ((0 < inject_Z (Zpos m))%Q) by (rewrite <- (Zlt_Qlt 0); lia).
  nra.
Qed.

Lemma normal_in_SF2Q (prec : Z) (f : spec_float) (lo hi : Z) (v : Q) :
  normal_in prec f lo hi v -> is_finite f = true /\ (SF2Q f == v)%Q.
Proof.
  intros (m & e & -> & _ & _ & Hv). split; [reflexivity |].
  rewrite SF2Q_finite, Hv. reflexivity.
Qed.

Lemma normal_in_digits (prec : Z) (m : positive) :
  0 < prec -> 2 ^ (prec - 1) <= Zpos m < 2 ^ prec -> Zdigits2 (Zpos m) = prec.
Proof. intros Hp Hb. apply Zdigits2_unique; [lia | exact Hb]. Qed.

Lemma f64_of_Z_normal (n : Z) :
  0 < n < 2 ^ 53 ->
  normal_in 53 (f64_of_Z n) (Zdigits2 n) (Zdigits2 n + 1) (inject_Z n).
Proof.
  intros Hn. destruct n as [| p | p]; try lia.
  unfold f64_of_Z, binary_normalize.
  pose proof (Zdigits2_bounds (Zpos p) eq_refl) as Hb.
  assert (Hd : 0 < Zdigits2 (Zpos p) <= 53).
  { split; [cbn; lia |].
    assert (Zdigits2 (Zpos p) - 1 < 53); [| lia].
    apply (Z.pow_lt_mono_r_iff 2); lia. }
  destruct (binary_round_relative prec64 emax64 eq_refl false p 0)
    as (m' & e' & Hr & Hm' & He' & _ & Hex).
  - unfold emin, prec64, emax64. lia.
  - unfold emax64. lia.
  - exists m', e'. split; [exact Hr | split; [exact Hm' | split]].
    + unfold prec64 in He'. lia.
    + rewrite Hex by (unfold prec64; lia).
      change (2 ^ 0)%Q with 1%Q. ring.
Qed.

Lemma f64_div_normal (a b : float64) (lo1 hi1 lo2 hi2 : Z) (va vb : Q) :
  normal_in 53 a lo1 hi1 va ->
  normal_in 53 b lo2 hi2 vb ->
  -1021 <= lo1 - hi2 -> hi1 - lo2 < 1023 ->
  exists v : Q,
    normal_in 53 (f64_div a b) (lo1 - hi2) (hi1 - lo2 + 2) v /\
    (- (va / vb * 2 ^ (-53)) <= v - va / vb <= va / vb * 2 ^ (-53))%Q.
Proof.
  intros Ha Hb Hlo Hhi.
  pose proof (normal_in_pos _ _ _ _ _ Hb) as Hvb.
  destruct Ha as (m1 & e1 & -> & Hm1 & He1 & Hva).
  destruct Hb as (m2 & e2 & -> & Hm2 & He2 & Hvb').
  pose proof (normal_in_digits 53 m1 eq_refl Hm1) as Hd1.
  pose proof (normal_in_digits 53 m2 eq_refl Hm2) as Hd2.
  destruct (SFdiv_spec prec64 emax64 eq_refl false false m1 m2 e1 e2 (va / vb))
    as (m' & e' & Hr & Hm' & He' & Herr).
  - rewrite Hd1, Hd2. unfold emin, prec64, emax64. lia.
  - rewrite Hd1, Hd2. unfold emax64. lia.
  - rewrite <- Hva, <- Hvb'. field. lra.
  - rewrite Hd1, Hd2 in He'. unfold prec64 in *.
    exists (inject_Z (Zpos m') * 2 ^ e')%Q. split; [| exact Herr].
    exists m', e'. split; [exact Hr | split; [exact Hm' | split; [lia | reflexivity]]].
Qed.

Lemma f32_of_f64_normal (a : float64) (lo hi : Z) (va : Q) :
  normal_in 53 a lo hi va ->
  -125 <= lo -> hi < 128 ->
  exists v : Q,
    normal_in 24 (f32_of_f64 a) lo (hi + 1) v /\
    (- (va * 2 ^ (-24)) <= v - va <= va * 2 ^ (-24))%Q.
Proof.
  intros (m & e & -> & Hm & He & Hva) Hlo Hhi.
  pose proof (normal_in_digits 53 m eq_refl Hm) as Hd.
  unfold f32_of_f64.
  destruct (binary_round_relative prec32 emax32 eq_refl false m e)
    as (m' & e' & Hr & Hm' & He' & Herr & _).
  - rewrite Hd. unfold emin, prec32, emax32. lia.
  - rewrite Hd. unfold emax32. lia.
  - rewrite Hd in He'. unfold prec32 in *.
    exists (inject_Z (Zpos m') * 2 ^ e')%Q. split.
    + exists m', e'. split; [exact Hr | split; [exact Hm' | split; [lia | reflexivity]]].
    + rewrite Hva. exact Herr.
Qed.

Lemma f64_of_f32_normal (a : float32) (lo hi : Z) (va : Q) :
  normal_in 24 a lo hi va ->
  -1021 <= lo -> hi < 1024 ->
  normal_in 53 (f64_of_f32 a) lo (hi + 1) va.
Proof.
  intros (m & e & -> & Hm & He & Hva) Hlo Hhi.
  pose proof (normal_in_digits 24 m eq_refl Hm) as Hd.
  unfold f64_of_f32.
  destruct (binary_round_relative prec64 emax64 eq_refl false m e)
    as (m' & e' & Hr & Hm' & He' & _ & Hex).
  - rewrite Hd. unfold emin, prec64, emax64. lia.
  - rewrite Hd. unfold emax64. lia.
  - rewrite Hd in He'. unfold prec64 in *.
    exists m', e'. split; [exact Hr | split; [exact Hm' | split; [lia |]]].
    rewrite Hva. symmetry. apply Hex. rewrite Hd. lia.
Qed.

Lemma f32_div_normal (a b : float32) (lo1 hi1 lo2 hi2 : Z) (va vb : Q) :
  normal_in 24 a lo1 hi1 va ->
  normal_in 24 b lo2 hi2 vb ->
  -125 <= lo1 - hi2 -> hi1 - lo2 < 127 ->
  exists v : Q,
    normal_in 24 (f32_div a b) (lo1 - hi2) (hi1 - lo2 + 2) v /\
    (- (va / vb * 2 ^ (-24)) <= v - va / vb <= va / vb * 2 ^ (-24))%Q.
Proof.
  intros Ha Hb Hlo Hhi.
  pose proof (normal_in_pos _ _ _ _ _ Hb) as Hvb.
  destruct Ha as (m1 & e1 & -> & Hm1 & He1 & Hva).
  destruct Hb as (m2 & e2 & -> & Hm2 & He2 & Hvb').
  pose proof (normal_in_digits 24 m1 eq_refl Hm1) as Hd1.
  pose proof (normal_in_digits 24 m2 eq_refl Hm2) as Hd2.
  destruct (SFdiv_spec prec32 emax32 eq_refl false false m1 m2 e1 e2 (va / vb))
    as (m' & e' & Hr & Hm' & He' & Herr).
  - rewrite Hd1, Hd2. unfold emin, prec32, emax32. lia.
  - rewrite Hd1, Hd2. unfold emax32. lia.
  - rewrite <- Hva, <- Hvb'. field. lra.
  - rewrite Hd1, Hd2 in He'. unfold prec32 in *.
    exists (inject_Z (Zpos m') * 2 ^ e')%Q. split; [| exact Herr].
    exists m', e'. split; [exact Hr | split; [exact Hm' | split; [lia | reflexivity]]].
Qed.

Lemma f32_mul_normal (a b : float32) (lo1 hi1 lo2 hi2 : Z) (va vb : Q) :
  normal_in 24 a lo1 hi1 va ->
  normal_in 24 b lo2 hi2 vb ->
  -124 <= lo1 + lo2 -> hi1 + hi2 < 128 ->
  exists v : Q,
    normal_in 24 (f32_mul a b) (lo1 + lo2 - 1) (hi1 + hi2 + 1) v /\
    (- (va * vb * 2 ^ (-24)) <= v - va * vb <= va * vb * 2 ^ (-24))%Q.
Proof.
  intros Ha Hb Hlo Hhi.
  destruct Ha as (m1 & e1 & -> & Hm1 & He1 & Hva).
  destruct Hb as (m2 & e2 & -> & Hm2 & He2 & Hvb).
  pose proof (normal_in_digits 24 m1 eq_refl Hm1) as Hd1.
  pose proof (normal_in_digits 24 m2 eq_refl Hm2) as Hd2.
  destruct (SFmul_spec prec32 emax32 eq_refl false false m1 m2 e1 e2)
    as (m' & e' & Hr & Hm' & He' & Herr).
  - rewrite Hd1. unfold prec32. lia.
  - rewrite Hd2. unfold prec32. lia.
  - rewrite Hd1, Hd2. unfold emin, prec32, emax32. lia.
  - rewrite Hd1, Hd2. unfold emax32. lia.
  - rewrite Hd1, Hd2 in He'. unfold prec32 in *.
    exists (inject_Z (Zpos m') * 2 ^ e')%Q. split.
    + exists m', e'. split; [exact Hr | split; [exact Hm' | split; [lia | reflexivity]]].
    + rewrite Hva, Hvb. exact Herr.
Qed.

Lemma normal_in_weaken (prec : Z) (f : spec_float) (lo hi lo' hi' : Z) (v : Q) :
  normal_in prec f lo hi v -> lo' <= lo -> hi <= hi' ->
  normal_in prec f lo' hi' v.
Proof.
  intros (m & e & Hf & Hm & He & Hv) Hlo Hhi.
  exists m, e. repeat split; try assumption; lia.
Qed.

Lemma rpm_of_elapsed_tolerance (ms : Z) :
  0 < ms < 4294967296 ->
  let X := (60 / (inject_Z ms / 1000))%Q in
  is_finite (rpm_of_elapsed ms) = true /\
  (0 < SF2Q (rpm_of_elapsed ms))%Q /\
  (- (X * (1 # 4194304)) <= SF2Q (rpm_of_elapsed ms) - X
     <= X * (1 # 4194304))%Q.
Proof.
  intros Hms X.
  assert (Hd : 1 <= Zdigits2 ms <= 32).
  { pose proof (Zdigits2_bounds ms (proj1 Hms)) as Hb.
    rewrite (Zdigits2_log2 ms (proj1 Hms)) in *.
    pose proof (Z.log2_nonneg ms). split; [lia |].
    assert (Z.log2 ms + 1 - 1 < 32); [| lia].
    apply (Z.pow_lt_mono_r_iff 2); [lia | lia |]. change (2 ^ 32) with 4294967296. lia. }
  assert (Ha : normal_in 53 (f64_of_Z ms) 1 33 (inject_Z ms)).
  { apply (normal_in_weaken 53 _ (Zdigits2 ms) (Zdigits2 ms + 1));
      [apply f64_of_Z_normal | |]; change (2 ^ 53) with 9007199254740992; lia. }
  assert (Hb : normal_in 53 (f64_of_Z 1000) 10 11 1000).
  { apply (f64_of_Z_normal 1000). split; reflexivity. }
  assert (Hc : normal_in 53 (f64_of_Z 60) 6 7 60).
  { apply (f64_of_Z_normal 60). split; reflexivity. }
  destruct (f64_div_normal _ _ _ _ _ _ _ _ Ha Hb) as (v1 & N1 & E1); [lia | lia |].
  destruct (f32_of_f64_normal _ _ _ _ N1) as (v2 & N2 & E2); [lia | lia |].
  pose proof (f64_of_f32_normal _ _ _ _ N2) as N2'.
  specialize (N2' ltac:(lia) ltac:(lia)).
  destruct (f64_div_normal _ _ _ _ _ _ _ _ Hc N2') as (v3 & N3 & E3); [lia | lia |].
  destruct (f32_of_f64_normal _ _ _ _ N3) as (v4 & N4 & E4); [lia | lia |].
  destruct (normal_in_SF2Q _ _ _ _ _ N4) as (Hfin & Hval).
  pose proof (normal_in_pos _ _ _ _ _ N2) as P2.
  pose proof (normal_in_pos _ _ _ _ _ N4) as P4.
  unfold rpm_of_elapsed. cbv zeta.
  split; [exact Hfin | split; [rewrite Hval; exact P4 |]].
  rewrite Hval. clear Hval Hfin N1 N2 N2' N3 N4 Ha Hb Hc.
  assert (Hx1 : (0 < inject_Z ms)%Q) by (rewrite <- (Zlt_Qlt 0); lia).
  set (x1 := (inject_Z ms / 1000)%Q) in *.
  assert (Px1 : (0 < x1)%Q).
  { unfold x1. apply Qlt_shift_div_l; lra. }
  set (x3 := (60 / v2)%Q) in *.
  assert (Hx3 : (x3 * v2 == 60)%Q) by (unfold x3; field; lra).
  assert (Px3 : (0 < x3)%Q).
  { unfold x3. apply Qlt_shift_div_l; lra. }
  assert (HX : (X * x1 == 60)%Q) by (unfold X; field; lra).
  assert (PX : (0 < X)%Q).
  { unfold X. apply Qlt_shift_div_l; lra. }
  assert (e53 : (2 ^ (-53) == 1 # 9007199254740992)%Q) by reflexivity.
  assert (e24 : (2 ^ (-24) == 1 # 16777216)%Q) by reflexivity.
  rewrite e53 in E1, E3. rewrite e24 in E2, E4.
  clearbody x1 x3 X. clear Hd Hms Hx1.
  (* v2 against x1, v4 against x3 *)
  assert (L2 : ((16777215 # 16777216) * (9007199254740991 # 9007199254740992) * x1 <= v2)%Q) by nra.
  assert (U2 : (v2 <= (16777217 # 16777216) * (9007199254740993 # 9007199254740992) * x1)%Q) by nra.
  assert (L4 : ((16777215 # 16777216) * (9007199254740991 # 9007199254740992) * x3 <= v4)%Q) by nra.
  assert (U4 : (v4 <= (16777217 # 16777216) * (9007199254740993 # 9007199254740992) * x3)%Q) by nra.
  clear E1 E2 E3 E4.
  set (A := ((16777215 # 16777216) * (9007199254740991 # 9007199254740992))%Q) in *.
  set (B := ((16777217 # 16777216) * (9007199254740993 # 9007199254740992))%Q) in *.
  assert (PA : (0 < A)%Q) by reflexivity.
  assert (PB : (0 < B)%Q) by reflexivity.
  (* products with the exact quantities *)
  assert (U : (v4 * x1 * A <= 60 * B)%Q).
  { assert (H1 : (v4 * (A * x1) <= v4 * v2)%Q) by (apply Qmult_le_l; lra).
    assert (H2 : (v4 * v2 <= B * x3 * v2)%Q) by (apply Qmult_le_r; lra).
    assert (H3 : (B * x3 * v2 == 60 * B)%Q) by (rewrite <- Hx3; ring).
    lra. }
  assert (L : (60 * A <= v4 * x1 * B)%Q).
  { assert (H1 : (v4 * v2 <= v4 * (B * x1))%Q) by (apply Qmult_le_l; lra).
    assert (H2 : (A * x3 * v2 <= v4 * v2)%Q) by (apply Qmult_le_r; lra).
    assert (H3 : (A * x3 * v2 == 60 * A)%Q) by (rewrite <- Hx3; ring).
    lra. }
  assert (G : ((1 - (1 # 4194304)) * 60 <= v4 * x1 <= (1 + (1 # 4194304)) * 60)%Q).
  { unfold A, B in *. split; lra. }
  split; apply (Qmult_le_r _ _ x1 Px1); nra.
Qed.

(** ** The speed estimator *)

Section Calculate_speed.

Variable now : Z.
Variable st : state.

Lemma calculate_speed_idle :
  pulse_count st < PULSES_PER_REV -> calculate_speed now st = (tt, st).
Proof.
  intros H. unfold calculate_speed. prog_simpl.
  destruct (Z.leb_spec PULSES_PER_REV (pulse_count st)) as [Hge | _].
  - lia.
  - reflexivity.
Qed.

Lemma calculate_speed_sample :
  PULSES_PER_REV <= pulse_count st ->
  let v := f32_of_f64 (f64_div (f64_of_Z 60)
             (f64_of_f32 (f32_of_f64
                (f64_div (f64_of_Z (elapsed_ms now st)) (f64_of_Z 1000))))) in
  exec (calculate_speed now) st =
    mkState 0 (u32 now) v (cruise_control_active st) (current_duty_cycle st)
            (last_pot_value st) (last_button_state st)
            (log st ++ [Printf_speed v] ++ [Sleep_ms 1000]).
Proof.
  intros H v. unfold calculate_speed. prog_simpl.
  destruct (Z.leb_spec PULSES_PER_REV (pulse_count st)) as [_ | Hlt].
  - prog_simpl. rewrite <- app_assoc. reflexivity.
  - lia.
Qed.

(** Whatever the pulse count, [calculate_speed] leaves the other
    globals alone. *)
Lemma calculate_speed_frame :
  let st' := exec (calculate_speed now) st in
  cruise_control_active st' = cruise_control_active st /\
  current_duty_cycle st' = current_duty_cycle st /\
  last_pot_value st' = last_pot_value st /\
  last_button_state st' = last_button_state st.
Proof.
  unfold calculate_speed. prog_simpl.
  destruct (PULSES_PER_REV <=? pulse_count st); prog_simpl; auto.
Qed.

End Calculate_speed.

(** C4.  With fewer than PULSES_PER_REV pulses counted, [calculate_speed]
    changes nothing: the state after the call is the state before it, so
    [speed], [last_pulse_time] and [pulse_count] keep their values, and
    nothing is printed (no new sample is reported). *)
Theorem calculate_speed_below_threshold (now : Z) (st : state) :
  pulse_count st < PULSES_PER_REV ->
  exec (calculate_speed now) st = st /\
  speed (exec (calculate_speed now) st) = speed st /\
  last_pulse_time (exec (calculate_speed now) st) = last_pulse_time st /\
  pulse_count (exec (calculate_speed now) st) = pulse_count st /\
  log (exec (calculate_speed now) st) = log st.
Proof.
  intros H.
  assert (E : exec (calculate_speed now) st = st).
  { unfold exec. rewrite calculate_speed_idle by exact H. reflexivity. }
  rewrite E. repeat split.
Qed.

Lemma calculate_speed_below_threshold_witness :
  let st := mkState 2 1000 (f32_of_Z 40) true 120 (f32_of_Z 3) true [] in
  exec (calculate_speed 2500) st = st /\
  speed (exec (calculate_speed 2500) st) = speed st /\
  last_pulse_time (exec (calculate_speed 2500) st) = last_pulse_time st /\
  pulse_count (exec (calculate_speed 2500) st) = pulse_count st /\
  log (exec (calculate_speed 2500) st) = log st.
Proof.
  intros st. apply (calculate_speed_below_threshold 2500 st).
  vm_compute. reflexivity.
Defined.

(** ** The potentiometer reader *)

Lemma read_potentiometer_value (raw : Z) (st : state) :
  eval (read_potentiometer raw) st =
    if in_dead_zone (pot_scale (u16 raw)) then S754_zero false
    else pot_scale (u16 raw).
Proof. reflexivity. Qed.

Lemma read_potentiometer_state (raw : Z) (st : state) :
  exec (read_potentiometer raw) st =
    mkState (pulse_count st) (last_pulse_time st) (speed st)
            (cruise_control_active st) (current_duty_cycle st)
            (last_pot_value st) (last_button_state st)
            (log st ++ [Printf_pot (eval (read_potentiometer raw) st)]
                    ++ [Sleep_ms 1000]).
Proof.
  unfold read_potentiometer. prog_simpl. rewrite <- app_assoc. reflexivity.
Qed.

Lemma adc_range_spec (raw : Z) : 0 <= raw <= 4095 -> In raw adc_range.
Proof.
  intros H. unfold adc_range. apply in_map_iff.
  exists (Z.to_nat raw). split.
  - apply Z2Nat.id. lia.
  - apply in_seq. lia.
Qed.

(** Every sample of the converter, checked by evaluation. *)
Lemma adc_range_checked :
  forallb (fun raw =>
             pot_reading_ok raw (eval (read_potentiometer raw) initial_state)
             && Bool.eqb (in_dead_zone (pot_scale raw))
                         (negb (Qle_bool (1 # 5) (pot_exact raw))))
          adc_range = true.
Proof. vm_compute. reflexivity. Qed.

(** C7.  The reader returns exactly +0 when the scaled float is inside the
    dead zone and the scaled float otherwise.  For a raw sample of the
    converter (0..4095) the dead-zone test on the float agrees with the
    exact comparison raw / 4095 * 20 < 0.2, so the reader returns +0 for
    every sample whose scaled value is strictly below 0.2, and for every
    other sample the scaled float, which lies in [0, 20] and within 2^-20
    of the exact linear scaling. *)
Theorem read_potentiometer_dead_zone_and_scaling (raw : Z) (st : state) :
  let r := eval (read_potentiometer raw) st in
  (in_dead_zone (pot_scale (u16 raw)) = true -> r = S754_zero false) /\
  (in_dead_zone (pot_scale (u16 raw)) = false -> r = pot_scale (u16 raw)) /\
  (0 <= raw <= 4095 ->
   (in_dead_zone (pot_scale raw) = true <-> (pot_exact raw < 1 # 5)%Q) /\
   ((pot_exact raw < 1 # 5)%Q -> r = S754_zero false) /\
   (~ (pot_exact raw < 1 # 5)%Q ->
      r = pot_scale raw /\
      (0 <= SF2Q r)%Q /\ (SF2Q r <= inject_Z TARGET_SPEED)%Q /\
      (SF2Q r - pot_exact raw <= 1 # 1048576)%Q /\
      (pot_exact raw - SF2Q r <= 1 # 1048576)%Q)).
Proof.
  intros r.
  assert (Hgen : r = if in_dead_zone (pot_scale (u16 raw)) then S754_zero false
                     else pot_scale (u16 raw)).
  { subst r. apply read_potentiometer_value. }
  split; [intros H; rewrite Hgen, H; reflexivity |].
  split; [intros H; rewrite Hgen, H; reflexivity |].
  intros Hraw.
  pose proof adc_range_checked as Hall.
  rewrite forallb_forall in Hall.
  specialize (Hall raw (adc_range_spec raw Hraw)).
  apply andb_true_iff in Hall. destruct Hall as [Hok Hdz].
  apply Bool.eqb_prop in Hdz.
  assert (Hr : r = eval (read_potentiometer raw) initial_state) by reflexivity.
  assert (Hu : u16 raw = raw) by (unfold u16; apply Z.mod_small; lia).
  assert (Hval : r = if in_dead_zone (pot_scale raw) then S754_zero false
                     else pot_scale raw).
  { rewrite Hgen, Hu. reflexivity. }
  rewrite <- Hr in Hok. unfold pot_reading_ok in Hok.
  destruct (Qle_bool (1 # 5) (pot_exact raw)) eqn:Hq.
  - (* outside the dead zone *)
    apply Qle_bool_iff in Hq. cbn in Hdz.
    split; [| split].
    + rewrite Hdz. split; [discriminate |].
      intros Hlt. exfalso. apply (Qlt_not_le _ _ Hlt). exact Hq.
    + intros Hlt. exfalso. apply (Qlt_not_le _ _ Hlt). exact Hq.
    + intros _. rewrite Hdz in Hval. split; [exact Hval |].
      clear Hgen. destruct r as [ | | | s m e]; try discriminate.
      destruct s; try discriminate.
      repeat (apply andb_true_iff in Hok; destruct Hok as [Hok ?]).
      repeat match goal with
             | H : Qle_bool _ _ = true |- _ => apply Qle_bool_iff in H
             end.
      repeat split; try assumption.
      apply Qle_trans with (1 # 5)%Q; [discriminate | assumption].
  - (* inside the dead zone *)
    assert (Hlt : (pot_exact raw < 1 # 5)%Q).
    { apply Qnot_le_lt. intros Hle. apply Qle_bool_iff in Hle. congruence. }
    cbn in Hdz. split; [| split].
    + rewrite Hdz. split; auto.
    + intros _. clear Hgen Hval.
      destruct r as [ [ | ] | | | ]; try discriminate. reflexivity.
    + intros Hn. contradiction.
Qed.

Lemma read_potentiometer_dead_zone_and_scaling_witness :
  let r := eval (read_potentiometer 2048) initial_state in
  r = pot_scale 2048 /\ (SF2Q r <= inject_Z TARGET_SPEED)%Q.
Proof.
  intros r.
  assert (Hraw : 0 <= 2048 <= 4095) by lia.
  assert (Hn : ~ (pot_exact 2048 < 1 # 5)%Q) by (vm_compute; discriminate).
  destruct (read_potentiometer_dead_zone_and_scaling 2048 initial_state)
    as (_ & _ & Hdev).
  destruct (Hdev Hraw) as (_ & _ & Hout).
  destruct (Hout Hn) as (H1 & _ & H3 & _).
  split; [exact H1 | exact H3].
Defined.

(** ** Sequencing *)

Lemma exec_bind {A B} (c : M A) (k : A -> M B) (st : state) :
  exec (bind c k) st = exec (k (eval c st)) (exec c st).
Proof. unfold exec, eval, bind. destruct (c st). reflexivity. Qed.

Lemma eval_bind {A B} (c : M A) (k : A -> M B) (st : state) :
  eval (bind c k) st = eval (k (eval c st)) (exec c st).
Proof. unfold exec, eval, bind. destruct (c st). reflexivity. Qed.

(** ** The motor command generator *)

Lemma target_duty_cycle_clamp (x : float32) :
  target_duty_cycle x =
    Z.max 0 (Z.min MOTOR_MAX_DUTY_CYCLE
      (float_to_int (f32_mul (f32_div x (f32_of_Z TARGET_SPEED))
                             (f32_of_Z MOTOR_MAX_DUTY_CYCLE)))).
Proof.
  unfold target_duty_cycle.
  set (p := float_to_int _). cbv zeta. unfold MOTOR_MAX_DUTY_CYCLE.
  rewrite Z.gtb_ltb.
  destruct (Z.ltb_spec 255 p) as [Hhi | Hhi].
  - cbn. lia.
  - destruct (Z.ltb_spec p 0) as [Hlo | Hlo].
    + cbn. lia.
    + destruct (Z.ltb_spec p 1); lia.
Qed.

Lemma target_duty_cycle_range (x : float32) :
  0 <= target_duty_cycle x <= MOTOR_MAX_DUTY_CYCLE.
Proof. rewrite target_duty_cycle_clamp. unfold MOTOR_MAX_DUTY_CYCLE. lia. Qed.

(** The slew limiter in closed form, for levels of the PWM range. *)
Lemma ramp_exec (target : Z) (st : state) :
  0 <= target <= MOTOR_MAX_DUTY_CYCLE ->
  duty_in_range st ->
  exec (ramp target) st =
    mkState (pulse_count st) (last_pulse_time st) (speed st)
      (cruise_control_active st)
      (if current_duty_cycle st <? target
       then Z.min (current_duty_cycle st + duty_cycle_step) target
       else Z.max (current_duty_cycle st - duty_cycle_step) target)
      (last_pot_value st) (last_button_state st) (log st).
Proof.
  unfold duty_in_range, MOTOR_MAX_DUTY_CYCLE, duty_cycle_step.
  intros Ht Hc. unfold ramp. prog_simpl. unfold duty_cycle_step.
  rewrite !Z.gtb_ltb.
  destruct (Z.ltb_spec (current_duty_cycle st) target) as [Hlt | Hge].
  - prog_simpl. rewrite i32_small by lia. rewrite ?Z.gtb_ltb.
    destruct (Z.ltb_spec target (current_duty_cycle st + 20));
      prog_simpl; f_equal; lia.
  - destruct (Z.ltb_spec target (current_duty_cycle st)) as [Hgt | Hle].
    + prog_simpl. rewrite i32_small by lia.
      destruct (Z.ltb_spec (current_duty_cycle st - 20) target);
        prog_simpl; f_equal; lia.
    + prog_simpl. destruct st; cbn in *. f_equal. lia.
Qed.

Lemma set_motor_speed_exec (x : float32) (st : state) :
  duty_in_range st ->
  let c' := current_duty_cycle (exec (ramp (target_duty_cycle x)) st) in
  exec (set_motor_speed x) st =
    mkState (pulse_count st) (last_pulse_time st) (speed st)
      (cruise_control_active st) c' (last_pot_value st)
      (last_button_state st)
      (log st ++ [Pwm_set_gpio_level MOTOR_PIN (u16 c'); Printf_pwm c';
                  Sleep_ms 1000]).
Proof.
  intros Hc c'. subst c'.
  unfold set_motor_speed. rewrite exec_bind.
  rewrite (ramp_exec _ st (target_duty_cycle_range x) Hc).
  prog_simpl. rewrite <- !app_assoc. reflexivity.
Qed.

(** One call: the level stays in the PWM range and moves by at most
    [duty_cycle_step], toward the target and never past it. *)
Lemma set_motor_speed_step (x : float32) (st : state) :
  duty_in_range st ->
  let c := current_duty_cycle st in
  let c' := current_duty_cycle (exec (set_motor_speed x) st) in
  let t := target_duty_cycle x in
  duty_in_range (exec (set_motor_speed x) st) /\
  Z.abs (c' - c) <= duty_cycle_step /\
  (c <= t -> c <= c' <= t) /\ (t <= c -> t <= c' <= c).
Proof.
  intros Hc. cbv zeta. unfold duty_in_range.
  rewrite (set_motor_speed_exec x st Hc). prog_fields.
  pose proof (target_duty_cycle_range x) as Ht.
  rewrite (ramp_exec _ st Ht Hc). prog_fields.
  unfold duty_in_range, MOTOR_MAX_DUTY_CYCLE, duty_cycle_step in *.
  destruct (Z.ltb_spec (current_duty_cycle st) (target_duty_cycle x)); lia.
Qed.

Lemma motor_calls_in_range (targets : list float32) (st : state) :
  duty_in_range st -> duty_in_range (motor_calls targets st).
Proof.
  revert st. induction targets as [| x rest IH]; intros st Hc; cbn.
  - exact Hc.
  - apply IH. apply (set_motor_speed_step x st Hc).
Qed.

(** The rest of the loop does not write [current_duty_cycle]. *)
Lemma sensor_callback_duty (st : state) :
  current_duty_cycle (exec sensor_callback st) = current_duty_cycle st.
Proof. reflexivity. Qed.

Lemma deliver_pulses_duty (n : nat) (st : state) :
  current_duty_cycle (exec (deliver_pulses n) st) = current_duty_cycle st.
Proof.
  revert st. induction n as [| n IH]; intros st; cbn [deliver_pulses].
  - reflexivity.
  - rewrite exec_bind, IH. apply sensor_callback_duty.
Qed.

Lemma main_button_duty (b : bool) (st : state) :
  current_duty_cycle (exec (main_button b) st) = current_duty_cycle st.
Proof.
  unfold main_button. prog_simpl.
  destruct (negb b && last_button_state st); reflexivity.
Qed.

Lemma main_pot_change_duty (v : float32) (st : state) :
  current_duty_cycle (exec (main_pot_change v) st) = current_duty_cycle st.
Proof.
  unfold main_pot_change. prog_simpl.
  destruct (cruise_control_active st && pot_changed v (last_pot_value st));
    reflexivity.
Qed.

Lemma main_motor_exec (v : float32) (st : state) :
  exec (main_motor v) st =
    exec (set_motor_speed (if cruise_control_active st then speed st else v)) st.
Proof.
  unfold main_motor, exec, bind, gets. cbn [fst snd].
  destruct (cruise_control_active st); reflexivity.
Qed.

(** The state in which a cycle reaches [main_motor]: same duty level as at
    the start of the cycle. *)
Lemma cycle_decompose (i : input) (st : state) :
  exists (x : float32) (st1 : state),
    current_duty_cycle st1 = current_duty_cycle st /\
    current_duty_cycle (exec (cycle i) st) =
      current_duty_cycle (exec (set_motor_speed x) st1).
Proof.
  unfold cycle, main_iteration.
  rewrite exec_bind. set (s0 := exec (deliver_pulses _) st).
  rewrite exec_bind. set (s1 := exec (calculate_speed _) s0).
  rewrite exec_bind. set (s2 := exec (main_button _) s1).
  rewrite exec_bind. set (v := eval (read_potentiometer _) s2).
  set (s3 := exec (read_potentiometer _) s2).
  rewrite exec_bind. set (s4 := exec (main_pot_change v) s3).
  rewrite exec_bind. rewrite main_motor_exec.
  assert (H4 : current_duty_cycle s4 = current_duty_cycle st).
  { subst s4. rewrite main_pot_change_duty.
    subst s3. rewrite read_potentiometer_state. prog_fields.
    subst s2. rewrite main_button_duty.
    subst s1. destruct (calculate_speed_frame (in_now i) s0) as (_ & -> & _).
    subst s0. apply deliver_pulses_duty. }
  exists (if cruise_control_active s4 then speed s4 else v), s4.
  split; [exact H4 | reflexivity].
Qed.

Lemma cycle_step (i : input) (st : state) :
  duty_in_range st ->
  duty_in_range (exec (cycle i) st) /\
  Z.abs (current_duty_cycle (exec (cycle i) st) - current_duty_cycle st)
    <= duty_cycle_step.
Proof.
  intros Hc.
  destruct (cycle_decompose i st) as (x & st1 & H1 & H2).
  assert (Hc1 : duty_in_range st1) by (unfold duty_in_range; rewrite H1; exact Hc).
  destruct (set_motor_speed_step x st1 Hc1) as (Hr & Hs & _).
  unfold duty_in_range in *. rewrite H2, <- H1. split; assumption.
Qed.

Lemma run_in_range (inputs : list input) (st : state) :
  duty_in_range st -> duty_in_range (run inputs st).
Proof.
  revert st. induction inputs as [| i rest IH]; intros st Hc; cbn.
  - exact Hc.
  - apply IH. apply (cycle_step i st Hc).
Qed.

Lemma initial_state_in_range : duty_in_range initial_state.
Proof. unfold duty_in_range, MOTOR_MAX_DUTY_CYCLE. cbn. lia. Qed.

(** C1.  [current_duty_cycle] stays in [0, 255] and moves by at most 20
    per call of [set_motor_speed], whatever target speeds are passed: after
    any sequence of calls from power-on, and after any number of cycles of
    the main loop on any inputs, the level is in range, and the next call
    (the next cycle) leaves it in range and at most 20 away. *)
Theorem duty_cycle_bounded_and_slew_limited
    (targets : list float32) (x : float32) (inputs : list input) (i : input) :
  (let st := motor_calls targets initial_state in
   let st' := exec (set_motor_speed x) st in
   0 <= current_duty_cycle st <= 255 /\
   0 <= current_duty_cycle st' <= 255 /\
   Z.abs (current_duty_cycle st' - current_duty_cycle st) <= 20) /\
  (let st := run inputs initial_state in
   let st' := exec (cycle i) st in
   0 <= current_duty_cycle st <= 255 /\
   0 <= current_duty_cycle st' <= 255 /\
   Z.abs (current_duty_cycle st' - current_duty_cycle st) <= 20).
Proof.
  split; cbv zeta.
  - pose proof (motor_calls_in_range targets _ initial_state_in_range) as Hc.
    destruct (set_motor_speed_step x _ Hc) as (Hr & Hs & _).
    repeat split; try apply Hc; try apply Hr; exact Hs.
  - pose proof (run_in_range inputs _ initial_state_in_range) as Hc.
    destruct (cycle_step i _ Hc) as (Hr & Hs).
    repeat split; try apply Hc; try apply Hr; exact Hs.
Qed.

(** *** The target level *)

Lemma trunc_pos_floor (m : positive) (e : Z) :
  trunc_pos m e = Qfloor (SF2Q (S754_finite false m e)) /\ 0 <= trunc_pos m e.
Proof.
  unfold trunc_pos, SF2Q.
  destruct (Z.leb_spec 0 e) as [He | He].
  - rewrite Qfloor_Z, Z.shiftl_mul_pow2 by exact He.
    split; [reflexivity |].
    apply Z.mul_nonneg_nonneg; [lia | apply Z.pow_nonneg; lia].
  - assert (Hp : 0 < 2 ^ (- e)) by (apply Z.pow_pos_nonneg; lia).
    rewrite Z.shiftr_div_pow2 by lia.
    unfold Qfloor. rewrite Z2Pos.id by exact Hp.
    split; [reflexivity |].
    apply Z.div_pos; lia.
Qed.

Lemma SF2Q_neg_floor (m : positive) (e : Z) :
  Qfloor (SF2Q (S754_finite true m e)) <= 0.
Proof.
  assert (H : (SF2Q (S754_finite true m e) <= 0)%Q).
  { unfold SF2Q. destruct (Z.leb_spec 0 e) as [He | He].
    - assert (Hp : 0 < 2 ^ e) by (apply Z.pow_pos_nonneg; lia).
      unfold Qle, Qopp, inject_Z. cbn [Qnum Qden]. nia.
    - unfold Qle, Qopp. cbn [Qnum Qden]. lia. }
  apply Qfloor_resp_le in H. exact H.
Qed.

(** Where the conversion is defined the float is finite, and the open
    conversion is the truncation. *)
Lemma fits_int_finite (x : float32) : fits_int x = true -> is_finite x = true.
Proof. destruct x; cbn [fits_int is_finite]; intros H; congruence. Qed.

Lemma float_to_int_or_fits (u : Z) (x : float32) :
  fits_int x = true -> float_to_int_or u x = float_to_int x.
Proof. intros H. unfold float_to_int_or. rewrite H. reflexivity. Qed.

(** A finite float of magnitude below 2^31 converts. *)
Lemma fits_int_small (x : float32) :
  is_finite x = true -> (Qabs (SF2Q x) < 2147483648)%Q -> fits_int x = true.
Proof.
  destruct x as [s | s | | s m e]; cbn [is_finite]; intros Hfin Habs;
    try discriminate; [reflexivity |].
  assert (Hm : (SF2Q (S754_finite false m e) < 2147483648)%Q).
  { rewrite SF2Q_finite in *. destruct s; [| rewrite Qabs_pos in Habs].
    - rewrite Qabs_opp, Qabs_pos in Habs; [exact Habs |].
      apply Qmult_le_0_compat; [| apply Qlt_le_weak, Q2_pos].
      rewrite <- (Zle_Qle 0). lia.
    - exact Habs.
    - apply Qmult_le_0_compat; [| apply Qlt_le_weak, Q2_pos].
      rewrite <- (Zle_Qle 0). lia. }
  assert (Hf : trunc_pos m e < 2147483648).
  { destruct (trunc_pos_floor m e) as (-> & _).
    destruct (Z.lt_ge_cases (Qfloor (SF2Q (S754_finite false m e))) 2147483648)
      as [L | G]; [exact L | exfalso].
    apply (Qlt_not_le _ _ Hm).
    apply Qle_trans with (inject_Z (Qfloor (SF2Q (S754_finite false m e))));
      [| apply Qfloor_le].
    change 2147483648%Q with (inject_Z 2147483648). rewrite <- Zle_Qle. exact G. }
  cbn [fits_int]. unfold INT_MIN, INT_MAX.
  destruct s; apply Z.leb_le; lia.
Qed.

(** Lines 45-51 after the open conversion. *)
Lemma target_duty_cycle_or_clamp (u : Z) (x : float32) :
  target_duty_cycle_or u x =
    Z.max 0 (Z.min MOTOR_MAX_DUTY_CYCLE (float_to_int_or u (duty_product x))).
Proof.
  unfold target_duty_cycle_or. fold (duty_product x).
  set (p := float_to_int_or u _). cbv zeta. unfold MOTOR_MAX_DUTY_CYCLE.
  rewrite Z.gtb_ltb.
  destruct (Z.ltb_spec 255 p) as [Hhi | Hhi].
  - cbn. lia.
  - destruct (Z.ltb_spec p 0) as [Hlo | Hlo].
    + cbn. lia.
    + destruct (Z.ltb_spec p 1); lia.
Qed.

(** Where C defines the conversion the target does not depend on what a
    build does elsewhere; where it does not, the target is the clamp of
    whatever the conversion yields. *)
Lemma target_duty_cycle_or_fits (u : Z) (x : float32) :
  fits_int (duty_product x) = true ->
  target_duty_cycle_or u x = target_duty_cycle x.
Proof.
  intros H. rewrite target_duty_cycle_or_clamp, target_duty_cycle_clamp.
  fold (duty_product x). rewrite (float_to_int_or_fits u _ H). reflexivity.
Qed.

Lemma target_duty_cycle_or_open (u : Z) (x : float32) :
  fits_int (duty_product x) = false ->
  target_duty_cycle_or u x = Z.max 0 (Z.min MOTOR_MAX_DUTY_CYCLE u).
Proof.
  intros H. rewrite target_duty_cycle_or_clamp.
  unfold float_to_int_or. rewrite H. reflexivity.
Qed.

(** For a product the conversion is defined on, the target is the integer
    part of its value, brought into [0, 255]. *)
Lemma target_duty_cycle_finite (x : float32) :
  fits_int (duty_product x) = true ->
  target_duty_cycle x =
    Z.max 0 (Z.min MOTOR_MAX_DUTY_CYCLE (Qfloor (SF2Q (duty_product x)))).
Proof.
  intros Hfit. rewrite target_duty_cycle_clamp.
  fold (duty_product x). unfold MOTOR_MAX_DUTY_CYCLE.
  destruct (duty_product x) as [s | s | | s m e]; try discriminate.
  - reflexivity.
  - cbn [fits_int] in Hfit.
    unfold float_to_int, saturate, INT_MIN, INT_MAX in *.
    destruct s; apply Z.leb_le in Hfit.
    + pose proof (SF2Q_neg_floor m e).
      destruct (trunc_pos_floor m e) as [_ Hpos]. lia.
    + destruct (trunc_pos_floor m e) as [<- Hpos]. lia.
Qed.


(** For a positive normal speed the float product is within a relative
    2^-22 of the exact (speed / 20) * 255. *)
Lemma duty_product_tolerance (x : float32) (vx : Q) :
  normal_in 24 x (-100) 100 vx ->
  let X := (vx / 20 * 255)%Q in
  is_finite (duty_product x) = true /\
  (- (X * (1 # 4194304)) <= SF2Q (duty_product x) - X <= X * (1 # 4194304))%Q.
Proof.
  intros Hx X.
  pose proof (normal_in_pos _ _ _ _ _ Hx) as Px.
  assert (H20 : normal_in 24 (f32_of_Z TARGET_SPEED) 5 5 20).
  { exists 10485760%positive, (-19). repeat split; try reflexivity; discriminate. }
  assert (H255 : normal_in 24 (f32_of_Z MOTOR_MAX_DUTY_CYCLE) 8 8 255).
  { exists 16711680%positive, (-16). repeat split; try reflexivity; discriminate. }
  destruct (f32_div_normal _ _ _ _ _ _ _ _ Hx H20) as (v1 & N1 & E1); [lia | lia |].
  destruct (f32_mul_normal _ _ _ _ _ _ _ _ N1 H255) as (v2 & N2 & E2); [lia | lia |].
  destruct (normal_in_SF2Q _ _ _ _ _ N2) as (Hfin & Hval).
  unfold duty_product. split; [exact Hfin |]. rewrite Hval.
  assert (e24 : (2 ^ (-24) == 1 # 16777216)%Q) by reflexivity.
  rewrite e24 in E1, E2.
  set (q := (vx / 20)%Q) in *.
  assert (Pq : (0 < q)%Q) by (unfold q; apply Qlt_shift_div_l; lra).
  unfold X. clearbody q. nra.
Qed.

(** *** Ramping down to a zero target *)

Lemma motor_calls_app (xs ys : list float32) (st : state) :
  motor_calls (xs ++ ys) st = motor_calls ys (motor_calls xs st).
Proof.
  revert st. induction xs as [| x xs IH]; intros st; cbn; [reflexivity |].
  apply IH.
Qed.




(** ** The change test on setpoints *)

(** Comparison of positive normal doubles. *)
Lemma f64_gt_normal (a b : float64) (lo1 hi1 lo2 hi2 : Z) (va vb : Q) :
  normal_in 53 a lo1 hi1 va ->
  normal_in 53 b lo2 hi2 vb ->
  (vb < va)%Q ->
  f64_gt a b = true.
Proof.
  intros (m1 & e1 & -> & Hm1 & _ & Hva) (m2 & e2 & -> & Hm2 & _ & Hvb) Hlt.
  unfold f64_gt, SFltb, SFcompare.
  rewrite Hva, Hvb in Hlt.
  assert (P1 : (9007199254740992 == 2 * inject_Z 4503599627370496)%Q) by reflexivity.
  assert (B1 : (inject_Z 4503599627370496 <= inject_Z (Zpos m1))%Q)
    by (rewrite <- Zle_Qle; change (2 ^ (53 - 1)) with 4503599627370496 in Hm1; lia).
  assert (B1' : (inject_Z (Zpos m1) < 2 * inject_Z 4503599627370496)%Q).
  { rewrite <- P1. change 9007199254740992%Q with (inject_Z 9007199254740992).
    rewrite <- Zlt_Qlt. change (2 ^ 53) with 9007199254740992 in Hm1. lia. }
  assert (B2 : (inject_Z 4503599627370496 <= inject_Z (Zpos m2))%Q)
    by (rewrite <- Zle_Qle; change (2 ^ (53 - 1)) with 4503599627370496 in Hm2; lia).
  assert (B2' : (inject_Z (Zpos m2) < 2 * inject_Z 4503599627370496)%Q).
  { rewrite <- P1. change 9007199254740992%Q with (inject_Z 9007199254740992).
    rewrite <- Zlt_Qlt. change (2 ^ 53) with 9007199254740992 in Hm2. lia. }
  assert (P0 : (0 < inject_Z 4503599627370496)%Q) by reflexivity.
  set (c := inject_Z 4503599627370496) in *.
  destruct (Z.compare_spec e2 e1) as [E | L | G].
  - subst e2. pose proof (Q2_pos e1) as HP.
    assert (Hm : (inject_Z (Zpos m2) < inject_Z (Zpos m1))%Q) by nra.
    rewrite <- Zlt_Qlt in Hm.
    rewrite Pos.compare_cont_spec. cbn [Pos.switch_Eq].
    assert (Hc : (m2 ?= m1)%positive = Lt) by (apply Pos.compare_lt_iff; lia).
    rewrite Hc. reflexivity.
  - reflexivity.
  - exfalso.
    pose proof (Q2_le (e1 + 1) e2 ltac:(lia)) as Hle.
    rewrite Q2_succ in Hle. pose proof (Q2_pos e1) as HP.
    pose proof (Q2_pos e2) as HP2.
    set (M1 := inject_Z (Zpos m1)) in *. set (M2 := inject_Z (Zpos m2)) in *.
    assert (H1 : (M1 * 2 ^ e1 < 2 * c * 2 ^ e1)%Q) by nra.
    assert (H2 : (c * 2 ^ e2 <= M2 * 2 ^ e2)%Q) by nra.
    assert (H3 : (c * (2 * 2 ^ e1) <= c * 2 ^ e2)%Q) by nra.
    nra.
Qed.

Lemma normal_in_upper (prec : Z) (f : spec_float) (lo hi : Z) (v : Q) :
  0 < prec -> normal_in prec f lo hi v -> (2 ^ (lo - 1) <= v /\ v < 2 ^ hi)%Q.
Proof.
  intros Hp (m & e & _ & Hm & He & Hv). rewrite Hv.
  pose proof (Q2_pos e) as HP.
  assert (H1 : (2 ^ (prec - 1) <= inject_Z (Zpos m))%Q).
  { rewrite <- Q2_inject by lia. rewrite <- Zle_Qle. lia. }
  assert (H2 : (inject_Z (Zpos m) < 2 ^ prec)%Q).
  { rewrite <- Q2_inject by lia. rewrite <- Zlt_Qlt. lia. }
  split.
  - apply Qle_trans with (2 ^ (prec - 1) * 2 ^ e)%Q.
    + rewrite <- Q2_add. apply Q2_le. lia.
    + apply Qmult_le_r; assumption.
  - apply Qlt_le_trans with (2 ^ prec * 2 ^ e)%Q.
    + apply Qmult_lt_r; assumption.
    + rewrite <- Q2_add. apply Q2_le. lia.
Qed.

(** The magnitude of a float difference of two setpoints, widened to a
    double: a positive normal double within a relative 2^-24 of the exact
    difference [d]. *)
Lemma setpoint_difference (a b : float32) (va vb d : Q) :
  setpoint_like a va -> setpoint_like b vb ->
  (0 < d)%Q -> (d == va - vb \/ d == vb - va)%Q ->
  exists v : Q,
    normal_in 53 (fabs (f64_of_f32 (f32_sub a b))) (-26) 7 v /\
    (d - d * 2 ^ (-24) <= v)%Q.
Proof.
  intros Ha Hb Hd Hdiff.
  assert (Hwide : forall (s : bool) (m : positive) (e : Z) (v : Q),
             2 ^ (24 - 1) <= Zpos m < 2 ^ 24 -> -26 <= 24 + e <= 6 ->
             (v == inject_Z (Zpos m) * 2 ^ e)%Q ->
             normal_in 53 (fabs (f64_of_f32 (S754_finite s m e))) (-26) 7 v).
  { intros s m e v Hm He Hv.
    pose proof (normal_in_digits 24 m eq_refl Hm) as Hdg.
    unfold f64_of_f32.
    destruct (binary_round_relative prec64 emax64 eq_refl s m e)
      as (m' & e' & Hr & Hm' & He' & _ & Hex).
    - rewrite Hdg. unfold emin, prec64, emax64. lia.
    - rewrite Hdg. unfold emax64. lia.
    - rewrite Hr. cbn [fabs SFabs]. rewrite Hdg in He'. unfold prec64 in *.
      exists m', e'. split; [reflexivity | split; [exact Hm' | split; [lia |]]].
      rewrite Hv. symmetry. apply Hex. rewrite Hdg. lia. }
  pose proof (Q2_pos (-24)) as P24.
  destruct Ha as [(-> & Za) | Na]; destruct Hb as [(-> & Zb) | Nb].
  - exfalso. destruct Hdiff as [E | E]; rewrite Za, Zb in E; lra.
  - (* 0 - b *)
    pose proof (normal_in_pos _ _ _ _ _ Nb) as Pb.
    destruct Nb as (m & e & -> & Hm & He & Hv).
    exists d. split; [| lra].
    cbn [f32_sub SFsub negb]. apply Hwide; [exact Hm | lia |].
    destruct Hdiff as [E | E]; rewrite Za in E; [lra |]. rewrite E, <- Hv. ring.
  - (* a - 0 *)
    pose proof (normal_in_pos _ _ _ _ _ Na) as Pa.
    destruct Na as (m & e & -> & Hm & He & Hv).
    exists d. split; [| lra].
    cbn [f32_sub SFsub]. apply Hwide; [exact Hm | lia |].
    destruct Hdiff as [E | E]; rewrite Zb in E; [| lra]. rewrite E, <- Hv. ring.
  - (* two normal setpoints *)
    destruct (normal_in_upper 24 _ _ _ _ eq_refl Na) as (_ & Ua).
    destruct (normal_in_upper 24 _ _ _ _ eq_refl Nb) as (_ & Ub).
    pose proof (normal_in_pos _ _ _ _ _ Na) as Pa.
    pose proof (normal_in_pos _ _ _ _ _ Nb) as Pb.
    destruct Na as (m1 & e1 & -> & Hm1 & He1 & Hv1).
    destruct Nb as (m2 & e2 & -> & Hm2 & He2 & Hv2).
    unfold f32_sub, SFsub. cbn [cond_Zopp].
    set (ez := Z.min e1 e2).
    destruct (shl_align_spec m1 e1 ez) as (S1 & F1).
    destruct (shl_align_spec m2 e2 ez) as (S2 & F2).
    replace (Z.min e1 ez) with ez in S1 by (unfold ez; lia).
    replace (Z.min e2 ez) with ez in S2 by (unfold ez; lia).
    rewrite S1 in F1. rewrite S2 in F2. rewrite F1, F2.
    set (k := Zpos m1 * 2 ^ (e1 - ez) - Zpos m2 * 2 ^ (e2 - ez)).
    assert (Hk : (inject_Z k * 2 ^ ez == va - vb)%Q).
    { unfold k. unfold Z.sub at 1. rewrite inject_Z_plus, inject_Z_opp, !inject_Z_mult.
      rewrite !Q2_inject by (unfold ez; lia).
      rewrite Hv1, Hv2.
      replace e1 with (e1 - ez + ez) at 2 by lia.
      replace e2 with (e2 - ez + ez) at 2 by lia.
      rewrite !Q2_add. ring. }
    pose proof (Q2_pos ez) as Pz.
    assert (Hrange : forall p : positive,
               (inject_Z (Zpos p) * 2 ^ ez == d)%Q ->
               -26 <= Zdigits2 (Zpos p) + ez <= 5).
    { intros p Hp.
      pose proof (Zdigits2_bounds (Zpos p) eq_refl) as Hb.
      assert (Hd0 : 0 < Zdigits2 (Zpos p)) by (cbn; lia).
      split; [unfold ez; lia |].
      assert (Hlt : (2 ^ (Zdigits2 (Zpos p) - 1 + ez) < 2 ^ 5)%Q).
      { rewrite Q2_add.
        apply Qle_lt_trans with (inject_Z (Zpos p) * 2 ^ ez)%Q.
        - apply Qmult_le_r; [exact Pz |].
          rewrite <- Q2_inject by lia. rewrite <- Zle_Qle. lia.
        - rewrite Hp. destruct Hdiff as [E | E]; rewrite E; lra. }
      apply Q2_lt_inv in Hlt. lia. }
    assert (Hround : forall (s : bool) (p : positive),
               (inject_Z (Zpos p) * 2 ^ ez == d)%Q ->
               exists v : Q,
                 normal_in 53 (fabs (f64_of_f32 (binary_round prec32 emax32 s p ez)))
                           (-26) 7 v /\ (d - d * 2 ^ (-24) <= v)%Q).
    { intros s p Hp. pose proof (Hrange p Hp) as Hr.
      destruct (binary_round_relative prec32 emax32 eq_refl s p ez)
        as (m' & e' & Hres & Hm' & He' & Herr & _).
      - unfold emin, prec32, emax32. lia.
      - unfold emax32. lia.
      - rewrite Hres. unfold prec32 in *. rewrite Hp in Herr.
        exists (inject_Z (Zpos m') * 2 ^ e')%Q. split.
        + apply Hwide; [exact Hm' | lia | reflexivity].
        + change (Z.opp 24) with (-24) in Herr. lra. }
    unfold binary_normalize. destruct k as [| p | p] eqn:Ek.
    + exfalso. change (inject_Z 0) with 0%Q in Hk.
      destruct Hdiff as [E | E]; rewrite E in Hd; lra.
    + apply Hround. rewrite Hk. destruct Hdiff as [E | E]; [symmetry; exact E |].
      exfalso. assert ((0 < inject_Z (Zpos p))%Q) by (rewrite <- (Zlt_Qlt 0); lia).
      rewrite E in Hd. nra.
    + apply Hround.
      assert (Hn : (inject_Z (Zneg p) == - inject_Z (Zpos p))%Q).
      { rewrite <- inject_Z_opp. reflexivity. }
      rewrite Hn in Hk.
      destruct Hdiff as [E | E]; [| rewrite E; lra].
      exfalso. assert ((0 < inject_Z (Zpos p))%Q) by (rewrite <- (Zlt_Qlt 0); lia).
      rewrite E in Hd. nra.
Qed.

Lemma pot_changed_margin (a b : float32) (va vb d : Q) :
  setpoint_like a va -> setpoint_like b vb ->
  (d == va - vb \/ d == vb - va)%Q ->
  ((1 # 2) + (3 # 67108864) <= d)%Q ->
  pot_changed a b = true.
Proof.
  intros Ha Hb Hdiff Hd.
  destruct (setpoint_difference a b va vb d Ha Hb ltac:(lra) Hdiff) as (v & Hn & Hv).
  unfold pot_changed.
  assert (Hhalf : normal_in 53 POT_CHANGE_THRESHOLD 0 0 (1 # 2)).
  { exists 4503599627370496%positive, (-53).
    repeat split; try reflexivity; discriminate. }
  apply (f64_gt_normal _ _ _ _ _ _ _ _ Hn Hhalf).
  assert (e24 : (2 ^ (-24) == 1 # 16777216)%Q) by reflexivity.
  rewrite e24 in Hv. lra.
Qed.


Lemma setpoint_shapes_checked :
  forallb (fun raw => setpoint_shape_ok raw && unit_grid_ok (pot_units raw))
          adc_range = true.
Proof. vm_compute. reflexivity. Qed.

Lemma setpoint_pairs_checked :
  forallb (fun k1 => forallb (units_apart_ok k1) small_units) all_units = true.
Proof. vm_compute. reflexivity. Qed.

Lemma setpoint_shape (raw : Z) :
  0 <= raw <= 4095 ->
  setpoint_like (pot_setpoint raw) (SF2Q (pot_setpoint raw)) /\
  (SF2Q (pot_setpoint raw) == inject_Z (pot_units raw) * 2 ^ (-26))%Q /\
  unit_grid_ok (pot_units raw) = true.
Proof.
  intros Hraw. pose proof setpoint_shapes_checked as H.
  rewrite forallb_forall in H. specialize (H raw (adc_range_spec raw Hraw)).
  apply andb_true_iff in H. destruct H as (H & Hg).
  split; [| split; [| exact Hg]]; clear Hg;
    unfold setpoint_shape_ok in H; unfold pot_units;
    destruct (pot_setpoint raw) as [s | s | | s m e]; try discriminate;
    destruct s; try discriminate.
  - left. split; reflexivity.
  - repeat (apply andb_true_iff in H; destruct H as (H & ?)).
    rewrite ?Z.leb_le, ?Z.ltb_lt in *.
    right. exists m, e. split; [reflexivity | split; [| split; [lia |]]].
    + change (2 ^ (24 - 1)) with 8388608. change (2 ^ 24) with 16777216. lia.
    + apply (SF2Q_finite false m e).
  - reflexivity.
  - repeat (apply andb_true_iff in H; destruct H as (H & ?)).
    rewrite ?Z.leb_le, ?Z.ltb_lt in *.
    rewrite (SF2Q_finite false m e), inject_Z_mult, Q2_inject by lia.
    rewrite <- Qmult_assoc, <- Q2_add.
    replace (e + 26 + -26) with e by lia. reflexivity.
Qed.

Lemma setpoint_units_apart (raw1 raw2 : Z) :
  0 <= raw1 <= 4095 -> 0 <= raw2 <= 4095 ->
  33554432 < pot_units raw1 - pot_units raw2 ->
  33554435 <= pot_units raw1 - pot_units raw2.
Proof.
  intros H1 H2.
  destruct (setpoint_shape raw1 H1) as (_ & _ & G1).
  destruct (setpoint_shape raw2 H2) as (_ & _ & G2).
  assert (In1 : In (pot_units raw1) all_units)
    by (unfold all_units; apply in_map, adc_range_spec; exact H1).
  assert (In2 : In (pot_units raw2) all_units)
    by (unfold all_units; apply in_map, adc_range_spec; exact H2).
  revert G1 G2 In1 In2.
  generalize (pot_units raw1) (pot_units raw2). intros k1 k2 G1 G2 In1 In2 Hgt.
  pose proof setpoint_pairs_checked as Hpair.
  rewrite forallb_forall in Hpair. specialize (Hpair k1 In1).
  rewrite forallb_forall in Hpair.
  unfold unit_grid_ok in G1, G2.
  destruct (Z.lt_ge_cases k2 33554432) as [Hs | Hb].
  - assert (In2s : In k2 small_units).
    { unfold small_units. apply filter_In.
      split; [exact In2 | apply Z.ltb_lt; exact Hs]. }
    specialize (Hpair k2 In2s). unfold units_apart_ok in Hpair. cbv zeta in Hpair.
    apply negb_true_iff, orb_false_iff in Hpair. destruct Hpair as (N1 & N2).
    apply Z.eqb_neq in N1. apply Z.eqb_neq in N2. lia.
  - apply orb_true_iff in G1. apply orb_true_iff in G2.
    destruct G1 as [M1 | M1]; [| apply Z.ltb_lt in M1; lia].
    destruct G2 as [M2 | M2]; [| apply Z.ltb_lt in M2; lia].
    apply Z.eqb_eq in M1. apply Z.eqb_eq in M2.
    pose proof (Z.div_mod k1 4 ltac:(lia)) as D1.
    pose proof (Z.div_mod k2 4 ltac:(lia)) as D2.
    lia.
Qed.

(** For two samples of the converter, the float test of the loop fires
    whenever the exact difference of the setpoints exceeds one half. *)
Lemma pot_changed_exact (raw1 raw2 : Z) :
  0 <= raw1 <= 4095 -> 0 <= raw2 <= 4095 ->
  (1 # 2 < Qabs (SF2Q (pot_setpoint raw1) - SF2Q (pot_setpoint raw2)))%Q ->
  pot_changed (pot_setpoint raw1) (pot_setpoint raw2) = true.
Proof.
  intros H1 H2 Habs.
  destruct (setpoint_shape raw1 H1) as (L1 & V1 & _).
  destruct (setpoint_shape raw2 H2) as (L2 & V2 & _).
  pose proof (setpoint_units_apart raw1 raw2 H1 H2) as A12.
  pose proof (setpoint_units_apart raw2 raw1 H2 H1) as A21.
  set (a := pot_setpoint raw1) in *. set (b := pot_setpoint raw2) in *.
  set (k1 := pot_units raw1) in *. set (k2 := pot_units raw2) in *.
  clearbody a b k1 k2.
  assert (e26 : (2 ^ (-26) == 1 # 67108864)%Q) by reflexivity.
  rewrite e26 in V1, V2.
  assert (Hcase : (1 # 2 < SF2Q a - SF2Q b \/ 1 # 2 < SF2Q b - SF2Q a)%Q).
  { destruct (Qlt_le_dec (SF2Q a - SF2Q b) 0) as [Hn | Hp].
    - right. rewrite (Qabs_neg _ (Qlt_le_weak _ _ Hn)) in Habs. lra.
    - left. rewrite (Qabs_pos _ Hp) in Habs. exact Habs. }
  assert (Hint : forall x y : Z,
             (1 # 2 < inject_Z x * (1 # 67108864) - inject_Z y * (1 # 67108864))%Q ->
             33554432 < x - y).
  { intros x y Hq.
    assert (Hq' : (inject_Z 33554432 < inject_Z (x - y))%Q).
    { unfold Z.sub. rewrite inject_Z_plus, inject_Z_opp.
      change (inject_Z 33554432) with (33554432 # 1)%Q. lra. }
    rewrite <- Zlt_Qlt in Hq'. exact Hq'. }
  assert (Hback : forall x y : Z, 33554435 <= x - y ->
             ((1 # 2) + (3 # 67108864)
                <= inject_Z x * (1 # 67108864) - inject_Z y * (1 # 67108864))%Q).
  { intros x y Hk.
    assert (Hk' : (inject_Z 33554435 <= inject_Z (x - y))%Q)
      by (rewrite <- Zle_Qle; exact Hk).
    unfold Z.sub in Hk'. rewrite inject_Z_plus, inject_Z_opp in Hk'.
    change (inject_Z 33554435) with (33554435 # 1)%Q in Hk'. lra. }
  destruct Hcase as [Hc | Hc].
  - apply (pot_changed_margin a b (SF2Q a) (SF2Q b) (SF2Q a - SF2Q b) L1 L2).
    + left. reflexivity.
    + rewrite V1, V2 in Hc |- *. apply Hback, A12, Hint. exact Hc.
  - apply (pot_changed_margin a b (SF2Q a) (SF2Q b) (SF2Q b - SF2Q a) L1 L2).
    + right. reflexivity.
    + rewrite V1, V2 in Hc |- *. apply Hback, A21, Hint. exact Hc.
Qed.

(** ** The cruise-control state *)

Lemma main_button_exec (b : bool) (st : state) :
  exec (main_button b) st =
    if falling_edge (last_button_state st) b then
      mkState (pulse_count st) (last_pulse_time st) (speed st)
        (negb (cruise_control_active st)) (current_duty_cycle st)
        (last_pot_value st) b
        (log st ++ [Printf_cruise (negb (cruise_control_active st));
                    Sleep_ms 200])
    else
      mkState (pulse_count st) (last_pulse_time st) (speed st)
        (cruise_control_active st) (current_duty_cycle st)
        (last_pot_value st) b (log st).
Proof.
  unfold main_button, falling_edge. prog_simpl.
  destruct (negb b && last_button_state st); prog_simpl.
  - rewrite <- app_assoc. reflexivity.
  - reflexivity.
Qed.

Lemma main_pot_change_exec (v : float32) (st : state) :
  exec (main_pot_change v) st =
    if cruise_control_active st && pot_changed v (last_pot_value st) then
      mkState (pulse_count st) (last_pulse_time st) (speed st)
        false (current_duty_cycle st) v (last_button_state st)
        (log st ++ [Printf_cruise_pot; Sleep_ms 1000])
    else
      mkState (pulse_count st) (last_pulse_time st) (speed st)
        (cruise_control_active st) (current_duty_cycle st) v
        (last_button_state st) (log st).
Proof.
  unfold main_pot_change. prog_simpl.
  destruct (cruise_control_active st && pot_changed v (last_pot_value st));
    prog_simpl.
  - rewrite <- app_assoc. reflexivity.
  - reflexivity.
Qed.

Lemma emit_frame (e : event) (st : state) :
  let st' := exec (emit e) st in
  cruise_control_active st' = cruise_control_active st /\
  last_pot_value st' = last_pot_value st /\
  last_button_state st' = last_button_state st.
Proof. cbv zeta. repeat split. Qed.

Lemma sensor_callback_frame (st : state) :
  let st' := exec sensor_callback st in
  cruise_control_active st' = cruise_control_active st /\
  last_pot_value st' = last_pot_value st /\
  last_button_state st' = last_button_state st /\
  log st' = log st.
Proof. cbv zeta. repeat split. Qed.

Lemma deliver_pulses_frame (n : nat) (st : state) :
  let st' := exec (deliver_pulses n) st in
  cruise_control_active st' = cruise_control_active st /\
  last_pot_value st' = last_pot_value st /\
  last_button_state st' = last_button_state st /\
  log st' = log st.
Proof.
  cbv zeta. revert st. induction n as [| n IH]; intros st; cbn [deliver_pulses].
  - repeat split.
  - rewrite exec_bind.
    destruct (IH (exec sensor_callback st)) as (-> & -> & -> & ->).
    repeat split.
Qed.

Lemma ramp_frame (t : Z) (st : state) :
  let st' := exec (ramp t) st in
  cruise_control_active st' = cruise_control_active st /\
  last_pot_value st' = last_pot_value st /\
  last_button_state st' = last_button_state st /\
  log st' = log st.
Proof.
  cbv zeta. unfold ramp. prog_simpl.
  destruct (current_duty_cycle st <? t); prog_simpl.
  - destruct (i32 (current_duty_cycle st + duty_cycle_step) >? t);
      prog_simpl; repeat split.
  - destruct (current_duty_cycle st >? t); prog_simpl.
    + destruct (i32 (current_duty_cycle st - duty_cycle_step) <? t);
        prog_simpl; repeat split.
    + repeat split.
Qed.

Lemma set_motor_speed_frame (x : float32) (st : state) :
  let st' := exec (set_motor_speed x) st in
  cruise_control_active st' = cruise_control_active st /\
  last_pot_value st' = last_pot_value st /\
  last_button_state st' = last_button_state st.
Proof.
  cbv zeta. unfold set_motor_speed. rewrite exec_bind.
  destruct (ramp_frame (target_duty_cycle x) st) as (H1 & H2 & H3 & _).
  prog_simpl. auto.
Qed.

(** The state in which a cycle reaches the potentiometer block. *)
Lemma cycle_to_button_frame (i : input) (st : state) :
  let st1 := exec (cycle_to_button i) st in
  cruise_control_active st1 =
    (if falling_edge (last_button_state st) (in_button i)
     then negb (cruise_control_active st) else cruise_control_active st) /\
  last_pot_value st1 = last_pot_value st /\
  last_button_state st1 = in_button i.
Proof.
  cbv zeta. unfold cycle_to_button.
  rewrite exec_bind. set (s0 := exec (deliver_pulses _) st).
  rewrite exec_bind. set (s1 := exec (calculate_speed _) s0).
  destruct (calculate_speed_frame (in_now i) s0) as (Ha & _ & Hp & Hb).
  fold s1 in Ha, Hp, Hb.
  destruct (deliver_pulses_frame (in_pulses i) st) as (Ha0 & Hp0 & Hb0 & _).
  fold s0 in Ha0, Hp0, Hb0.
  rewrite main_button_exec, Hb, Hb0, Ha, Ha0.
  destruct (falling_edge (last_button_state st) (in_button i));
    prog_fields; rewrite ?Ha, ?Ha0, ?Hp, ?Hp0; auto.
Qed.

(** A cycle is its part up to the button block followed by the
    potentiometer and motor blocks. *)
Lemma cycle_split (i : input) (st : state) :
  exec (cycle i) st =
    exec (sleep_ms 100)
      (exec (main_motor (pot_setpoint (in_adc i)))
         (exec (main_pot_change (pot_setpoint (in_adc i)))
            (exec (read_potentiometer (in_adc i))
               (exec (cycle_to_button i) st)))).
Proof.
  unfold cycle, main_iteration, cycle_to_button.
  repeat rewrite exec_bind. reflexivity.
Qed.

(** The cruise flag and the stored levels at the end of a cycle. *)
Lemma cycle_cruise (i : input) (st : state) :
  let st' := exec (cycle i) st in
  let st1 := exec (cycle_to_button i) st in
  let v := pot_setpoint (in_adc i) in
  cruise_control_active st' =
    cruise_control_active st1 && negb (pot_changed v (last_pot_value st)) /\
  last_pot_value st' = v /\
  last_button_state st' = in_button i.
Proof.
  cbv zeta. rewrite cycle_split.
  destruct (cycle_to_button_frame i st) as (_ & Hp & Hb).
  set (st1 := exec (cycle_to_button i) st) in *.
  set (v := pot_setpoint (in_adc i)).
  set (s2 := exec (read_potentiometer _) st1).
  assert (H2 : cruise_control_active s2 = cruise_control_active st1 /\
               last_pot_value s2 = last_pot_value st1 /\
               last_button_state s2 = last_button_state st1).
  { subst s2. rewrite read_potentiometer_state. prog_fields. auto. }
  destruct H2 as (Ha2 & Hp2 & Hb2).
  set (s3 := exec (main_pot_change v) s2).
  assert (H3 : cruise_control_active s3 =
                 cruise_control_active st1
                 && negb (pot_changed v (last_pot_value st)) /\
               last_pot_value s3 = v /\
               last_button_state s3 = in_button i).
  { subst s3. rewrite main_pot_change_exec, Ha2, Hp2, Hp, Hb2, <- Hb.
    destruct (cruise_control_active st1);
      destruct (pot_changed v (last_pot_value st)); prog_fields;
      rewrite ?Ha2, ?Hb2; auto. }
  destruct H3 as (Ha3 & Hp3 & Hb3).
  rewrite main_motor_exec.
  destruct (set_motor_speed_frame
              (if cruise_control_active s3 then speed s3 else v) s3)
    as (Ha4 & Hp4 & Hb4).
  destruct (emit_frame (Sleep_ms 100)
              (exec (set_motor_speed
                       (if cruise_control_active s3 then speed s3 else v)) s3))
    as (Ha5 & Hp5 & Hb5).
  unfold sleep_ms. rewrite Ha5, Hp5, Hb5, Ha4, Hp4, Hb4. auto.
Qed.

(** C2.  When the absolute difference between this cycle's setpoint and the
    stored setpoint of the previous cycle exceeds POT_CHANGE_THRESHOLD, the
    cycle ends with cruise control disengaged, whatever the button does
    (the flag tested is the one the button block of the same cycle left,
    toggled or not); and the potentiometer block, entered engaged, clears
    the flag, reports it and stores the new setpoint.  The difference is
    the float difference the code computes; for setpoints that come from
    samples of the converter (0..4095) the test fires whenever the exact
    difference of the two setpoints exceeds one half. *)
Theorem pot_change_disengages (i : input) (st : state) (raw_prev : Z) :
  let v := pot_setpoint (in_adc i) in
  let st1 := exec (read_potentiometer (in_adc i)) (exec (cycle_to_button i) st) in
  (pot_changed v (last_pot_value st) = true ->
     cruise_control_active (exec (cycle i) st) = false /\
     (cruise_control_active st1 = true ->
        exec (main_pot_change v) st1 =
          mkState (pulse_count st1) (last_pulse_time st1) (speed st1)
            false (current_duty_cycle st1) v (last_button_state st1)
            (log st1 ++ [Printf_cruise_pot; Sleep_ms 1000]))) /\
  (0 <= in_adc i <= 4095 -> 0 <= raw_prev <= 4095 ->
   last_pot_value st = pot_setpoint raw_prev ->
   (1 # 2 < Qabs (SF2Q v - SF2Q (last_pot_value st)))%Q ->
     pot_changed v (last_pot_value st) = true /\
     cruise_control_active (exec (cycle i) st) = false).
Proof.
  intros v st1.
  assert (Hoff : pot_changed v (last_pot_value st) = true ->
                 cruise_control_active (exec (cycle i) st) = false).
  { intros Hchg. destruct (cycle_cruise i st) as (-> & _). fold v.
    rewrite Hchg. apply andb_false_r. }
  split.
  - intros Hchg. split; [exact (Hoff Hchg) |].
    intros Hact. rewrite main_pot_change_exec, Hact.
    assert (Hp : last_pot_value st1 = last_pot_value st).
    { subst st1. rewrite read_potentiometer_state. prog_fields.
      apply (cycle_to_button_frame i st). }
    rewrite Hp, Hchg. reflexivity.
  - intros Hcur Hprev Hlast Hexact.
    assert (Hchg : pot_changed v (last_pot_value st) = true).
    { rewrite Hlast in *. apply pot_changed_exact; assumption. }
    split; [exact Hchg | exact (Hoff Hchg)].
Qed.

(** Scenario C: engaged, the setpoint goes from 2.0 to 3.0 (raw samples 410
    and 615, to converter precision), with the button released and with
    the button pressed in that cycle. *)
Lemma pot_change_disengages_witness :
  let st := mkState 0 0 (f32_of_Z 12) true 150 (pot_setpoint 410) true [] in
  cruise_control_active (exec (cycle (mkInput 0 5000 true 615)) st) = false /\
  cruise_control_active (exec (cycle (mkInput 0 5000 false 615)) st) = false.
Proof.
  intros st.
  assert (Hcur : 0 <= 615 <= 4095) by lia.
  assert (Hprev : 0 <= 410 <= 4095) by lia.
  assert (Hlast : last_pot_value st = pot_setpoint 410) by reflexivity.
  assert (Hexact : (1 # 2 < Qabs (SF2Q (pot_setpoint 615)
                                  - SF2Q (last_pot_value st)))%Q)
    by (vm_compute; reflexivity).
  destruct (pot_change_disengages (mkInput 0 5000 true 615) st 410)
    as (_ & Hreleased).
  destruct (pot_change_disengages (mkInput 0 5000 false 615) st 410)
    as (_ & Hpressed).
  split.
  - apply (Hreleased Hcur Hprev Hlast Hexact).
  - apply (Hpressed Hcur Hprev Hlast Hexact).
Defined.

(** C3.  From disengaged, a cycle ends engaged only if it saw a falling
    edge of the button: the stored level released (true) and the sampled
    level pressed (false).  So a rising edge does not engage, a button
    held pressed over two consecutive cycles does not engage in the
    second, and the potentiometer block never sets the flag. *)
Theorem engage_only_on_falling_edge (i j : input) (v : float32) (st : state) :
  cruise_control_active st = false ->
  (cruise_control_active (exec (cycle i) st) = true ->
     last_button_state st = true /\ in_button i = false) /\
  (in_button i = true -> cruise_control_active (exec (cycle i) st) = false) /\
  (in_button i = false -> in_button j = false ->
     cruise_control_active (exec (cycle i) st) = false ->
     cruise_control_active (exec (cycle j) (exec (cycle i) st)) = false) /\
  cruise_control_active (exec (main_pot_change v) st) = false.
Proof.
  intros Hoff.
  assert (Hcycle : forall (k : input) (s : state),
             cruise_control_active s = false ->
             cruise_control_active (exec (cycle k) s) = true ->
             last_button_state s = true /\ in_button k = false).
  { intros k s Hs Hon.
    destruct (cycle_cruise k s) as (Ha & _).
    destruct (cycle_to_button_frame k s) as (Hb & _).
    rewrite Ha, Hb, Hs in Hon. unfold falling_edge in Hon.
    destruct (in_button k); destruct (last_button_state s);
      cbn in Hon; try discriminate; auto. }
  split; [apply (Hcycle i st Hoff) | split; [| split]].
  - intros Hi.
    destruct (cruise_control_active (exec (cycle i) st)) eqn:Hon; [| reflexivity].
    destruct (Hcycle i st Hoff Hon) as (_ & Hpressed). congruence.
  - intros Hi Hj Hoff'.
    destruct (cruise_control_active (exec (cycle j) (exec (cycle i) st))) eqn:Hon;
      [| reflexivity].
    destruct (Hcycle j _ Hoff' Hon) as (Hlast & _).
    destruct (cycle_cruise i st) as (_ & _ & Hb). congruence.
  - rewrite main_pot_change_exec, Hoff. reflexivity.
Qed.

Lemma engage_only_on_falling_edge_witness :
  let i := mkInput 0 100 false 0 in
  let j := mkInput 0 3500 false 0 in
  (last_button_state initial_state = true /\ in_button i = false) /\
  cruise_control_active
    (exec (main_pot_change (pot_setpoint 4095)) initial_state) = false.
Proof.
  intros i j.
  assert (Hoff : cruise_control_active initial_state = false) by reflexivity.
  assert (Hon : cruise_control_active (exec (cycle i) initial_state) = true)
    by (vm_compute; reflexivity).
  destruct (engage_only_on_falling_edge i j (pot_setpoint 4095)
              initial_state Hoff) as (H1 & _ & _ & H4).
  split; [exact (H1 Hon) | exact H4].
Defined.

(** C10.  [last_button_state] starts as true (released).  If the button
    reads pressed in the very first iteration, the button block sees a
    falling edge and toggles cruise control from disengaged to engaged,
    reporting it, with no release observed before; the cycle then ends
    engaged unless the potentiometer block of that same cycle finds the
    setpoint more than the threshold away from its initial value 0. *)
Theorem first_iteration_pressed_engages (i : input) :
  in_button i = false ->
  last_button_state initial_state = true /\
  cruise_control_active initial_state = false /\
  cruise_control_active (exec (cycle_to_button i) initial_state) = true /\
  (exists l, log (exec (cycle_to_button i) initial_state) =
               l ++ [Printf_cruise true; Sleep_ms 200]) /\
  cruise_control_active (exec (cycle i) initial_state) =
    negb (pot_changed (pot_setpoint (in_adc i)) (S754_zero false)).
Proof.
  intros Hpressed.
  destruct (cycle_to_button_frame i initial_state) as (Ha & _).
  rewrite Hpressed in Ha. cbn in Ha.
  split; [reflexivity | split; [reflexivity | split; [exact Ha | split]]].
  - unfold cycle_to_button. rewrite !exec_bind.
    set (s1 := exec (calculate_speed _) _).
    assert (Hs1 : last_button_state s1 = true /\ cruise_control_active s1 = false).
    { subst s1.
      destruct (calculate_speed_frame (in_now i)
                  (exec (deliver_pulses (in_pulses i)) initial_state))
        as (-> & _ & _ & ->).
      destruct (deliver_pulses_frame (in_pulses i) initial_state)
        as (-> & _ & -> & _).
      split; reflexivity. }
    destruct Hs1 as (Hb1 & Ha1).
    rewrite main_button_exec, Hb1, Hpressed, Ha1. cbn.
    exists (log s1). reflexivity.
  - destruct (cycle_cruise i initial_state) as (-> & _).
    rewrite Ha. reflexivity.
Qed.

Lemma first_iteration_pressed_engages_witness :
  cruise_control_active
    (exec (cycle_to_button (mkInput 0 12 false 30)) initial_state) = true /\
  cruise_control_active (exec (cycle (mkInput 0 12 false 30)) initial_state)
    = true.
Proof.
  assert (Hpressed : in_button (mkInput 0 12 false 30) = false) by reflexivity.
  destruct (first_iteration_pressed_engages (mkInput 0 12 false 30) Hpressed)
    as (_ & _ & H3 & _ & H5).
  split; [exact H3 |]. rewrite H5. vm_compute. reflexivity.
Defined.

(** ** The speed sample *)

Lemma dyadic_intervals_exact :
  forallb (fun ms => Qeq_bool (SF2Q (rpm_of_elapsed ms)) (60000 # Z.to_pos ms))
          dyadic_intervals = true.
Proof. vm_compute. reflexivity. Qed.

(** C5.  With the pulse threshold reached and a positive interval since
    the stored instant, [calculate_speed] stores 60.0 / time_per_rev,
    [time_per_rev] being the interval in seconds, resets [pulse_count] to 0
    and stores the current instant.  The stored speed is a positive finite
    float whose value is within a relative 2^-22 of the rational
    60 / elapsed_seconds (the roundings of the two divisions and of the
    two assignments to [float]); it is exactly that rational for every
    interval of the form 125 * d * 2^a ms with d a divisor of 15, and for
    1.5 s it is exactly 40 RPM. *)
Theorem calculate_speed_at_threshold (now : Z) (st : state) :
  PULSES_PER_REV <= pulse_count st ->
  0 < elapsed_ms now st ->
  let st' := exec (calculate_speed now) st in
  let time_per_rev : float32 :=
    f32_of_f64 (f64_div (f64_of_Z (elapsed_ms now st)) (f64_of_Z 1000)) in
  let elapsed_seconds : Q := (inject_Z (elapsed_ms now st) / 1000)%Q in
  speed st' = f32_of_f64 (f64_div (f64_of_Z 60) (f64_of_f32 time_per_rev)) /\
  pulse_count st' = 0 /\
  last_pulse_time st' = u32 now /\
  is_finite (speed st') = true /\
  (0 < SF2Q (speed st'))%Q /\
  (- (60 / elapsed_seconds * (1 # 4194304))
     <= SF2Q (speed st') - 60 / elapsed_seconds
     <= 60 / elapsed_seconds * (1 # 4194304))%Q /\
  (In (elapsed_ms now st) dyadic_intervals ->
     (SF2Q (speed st') == 60 / elapsed_seconds)%Q) /\
  (elapsed_ms now st = 1500 ->
     speed st' = f32_of_Z 40 /\ (SF2Q (speed st') == 40)%Q).
Proof.
  intros Hn Hpos. cbv zeta.
  rewrite (calculate_speed_sample now st Hn). prog_fields.
  fold (rpm_of_elapsed (elapsed_ms now st)).
  assert (Hrange : 0 < elapsed_ms now st < 4294967296).
  { split; [exact Hpos |]. unfold elapsed_ms, u32.
    apply Z.mod_pos_bound. lia. }
  destruct (rpm_of_elapsed_tolerance _ Hrange) as (Hfin & Hgt & Htol).
  split; [reflexivity | split; [reflexivity | split; [reflexivity |]]].
  split; [exact Hfin | split; [exact Hgt | split; [exact Htol | split]]].
  - intros Hin. pose proof dyadic_intervals_exact as Hall.
    rewrite forallb_forall in Hall. specialize (Hall _ Hin).
    apply Qeq_bool_iff in Hall. rewrite Hall.
    set (ms := elapsed_ms now st) in *.
    unfold Qeq, Qdiv, Qmult, Qinv, inject_Z. cbn [Qnum Qden].
    destruct ms as [| p | p]; try lia.
    cbn [Z.to_pos Z.mul Pos.mul Qnum Qden]. lia.
  - intros ->. split; vm_compute; reflexivity.
Qed.

(** Scenario A: three pulses, 1.5 s after the stored instant. *)
Lemma calculate_speed_at_threshold_witness :
  let st := mkState 3 2000 (S754_zero false) false 0 (S754_zero false) true [] in
  let st' := exec (calculate_speed 3500) st in
  (SF2Q (speed st') == 40)%Q /\ pulse_count st' = 0 /\
  last_pulse_time st' = 3500.
Proof.
  intros st st'.
  assert (Hn : PULSES_PER_REV <= pulse_count st) by (vm_compute; discriminate).
  assert (Hpos : 0 < elapsed_ms 3500 st) by (vm_compute; reflexivity).
  destruct (calculate_speed_at_threshold 3500 st Hn Hpos)
    as (_ & Hcount & Htime & _ & _ & _ & _ & H1500).
  assert (He : elapsed_ms 3500 st = 1500) by (vm_compute; reflexivity).
  destruct (H1500 He) as (_ & Hq).
  split; [exact Hq | split; [exact Hcount | exact Htime]].
Defined.

(** An interval of zero milliseconds gives an infinite speed. *)
Lemma calculate_speed_zero_elapsed (now : Z) (st : state) :
  PULSES_PER_REV <= pulse_count st ->
  elapsed_ms now st = 0 ->
  speed (exec (calculate_speed now) st) = S754_infinity false.
Proof.
  intros Hn H0. rewrite (calculate_speed_sample now st Hn). prog_fields.
  rewrite H0. vm_compute. reflexivity.
Qed.

(** C6.  The division of [calculate_speed] is not guarded, and nothing
    between it and the motor command looks at its result.  Three pulses
    in the millisecond of power-on with the button pressed: the interval
    is 0 ms, the speed stored and printed is 60.0 / 0.0 = +infinity,
    cruise control engages, and the motor block calls [set_motor_speed]
    with that infinite speed.  The same holds in a later cycle when the
    timer reads the stored instant again.  The product line 44 then
    converts is +infinity, for which C defines no conversion to [int]:
    the target is the clamp of whatever the conversion yields (255 when it
    yields INT_MAX, 0 when it yields INT_MIN).  An interval of 1 ms is
    taken as it is, too: the speed is 59999.996 RPM, the conversion is
    defined, the target is the full duty 255 and the PWM level rises
    by 20. *)
Theorem zero_elapsed_reaches_motor :
  (let i := mkInput 3 0 false 0 in
   let before_motor :=
     exec (main_pot_change (pot_setpoint 0))
       (exec (read_potentiometer 0) (exec (cycle_to_button i) initial_state)) in
   let st' := exec (cycle i) initial_state in
   elapsed_ms (in_now i) (exec (deliver_pulses 3) initial_state) = 0 /\
   speed st' = S754_infinity false /\
   In (Printf_speed (S754_infinity false)) (log st') /\
   cruise_control_active before_motor = true /\
   speed before_motor = S754_infinity false /\
   exec (main_motor (pot_setpoint 0)) before_motor =
     exec (set_motor_speed (S754_infinity false)) before_motor /\
   st' = exec (sleep_ms 100)
           (exec (set_motor_speed (S754_infinity false)) before_motor)) /\
  (let st := mkState 0 777000 (f32_of_Z 12) true 153 (S754_zero false) true [] in
   let i := mkInput 3 777000 true 0 in
   let before_motor :=
     exec (main_pot_change (pot_setpoint 0))
       (exec (read_potentiometer 0) (exec (cycle_to_button i) st)) in
   let st' := exec (cycle i) st in
   elapsed_ms (in_now i) (exec (deliver_pulses 3) st) = 0 /\
   speed st' = S754_infinity false /\
   cruise_control_active before_motor = true /\
   st' = exec (sleep_ms 100)
           (exec (set_motor_speed (S754_infinity false)) before_motor)) /\
  (duty_product (S754_infinity false) = S754_infinity false /\
   fits_int (duty_product (S754_infinity false)) = false /\
   (forall u : Z,
      target_duty_cycle_or u (S754_infinity false)
        = Z.max 0 (Z.min MOTOR_MAX_DUTY_CYCLE u)) /\
   target_duty_cycle_or INT_MAX (S754_infinity false) = 255 /\
   target_duty_cycle_or INT_MIN (S754_infinity false) = 0) /\
  (let st := mkState 0 777000 (f32_of_Z 12) true 153 (S754_zero false) true [] in
   let st' := exec (cycle (mkInput 3 777001 true 0)) st in
   elapsed_ms 777001 (exec (deliver_pulses 3) st) = 1 /\
   speed st' = S754_finite false 15359999 (-8) /\
   fits_int (duty_product (speed st')) = true /\
   (forall u : Z, target_duty_cycle_or u (speed st') = 255) /\
   target_duty_cycle (speed st') = 255 /\
   current_duty_cycle st' = 173 /\
   In (Pwm_set_gpio_level MOTOR_PIN 173) (log st')).
Proof.
  split; [| split; [| split]].
  - vm_compute. repeat split; auto 20.
  - vm_compute. repeat split; auto 20.
  - split; [vm_compute; reflexivity |].
    split; [vm_compute; reflexivity |].
    split; [| split; vm_compute; reflexivity].
    intros u. apply target_duty_cycle_or_open. vm_compute. reflexivity.
  - cbv zeta.
    assert (Hs : speed (exec (cycle (mkInput 3 777001 true 0))
                   (mkState 0 777000 (f32_of_Z 12) true 153 (S754_zero false)
                      true []))
                 = S754_finite false 15359999 (-8)) by (vm_compute; reflexivity).
    rewrite Hs.
    assert (Hfit : fits_int (duty_product (S754_finite false 15359999 (-8))) = true)
      by (vm_compute; reflexivity).
    split; [vm_compute; reflexivity |].
    split; [reflexivity |].
    split; [exact Hfit |].
    split.
    { intros u. rewrite (target_duty_cycle_or_fits u _ Hfit).
      vm_compute. reflexivity. }
    split; [vm_compute; reflexivity |].
    split; [vm_compute; reflexivity |].
    vm_compute. auto 20.
Qed.

(** ** The interrupt inside [calculate_speed] *)

(** With no interrupt between its statements, the interleaved model is
    [calculate_speed], and the test has seen every pulse it clears. *)
Lemma interleave_atomic (now : Z) (st : state) :
  interleave now [Main; Main; Main; Main] At_test 0 st =
    ((Returned,
      if PULSES_PER_REV <=? pulse_count st then pulse_count st else 0),
     exec (calculate_speed now) st).
Proof.
  unfold interleave, main_step, calculate_speed. prog_simpl.
  destruct (PULSES_PER_REV <=? pulse_count st); prog_simpl; reflexivity.
Qed.

(** C9.  The read of line 32 and the reset of line 37 are separate
    statements.  Four sensor interrupts, the fourth one between the test
    and the reset: the test has seen 3 pulses, the counter is 0 after the
    call, and the fourth increment is gone.  When the fourth interrupt
    comes after the call instead, it is still in the counter. *)
Theorem pulse_lost_between_test_and_reset :
  (let sched := [Irq; Irq; Irq; Main; Main; Irq; Main; Main] in
   let r := interleave 1500 sched At_test 0 initial_state in
   irqs sched = 4 /\
   fst (fst r) = Returned /\
   snd (fst r) = 3 /\
   pulse_count (snd r) = 0 /\
   irqs sched <> snd (fst r) + pulse_count (snd r)) /\
  (let sched := [Irq; Irq; Irq; Main; Main; Main; Main; Irq] in
   let r := interleave 1500 sched At_test 0 initial_state in
   irqs sched = 4 /\
   snd (fst r) = 3 /\
   pulse_count (snd r) = 1 /\
   irqs sched = snd (fst r) + pulse_count (snd r)).
Proof.
  vm_compute. repeat split; discriminate.
Qed.
(** ** The loop body as a whole *)

Lemma calculate_speed_exec (now : Z) (st : state) :
  exec (calculate_speed now) st =
    if PULSES_PER_REV <=? pulse_count st then
      mkState 0 (u32 now) (rpm_of_elapsed (elapsed_ms now st))
        (cruise_control_active st) (current_duty_cycle st)
        (last_pot_value st) (last_button_state st)
        (log st ++ [Printf_speed (rpm_of_elapsed (elapsed_ms now st));
                    Sleep_ms 1000])
    else st.
Proof.
  destruct (Z.leb_spec PULSES_PER_REV (pulse_count st)) as [Hge | Hlt].
  - rewrite (calculate_speed_sample now st Hge). reflexivity.
  - unfold exec. rewrite (calculate_speed_idle now st Hlt). reflexivity.
Qed.

Lemma deliver_pulses_exec (n : nat) (st : state) :
  0 <= pulse_count st < 4294967296 ->
  exec (deliver_pulses n) st =
    mkState (u32 (pulse_count st + Z.of_nat n)) (last_pulse_time st) (speed st)
      (cruise_control_active st) (current_duty_cycle st) (last_pot_value st)
      (last_button_state st) (log st).
Proof.
  revert st. induction n as [| n IH]; intros st Hpc.
  - cbn [deliver_pulses]. unfold exec, ret. cbn [snd].
    rewrite Z.add_0_r, u32_small by exact Hpc. destruct st; reflexivity.
  - cbn [deliver_pulses]. rewrite exec_bind.
    assert (Hs : exec sensor_callback st =
                 mkState (u32 (pulse_count st + 1)) (last_pulse_time st) (speed st)
                   (cruise_control_active st) (current_duty_cycle st)
                   (last_pot_value st) (last_button_state st) (log st))
      by reflexivity.
    rewrite Hs, IH; prog_fields.
    + f_equal. unfold u32. rewrite Z.add_mod_idemp_l by lia. f_equal. lia.
    + unfold u32. apply Z.mod_pos_bound. lia.
Qed.

Lemma sleep_ms_exec (ms : Z) (st : state) :
  exec (sleep_ms ms) st =
    mkState (pulse_count st) (last_pulse_time st) (speed st)
      (cruise_control_active st) (current_duty_cycle st) (last_pot_value st)
      (last_button_state st) (log st ++ [Sleep_ms ms]).
Proof. reflexivity. Qed.

Lemma u16_duty (c : Z) : 0 <= c <= MOTOR_MAX_DUTY_CYCLE -> u16 c = c.
Proof. unfold MOTOR_MAX_DUTY_CYCLE, u16. intros H. apply Z.mod_small. lia. Qed.

Lemma toward_range (t c : Z) :
  0 <= t <= MOTOR_MAX_DUTY_CYCLE -> 0 <= c <= MOTOR_MAX_DUTY_CYCLE ->
  0 <= toward t c <= MOTOR_MAX_DUTY_CYCLE.
Proof.
  unfold toward, MOTOR_MAX_DUTY_CYCLE, duty_cycle_step. intros Ht Hc.
  destruct (c <? t); lia.
Qed.

Lemma set_motor_speed_toward (x : float32) (st : state) :
  duty_in_range st ->
  exec (set_motor_speed x) st =
    let c' := toward (target_duty_cycle x) (current_duty_cycle st) in
    mkState (pulse_count st) (last_pulse_time st) (speed st)
      (cruise_control_active st) c' (last_pot_value st) (last_button_state st)
      (log st ++ [Pwm_set_gpio_level MOTOR_PIN c'; Printf_pwm c'; Sleep_ms 1000]).
Proof.
  intros Hc. rewrite (set_motor_speed_exec x st Hc). cbv zeta.
  rewrite (ramp_exec _ st (target_duty_cycle_range x) Hc). prog_fields.
  fold (toward (target_duty_cycle x) (current_duty_cycle st)).
  rewrite u16_duty; [reflexivity |].
  apply toward_range; [apply target_duty_cycle_range | exact Hc].
Qed.

(** The state a cycle leaves, field by field. *)
Lemma cycle_exec (i : input) (st : state) :
  duty_in_range st ->
  let s1 := exec (calculate_speed (in_now i))
              (exec (deliver_pulses (in_pulses i)) st) in
  let edge := falling_edge (last_button_state st) (in_button i) in
  let toggled := xorb (cruise_control_active st) edge in
  let v := pot_setpoint (in_adc i) in
  let changed := toggled && pot_changed v (last_pot_value st) in
  let active := toggled && negb (pot_changed v (last_pot_value st)) in
  let c' := toward (target_duty_cycle (if active then speed s1 else v))
                   (current_duty_cycle st) in
  exec (cycle i) st =
    mkState (pulse_count s1) (last_pulse_time s1) (speed s1) active c' v
      (in_button i)
      (log s1
       ++ (if edge then [Printf_cruise toggled; Sleep_ms 200] else [])
       ++ [Printf_pot v; Sleep_ms 1000]
       ++ (if changed then [Printf_cruise_pot; Sleep_ms 1000] else [])
       ++ [Pwm_set_gpio_level MOTOR_PIN c'; Printf_pwm c'; Sleep_ms 1000]
       ++ [Sleep_ms 100]).
Proof.
  intros Hc. cbv zeta.
  set (s0 := exec (deliver_pulses (in_pulses i)) st).
  set (s1 := exec (calculate_speed (in_now i)) s0).
  destruct (deliver_pulses_frame (in_pulses i) st) as (Ha0 & Hp0 & Hb0 & _).
  pose proof (deliver_pulses_duty (in_pulses i) st) as Hd0.
  destruct (calculate_speed_frame (in_now i) s0) as (Ha1 & Hd1 & Hp1 & Hb1).
  fold s0 in Ha0, Hp0, Hb0, Hd0. fold s1 in Ha1, Hd1, Hp1, Hb1.
  assert (Ha : cruise_control_active s1 = cruise_control_active st) by congruence.
  assert (Hd : current_duty_cycle s1 = current_duty_cycle st) by congruence.
  assert (Hp : last_pot_value s1 = last_pot_value st) by congruence.
  assert (Hb : last_button_state s1 = last_button_state st) by congruence.
  unfold cycle, main_iteration.
  rewrite exec_bind. fold s0. rewrite exec_bind. fold s1.
  rewrite exec_bind, main_button_exec, Hb, Ha.
  rewrite exec_bind.
  change (eval (read_potentiometer (in_adc i)) ?s) with (pot_setpoint (in_adc i)).
  rewrite read_potentiometer_state.
  change (eval (read_potentiometer (in_adc i)) ?s) with (pot_setpoint (in_adc i)).
  rewrite exec_bind, main_pot_change_exec.
  rewrite exec_bind, main_motor_exec, sleep_ms_exec.
  clearbody s1. clear s0 Ha0 Hp0 Hb0 Hd0 Ha1 Hd1 Hp1 Hb1.
  unfold duty_in_range in Hc.
  destruct (falling_edge (last_button_state st) (in_button i));
    destruct (cruise_control_active st); prog_fields; rewrite ?Hp; cbn [xorb negb andb];
    destruct (pot_changed (pot_setpoint (in_adc i)) (last_pot_value st));
    prog_fields; cbn [andb negb];
    (rewrite set_motor_speed_toward by (unfold duty_in_range; prog_fields; lia));
    cbv zeta; prog_fields; rewrite ?Hd, <- ?app_assoc; reflexivity.
Qed.

(** ** The pulse counter and the timer *)

(** X1.  [n] runs of [sensor_callback] add [n] to [pulse_count] modulo
    2^32 and change nothing else: no global, no output. *)
Theorem sensor_callback_counts (n : nat) (st : state) :
  0 <= pulse_count st < 4294967296 ->
  exec (deliver_pulses n) st =
    mkState ((pulse_count st + Z.of_nat n) mod 4294967296)
      (last_pulse_time st) (speed st) (cruise_control_active st)
      (current_duty_cycle st) (last_pot_value st) (last_button_state st)
      (log st) /\
  (pulse_count st + Z.of_nat n < 4294967296 ->
     pulse_count (exec (deliver_pulses n) st) = pulse_count st + Z.of_nat n).
Proof.
  intros Hpc. rewrite (deliver_pulses_exec n st Hpc). split; [reflexivity |].
  intros Hlt. prog_fields. apply u32_small. lia.
Qed.

Lemma sensor_callback_counts_witness :
  pulse_count (exec (deliver_pulses 5)
                 (mkState 4294967294 0 (S754_zero false) false 0
                    (S754_zero false) true [])) = 3.
Proof.
  assert (H : 0 <= 4294967294 < 4294967296) by lia.
  destruct (sensor_callback_counts 5
              (mkState 4294967294 0 (S754_zero false) false 0
                 (S754_zero false) true []) H) as (E & _).
  rewrite E. reflexivity.
Defined.

Lemma cycle_sensor (i : input) (st : state) :
  duty_in_range st -> sensor_idle st ->
  let c := u32 (pulse_count st + Z.of_nat (in_pulses i)) in
  let st' := exec (cycle i) st in
  pulse_count st' = (if PULSES_PER_REV <=? c then 0 else c) /\
  last_pulse_time st' =
    (if PULSES_PER_REV <=? c then u32 (in_now i) else last_pulse_time st) /\
  speed st' =
    (if PULSES_PER_REV <=? c then rpm_of_elapsed (elapsed_ms (in_now i) st)
     else speed st) /\
  sensor_idle st'.
Proof.
  intros Hd (Hpc & Hlt). cbv zeta.
  rewrite (cycle_exec i st Hd). prog_fields.
  assert (Hpc' : 0 <= pulse_count st < 4294967296)
    by (unfold PULSES_PER_REV in Hpc; lia).
  rewrite (deliver_pulses_exec _ st Hpc').
  rewrite calculate_speed_exec. prog_fields.
  set (c := u32 (pulse_count st + Z.of_nat (in_pulses i))).
  assert (Hc : 0 <= c < 4294967296) by (apply Z.mod_pos_bound; lia).
  unfold sensor_idle.
  destruct (Z.leb_spec PULSES_PER_REV c) as [Hge | Hlow]; prog_fields.
  - repeat split; try reflexivity; try (unfold PULSES_PER_REV; lia);
      apply Z.mod_pos_bound; lia.
  - repeat split; try reflexivity; lia.
Qed.

Lemma run_invariant (inputs : list input) (st : state) :
  duty_in_range st -> sensor_idle st ->
  duty_in_range (run inputs st) /\ sensor_idle (run inputs st).
Proof.
  revert st. induction inputs as [| i rest IH]; intros st Hd Hs; cbn [run].
  - split; assumption.
  - apply IH.
    + apply (cycle_step i st Hd).
    + apply (cycle_sensor i st Hd Hs).
Qed.

Lemma initial_state_idle : sensor_idle initial_state.
Proof. unfold sensor_idle, PULSES_PER_REV. cbn. lia. Qed.

(** *** Interrupts during the rest of the loop body *)

Ltac frame_blocks :=
  intros p st; destruct st; prog_unfold; unfold with_pulse_count; prog_fields;
  repeat match goal with
         | |- context [if ?b then _ else _] => destruct b; prog_fields
         end;
  reflexivity.

Lemma main_button_ignores (b : bool) : ignores_pulse_count (main_button b).
Proof. unfold main_button. frame_blocks. Qed.

Lemma read_potentiometer_ignores (raw : Z) :
  ignores_pulse_count (read_potentiometer raw).
Proof. unfold read_potentiometer. frame_blocks. Qed.

Lemma main_pot_change_ignores (v : float32) :
  ignores_pulse_count (main_pot_change v).
Proof. unfold main_pot_change. frame_blocks. Qed.

Lemma main_motor_ignores (v : float32) : ignores_pulse_count (main_motor v).
Proof.
  unfold main_motor, set_motor_speed, ramp. frame_blocks.
Qed.

Lemma sleep_ms_ignores (ms : Z) : ignores_pulse_count (sleep_ms ms).
Proof. unfold sleep_ms. frame_blocks. Qed.

Lemma with_pulse_count_same (st : state) :
  with_pulse_count (pulse_count st) st = st.
Proof. destruct st. reflexivity. Qed.

Lemma ignores_exec {A} (c : M A) (p : Z) (st : state) :
  ignores_pulse_count c ->
  exec c (with_pulse_count p st) = with_pulse_count p (exec c st) /\
  eval c (with_pulse_count p st) = eval c st /\
  pulse_count (exec c st) = pulse_count st.
Proof.
  intros H. unfold exec, eval. rewrite (H p st). cbn [fst snd].
  split; [reflexivity | split; [reflexivity |]].
  pose proof (H (pulse_count st) st) as Hs.
  rewrite with_pulse_count_same in Hs.
  rewrite Hs at 1. reflexivity.
Qed.

(** The counter after [n] interrupts. *)
Lemma deliver_pulses_moves_count (n : nat) (st : state) :
  0 <= pulse_count st < 4294967296 ->
  exec (deliver_pulses n) st = with_pulse_count (u32 (pulse_count st + Z.of_nat n)) st.
Proof. intros H. rewrite (deliver_pulses_exec n st H). reflexivity. Qed.

Lemma deliver_after_block {A} (c : M A) (n : nat) (q : Z) (st : state) :
  ignores_pulse_count c ->
  0 <= q < 4294967296 ->
  exec c (exec (deliver_pulses n) (with_pulse_count q st)) =
    with_pulse_count (u32 (q + Z.of_nat n)) (exec c st) /\
  eval c (exec (deliver_pulses n) (with_pulse_count q st)) = eval c st.
Proof.
  intros Hc Hq.
  rewrite (deliver_pulses_moves_count n (with_pulse_count q st)) by exact Hq.
  cbn [pulse_count with_pulse_count].
  change (with_pulse_count (u32 (q + Z.of_nat n)) (with_pulse_count q st))
    with (with_pulse_count (u32 (q + Z.of_nat n)) st).
  destruct (ignores_exec c (u32 (q + Z.of_nat n)) st Hc) as (He & Hv & _).
  split; assumption.
Qed.

Lemma u32_range (n : Z) : 0 <= u32 n < 4294967296.
Proof. unfold u32. apply Z.mod_pos_bound. lia. Qed.

Lemma u32_add_nat (q : Z) (a b : nat) :
  u32 (u32 (q + Z.of_nat a) + Z.of_nat b) = u32 (q + Z.of_nat (a + b)).
Proof.
  unfold u32. rewrite Z.add_mod_idemp_l by lia. f_equal. lia.
Qed.

(** The body after [calculate_speed] is what [main_iteration] goes on
    with. *)
Lemma main_iteration_rest (i : input) (st : state) :
  exec (main_iteration i) st =
    exec (loop_rest i) (exec (calculate_speed (in_now i)) st).
Proof. unfold main_iteration, loop_rest. rewrite exec_bind. reflexivity. Qed.

Lemma loop_rest_with_exec (n1 n2 n3 n4 n5 n6 : nat) (i : input) (st : state) :
  0 <= pulse_count st < 4294967296 ->
  exec (loop_rest_with n1 n2 n3 n4 n5 n6 i) st =
    with_pulse_count
      (u32 (pulse_count st + Z.of_nat (n1 + n2 + n3 + n4 + n5 + n6)))
      (exec (loop_rest i) st).
Proof.
  intros Hq. unfold loop_rest_with, loop_rest.
  rewrite <- (with_pulse_count_same st) at 1.
  set (q := pulse_count st) in *.
  (* the button block *)
  rewrite exec_bind, exec_bind.
  destruct (deliver_after_block (main_button (in_button i)) n1 q st
              (main_button_ignores _) Hq) as (-> & _).
  rewrite (exec_bind (main_button (in_button i))).
  set (s1 := exec (main_button (in_button i)) st).
  set (q1 := u32 (q + Z.of_nat n1)).
  (* [read_potentiometer] *)
  rewrite exec_bind, exec_bind.
  destruct (deliver_after_block (read_potentiometer (in_adc i)) n2 q1 s1
              (read_potentiometer_ignores _) (u32_range _)) as (-> & ->).
  rewrite (exec_bind (read_potentiometer (in_adc i))).
  set (v := eval (read_potentiometer (in_adc i)) s1).
  set (s2 := exec (read_potentiometer (in_adc i)) s1).
  set (q2 := u32 (q1 + Z.of_nat n2)).
  (* the change test *)
  rewrite exec_bind, exec_bind.
  destruct (deliver_after_block (main_pot_change v) n3 q2 s2
              (main_pot_change_ignores _) (u32_range _)) as (-> & _).
  rewrite (exec_bind (main_pot_change v)).
  set (s3 := exec (main_pot_change v) s2).
  set (q3 := u32 (q2 + Z.of_nat n3)).
  (* the motor block *)
  rewrite exec_bind, exec_bind.
  destruct (deliver_after_block (main_motor v) n4 q3 s3
              (main_motor_ignores _) (u32_range _)) as (-> & _).
  rewrite (exec_bind (main_motor v)).
  set (s4 := exec (main_motor v) s3).
  set (q4 := u32 (q3 + Z.of_nat n4)).
  (* the pause of the loop *)
  rewrite exec_bind, exec_bind.
  destruct (deliver_after_block (sleep_ms 100) n5 q4 s4
              (sleep_ms_ignores _) (u32_range _)) as (-> & _).
  set (s5 := exec (sleep_ms 100) s4).
  rewrite deliver_pulses_moves_count
    by (cbn [pulse_count with_pulse_count]; apply u32_range).
  cbn [pulse_count with_pulse_count].
  unfold q4, q3, q2, q1. rewrite !u32_add_nat.
  unfold with_pulse_count.
  cbn [pulse_count last_pulse_time speed cruise_control_active
       current_duty_cycle last_pot_value last_button_state log].
  do 2 f_equal. lia.
Qed.

Lemma loop_rest_ignores (i : input) (st : state) :
  pulse_count (exec (loop_rest i) st) = pulse_count st.
Proof.
  pose proof (loop_rest_with_exec 0 0 0 0 0 0 i) as H.
  unfold loop_rest.
  rewrite exec_bind.
  destruct (ignores_exec (main_button (in_button i)) 0 st (main_button_ignores _))
    as (_ & _ & <-).
  set (s1 := exec (main_button (in_button i)) st).
  rewrite exec_bind.
  destruct (ignores_exec (read_potentiometer (in_adc i)) 0 s1
              (read_potentiometer_ignores _)) as (_ & _ & <-).
  set (v := eval (read_potentiometer (in_adc i)) s1).
  set (s2 := exec (read_potentiometer (in_adc i)) s1).
  rewrite exec_bind.
  destruct (ignores_exec (main_pot_change v) 0 s2 (main_pot_change_ignores _))
    as (_ & _ & <-).
  set (s3 := exec (main_pot_change v) s2).
  rewrite exec_bind.
  destruct (ignores_exec (main_motor v) 0 s3 (main_motor_ignores _))
    as (_ & _ & <-).
  destruct (ignores_exec (sleep_ms 100) 0 (exec (main_motor v) s3)
              (sleep_ms_ignores _)) as (_ & _ & ->).
  reflexivity.
Qed.

(** X2.  A sensor interrupt anywhere in the loop body after
    [calculate_speed] only moves the counter.  With interrupts between
    the blocks of lines 114-141 the body leaves the state it leaves
    without them, except [pulse_count], which has grown by their number
    modulo 2^32: no block sees them and none is lost.  The test of line 32
    in the next iteration reads them, as if they had all come just before
    it. *)
Theorem pulses_accumulate
    (n1 n2 n3 n4 n5 n6 : nat) (i j : input) (st : state) :
  0 <= pulse_count st < 4294967296 ->
  let n := (n1 + n2 + n3 + n4 + n5 + n6)%nat in
  let st' := exec (loop_rest_with n1 n2 n3 n4 n5 n6 i) st in
  exec (main_iteration i) st =
    exec (loop_rest i) (exec (calculate_speed (in_now i)) st) /\
  st' = with_pulse_count ((pulse_count st + Z.of_nat n) mod 4294967296)
          (exec (loop_rest i) st) /\
  st' = exec (deliver_pulses n) (exec (loop_rest i) st) /\
  exec (main_iteration j) st' =
    exec (cycle (mkInput n (in_now j) (in_button j) (in_adc j)))
         (exec (loop_rest i) st).
Proof.
  intros Hq n st'.
  assert (H1 : st' = with_pulse_count (u32 (pulse_count st + Z.of_nat n))
                       (exec (loop_rest i) st)).
  { apply loop_rest_with_exec. exact Hq. }
  assert (H2 : st' = exec (deliver_pulses n) (exec (loop_rest i) st)).
  { rewrite H1, deliver_pulses_moves_count, loop_rest_ignores;
      [reflexivity | rewrite loop_rest_ignores; exact Hq]. }
  split; [apply main_iteration_rest |].
  split; [exact H1 |]. split; [exact H2 |].
  rewrite H2. unfold cycle. rewrite exec_bind. reflexivity.
Qed.

Lemma pulses_accumulate_witness :
  let i := mkInput 0 100 false 0 in
  let j := mkInput 0 5100 true 0 in
  let st' := exec (loop_rest_with 1 0 1 0 1 0 i) initial_state in
  pulse_count st' = 3 /\
  cruise_control_active st' = true /\
  pulse_count (exec (main_iteration j) st') = 0 /\
  last_pulse_time (exec (main_iteration j) st') = 5100.
Proof.
  cbv zeta.
  assert (Hq : 0 <= pulse_count initial_state < 4294967296) by (cbn; lia).
  destruct (pulses_accumulate 1 0 1 0 1 0 (mkInput 0 100 false 0)
              (mkInput 0 5100 true 0) initial_state Hq)
    as (_ & H1 & _ & H4).
  cbv zeta in H1, H4. rewrite H4, H1.
  vm_compute. repeat split; reflexivity.
Defined.

(** X3.  The interval of [calculate_speed] is right across a wrap of the
    32-bit millisecond timer: a call [d] ms (below 2^32) after the stored
    instant stores the speed of an interval of [d] ms, also when the timer
    has passed 2^32 in between. *)
Theorem elapsed_across_timer_wrap (d : Z) (st : state) :
  PULSES_PER_REV <= pulse_count st ->
  0 <= last_pulse_time st < 4294967296 ->
  0 <= d < 4294967296 ->
  let now := (last_pulse_time st + d) mod 4294967296 in
  elapsed_ms now st = d /\
  speed (exec (calculate_speed now) st) = rpm_of_elapsed d.
Proof.
  intros Hn Hl Hd now.
  assert (He : elapsed_ms now st = d).
  { unfold elapsed_ms, u32, now.
    rewrite Z.mod_mod by lia. rewrite Zminus_mod_idemp_l.
    replace (last_pulse_time st + d - last_pulse_time st) with d by lia.
    apply Z.mod_small. exact Hd. }
  split; [exact He |].
  rewrite calculate_speed_exec.
  destruct (Z.leb_spec PULSES_PER_REV (pulse_count st)); [| lia].
  prog_fields. rewrite He. reflexivity.
Qed.

Lemma elapsed_across_timer_wrap_witness :
  let st := mkState 3 4294967000 (S754_zero false) false 0 (S754_zero false)
              true [] in
  elapsed_ms 1204 st = 1500 /\
  speed (exec (calculate_speed 1204) st) = f32_of_Z 40.
Proof.
  intros st.
  assert (Hn : PULSES_PER_REV <= pulse_count st) by (vm_compute; discriminate).
  assert (Hl : 0 <= last_pulse_time st < 4294967296) by (cbn; lia).
  assert (Hd : 0 <= 1500 < 4294967296) by lia.
  destruct (elapsed_across_timer_wrap 1500 st Hn Hl Hd) as (H1 & H2).
  change ((last_pulse_time st + 1500) mod 4294967296) with 1204 in H1, H2.
  split; [exact H1 |]. rewrite H2. vm_compute. reflexivity.
Defined.

(** ** More on rounding: signs and powers of two *)

Lemma iter_shr_1_nonneg (n : positive) :
  forall mrs : shr_record, 0 <= shr_m mrs -> 0 <= shr_m (iter_pos shr_1 n mrs).
Proof.
  assert (Hone : forall mrs, 0 <= shr_m mrs -> 0 <= shr_m (shr_1 mrs)).
  { intros mrs Hm. rewrite (shr_1_spec mrs Hm). cbn [shr_m].
    apply Z.div_pos; lia. }
  induction n as [n IH | n IH |]; intros mrs Hm; cbn [iter_pos]; auto.
Qed.

Lemma shr_nonneg (mrs : shr_record) (e n : Z) :
  0 <= shr_m mrs -> 0 <= shr_m (fst (shr mrs e n)).
Proof.
  intros Hm. unfold shr. destruct n; cbn [fst]; try exact Hm.
  apply iter_shr_1_nonneg. exact Hm.
Qed.

Lemma round_nearest_even_nonneg (m : Z) (l : location) :
  0 <= m -> 0 <= round_nearest_even m l.
Proof.
  intros Hm. unfold round_nearest_even.
  destruct l as [| [ | | ]]; try destruct (Z.even m); lia.
Qed.

(** Whatever is rounded, the result carries the given sign and is no NaN. *)
Lemma binary_round_aux_shape (prec emax : Z) (s : bool) (mx ex : Z)
    (lx : location) :
  0 <= mx ->
  not_positive (binary_round_aux prec emax s mx ex lx) = true \/ s = false.
Proof.
  intros Hmx. destruct s; [left | right; reflexivity].
  unfold binary_round_aux, shr_fexp.
  pose proof (shr_nonneg (shr_record_of_loc mx lx) ex
                (fexp prec emax (Zdigits2 mx + ex) - ex)) as H1.
  rewrite shr_record_of_loc_m in H1. specialize (H1 Hmx).
  destruct (shr (shr_record_of_loc mx lx) ex _) as [mrs1 e1].
  cbn [fst] in H1.
  set (m2 := round_nearest_even (shr_m mrs1) (loc_of_shr_record mrs1)).
  assert (H2 : 0 <= m2) by (apply round_nearest_even_nonneg; exact H1).
  pose proof (shr_nonneg (shr_record_of_loc m2 loc_Exact) e1
                (fexp prec emax (Zdigits2 m2 + e1) - e1)) as H3.
  rewrite shr_record_of_loc_m in H3. specialize (H3 H2).
  destruct (shr (shr_record_of_loc m2 loc_Exact) e1 _) as [mrs2 e2].
  cbn [fst] in H3.
  destruct (shr_m mrs2) as [| p | p]; try lia.
  - reflexivity.
  - destruct (e2 <=? emax - prec); reflexivity.
Qed.

Lemma SFdiv_not_positive (prec emax : Z) (x : spec_float) (m : positive) (e : Z) :
  not_positive x = true ->
  not_positive (SFdiv prec emax x (S754_finite false m e)) = true.
Proof.
  destruct x as [s | s | | s mx ex]; cbn [not_positive]; intros Hx;
    try discriminate.
  - reflexivity.
  - subst s. reflexivity.
  - subst s. unfold SFdiv.
    destruct (SFdiv_core_binary prec emax (Zpos mx) ex (Zpos m) e)
      as [[q e'] l] eqn:Ecore.
    destruct (binary_round_aux_shape prec emax (xorb true false) q e' l)
      as [H | H]; [| exact H | discriminate].
    unfold SFdiv_core_binary in Ecore.
    set (m' := match _ with 0 => Zpos mx | Zpos _ => _ | Zneg _ => 0 end) in Ecore.
    assert (Hm' : 0 <= m').
    { unfold m'. destruct (ex - e - _); try lia. apply Z.shiftl_nonneg. lia. }
    pose proof (Z_div_mod m' (Zpos m) eq_refl) as Hdm.
    destruct (Z.div_eucl m' (Zpos m)) as [q0 r0]. destruct Hdm as (Hq & Hr).
    injection Ecore as <- _ _. nia.
Qed.

Lemma SFmul_not_positive (prec emax : Z) (x : spec_float) (m : positive) (e : Z) :
  not_positive x = true ->
  not_positive (SFmul prec emax x (S754_finite false m e)) = true.
Proof.
  destruct x as [s | s | | s mx ex]; cbn [not_positive]; intros Hx;
    try discriminate.
  - reflexivity.
  - subst s. reflexivity.
  - subst s. unfold SFmul.
    destruct (binary_round_aux_shape prec emax (xorb true false)
                (Zpos (mx * m)) (ex + e) loc_Exact) as [H | H];
      [lia | exact H | discriminate].
Qed.

Lemma float_to_int_not_positive (x : float32) :
  not_positive x = true -> float_to_int x <= 0.
Proof.
  destruct x as [s | s | | s m e]; cbn [not_positive float_to_int]; intros Hx;
    try discriminate.
  - subst s. unfold INT_MIN. lia.
  - subst s. destruct (trunc_pos_floor m e) as (_ & Hpos).
    unfold saturate, INT_MIN, INT_MAX. lia.
Qed.

(** X4.  A target speed that is zero or negative (minus infinity
    included) gives the target level 0, so from any level of the PWM
    range the duty falls toward 0. *)
Theorem target_zero_for_non_positive_speed (x : float32) (st : state) :
  not_positive x = true ->
  duty_in_range st ->
  target_duty_cycle x = 0 /\
  current_duty_cycle (exec (set_motor_speed x) st) =
    Z.max 0 (current_duty_cycle st - duty_cycle_step).
Proof.
  intros Hx Hc.
  assert (Ht : target_duty_cycle x = 0).
  { rewrite target_duty_cycle_clamp.
    assert (Hp : float_to_int
                   (f32_mul (f32_div x (f32_of_Z TARGET_SPEED))
                            (f32_of_Z MOTOR_MAX_DUTY_CYCLE)) <= 0).
    { apply float_to_int_not_positive.
      change (f32_of_Z MOTOR_MAX_DUTY_CYCLE) with (S754_finite false 16711680 (-16)).
      change (f32_of_Z TARGET_SPEED) with (S754_finite false 10485760 (-19)).
      apply SFmul_not_positive, SFdiv_not_positive. exact Hx. }
    set (p := float_to_int _) in *. unfold MOTOR_MAX_DUTY_CYCLE. lia. }
  split; [exact Ht |].
  rewrite (set_motor_speed_toward x st Hc). cbv zeta. prog_fields.
  rewrite Ht. unfold toward, duty_in_range, duty_cycle_step in *.
  destruct (Z.ltb_spec (current_duty_cycle st) 0); lia.
Qed.

Lemma target_zero_for_non_positive_speed_witness :
  let x := S754_finite true 10485760 (-18) in
  let st := mkState 0 0 (S754_zero false) false 200 (S754_zero false) true [] in
  target_duty_cycle x = 0 /\
  current_duty_cycle (exec (set_motor_speed x) st) = 180.
Proof.
  intros x st.
  assert (Hx : not_positive x = true) by reflexivity.
  assert (Hc : duty_in_range st) by (vm_compute; split; discriminate).
  destruct (target_zero_for_non_positive_speed x st Hx Hc) as (H1 & H2).
  split; [exact H1 | exact H2].
Defined.

(** ** Repeated calls with one target speed *)

Lemma motor_calls_repeat (x : float32) (n : nat) (st : state) :
  duty_in_range st ->
  current_duty_cycle (motor_calls (repeat x n) st) =
    if current_duty_cycle st <=? target_duty_cycle x
    then Z.min (current_duty_cycle st + duty_cycle_step * Z.of_nat n)
               (target_duty_cycle x)
    else Z.max (current_duty_cycle st - duty_cycle_step * Z.of_nat n)
               (target_duty_cycle x).
Proof.
  revert st. induction n as [| n IH]; intros st Hc.
  - cbn [repeat motor_calls]. unfold duty_cycle_step.
    destruct (Z.leb_spec (current_duty_cycle st) (target_duty_cycle x)); lia.
  - cbn [repeat motor_calls].
    destruct (set_motor_speed_step x st Hc) as (Hr & _).
    rewrite (IH _ Hr). rewrite (set_motor_speed_toward x st Hc).
    cbv zeta. prog_fields.
    pose proof (target_duty_cycle_range x) as Ht.
    unfold toward, duty_in_range, duty_cycle_step, MOTOR_MAX_DUTY_CYCLE in *.
    set (t := target_duty_cycle x) in *. set (c := current_duty_cycle st) in *.
    destruct (Z.ltb_spec c t); destruct (Z.leb_spec c t); try lia.
    + destruct (Z.leb_spec (Z.min (c + 20) t) t); lia.
    + destruct (Z.leb_spec (Z.max (c - 20) t) t); lia.
    + destruct (Z.leb_spec (Z.max (c - 20) t) t); lia.
Qed.

(** X5.  Called again and again with one target speed, [set_motor_speed]
    brings the duty level to the target in steps of 20: the level after
    [n] calls is the start plus or minus 20 * n cut at the target, it lies
    between start and target (no overshoot), it is the target after at
    most 13 calls, and once there it stays. *)
Theorem set_motor_speed_converges (x : float32) (n : nat) (st : state) :
  duty_in_range st ->
  let t := target_duty_cycle x in
  let c := current_duty_cycle st in
  let after k := current_duty_cycle (motor_calls (repeat x k) st) in
  after n = (if c <=? t then Z.min (c + 20 * Z.of_nat n) t
             else Z.max (c - 20 * Z.of_nat n) t) /\
  (c <= t -> c <= after n <= t) /\
  (t <= c -> t <= after n <= c) /\
  ((13 <= n)%nat -> after n = t) /\
  (after n = t -> after (S n) = t).
Proof.
  intros Hc t c after. unfold after.
  rewrite !(motor_calls_repeat x _ st Hc). fold t c.
  pose proof (target_duty_cycle_range x) as Ht. fold t in Ht.
  unfold duty_in_range, duty_cycle_step, MOTOR_MAX_DUTY_CYCLE in *. fold c in Hc.
  destruct (Z.leb_spec c t); repeat split; intros; lia.
Qed.

Lemma set_motor_speed_converges_witness :
  let x := f32_of_Z 10 in
  let st := mkState 0 0 (S754_zero false) false 255 (S754_zero false) true [] in
  current_duty_cycle (motor_calls (repeat x 3) st) = 195 /\
  current_duty_cycle (motor_calls (repeat x 7) st) = 127 /\
  current_duty_cycle (motor_calls (repeat x 8) st) = 127.
Proof.
  intros x st.
  assert (Hc : duty_in_range st) by (vm_compute; split; discriminate).
  destruct (set_motor_speed_converges x 3 st Hc) as (H3 & _).
  destruct (set_motor_speed_converges x 7 st Hc) as (H7 & _ & _ & _ & Hstay).
  cbv zeta in H3, H7, Hstay.
  assert (E7 : current_duty_cycle (motor_calls (repeat x 7) st) = 127)
    by (rewrite H7; vm_compute; reflexivity).
  split; [rewrite H3; vm_compute; reflexivity | split; [exact E7 |]].
  apply Hstay. rewrite E7. vm_compute. reflexivity.
Defined.

(** ** Rounding keeps a power of two below the exact value *)

Section Round_pow2.

Variables prec emax : Z.
Hypothesis Hprec : 0 < prec.

Lemma binary_round_aux_ge_pow2 (s : bool) (mx ex : Z) (lx : location) (x : Q)
    (k : Z) (m' : positive) (e' : Z) :
  0 < mx ->
  located_at (shr_record_of_loc mx lx) ex x ->
  prec <= Zdigits2 mx ->
  emin prec emax <= Zdigits2 mx + ex - prec ->
  Zdigits2 mx + ex < emax ->
  binary_round_aux prec emax s mx ex lx = S754_finite s m' e' ->
  (2 ^ k <= x)%Q ->
  (2 ^ k <= inject_Z (Zpos m') * 2 ^ e')%Q.
Proof.
  intros Hmx Hloc Hd Hmin Hmax Hres Hk.
  destruct (binary_round_aux_spec prec emax Hprec s mx ex lx x Hmx Hloc Hd Hmin Hmax)
    as (m0 & e0 & Hres0 & Hm0 & He0 & _).
  rewrite Hres in Hres0. injection Hres0 as <- <-.
  destruct (located_bounds _ _ _ _ Hloc) as (_ & Hup).
  pose proof (Zdigits2_bounds mx Hmx) as Hb.
  set (d := Zdigits2 mx) in *.
  pose proof (Q2_pos ex) as Pex.
  assert (Hx : (x < 2 ^ (d + ex))%Q).
  { rewrite Q2_add.
    assert (H1 : (inject_Z mx + 1 <= 2 ^ d)%Q).
    { rewrite <- Q2_inject by lia. change 1%Q with (inject_Z 1).
      rewrite <- inject_Z_plus, <- Zle_Qle. lia. }
    nra. }
  assert (Hkd : k < d + ex).
  { apply Q2_lt_inv. apply Qle_lt_trans with x; assumption. }
  apply Qle_trans with (2 ^ (prec - 1 + e'))%Q.
  - apply Q2_le. lia.
  - rewrite Q2_add. apply Qmult_le_r; [apply Q2_pos |].
    rewrite <- Q2_inject by lia. rewrite <- Zle_Qle. lia.
Qed.

(** The quotient [SFdiv] rounds, with what [binary_round_aux_spec] asks
    of it. *)
Lemma SFdiv_as_round (sx sy : bool) (m1 m2 : positive) (e1 e2 : Z) (x : Q) :
  let D := Zdigits2 (Zpos m1) + e1 - (Zdigits2 (Zpos m2) + e2) in
  emin prec emax <= D - prec ->
  D + 1 < emax ->
  (x * (inject_Z (Zpos m2) * 2 ^ e2) == inject_Z (Zpos m1) * 2 ^ e1)%Q ->
  exists (q e' : Z) (l : location),
    SFdiv prec emax (S754_finite sx m1 e1) (S754_finite sy m2 e2)
      = binary_round_aux prec emax (xorb sx sy) q e' l /\
    0 < q /\
    located_at (shr_record_of_loc q l) e' x /\
    prec <= Zdigits2 q /\
    emin prec emax <= Zdigits2 q + e' - prec /\
    Zdigits2 q + e' < emax.
Proof.
  intros D Hmin Hmax Hx.
  pose proof (Zdigits2_bounds (Zpos m1) eq_refl) as Hb1.
  pose proof (Zdigits2_bounds (Zpos m2) eq_refl) as Hb2.
  assert (Hd1 : 0 < Zdigits2 (Zpos m1)) by (cbn; lia).
  assert (Hd2 : 0 < Zdigits2 (Zpos m2)) by (cbn; lia).
  unfold SFdiv, SFdiv_core_binary.
  set (d1 := Zdigits2 (Zpos m1)) in *. set (d2 := Zdigits2 (Zpos m2)) in *.
  fold D. rewrite (fexp_normal prec emax D Hmin).
  set (e' := Z.min (D - prec) (e1 - e2)).
  set (s := e1 - e2 - e').
  assert (Hs : 0 <= s) by (unfold s, e'; lia).
  set (m' := match s with
             | 0 => Zpos m1
             | Zpos _ => Z.shiftl (Zpos m1) s
             | Zneg _ => 0
             end).
  assert (Hm' : m' = Zpos m1 * 2 ^ s).
  { unfold m'. destruct s as [| p | p]; try lia.
    apply Z.shiftl_mul_pow2. lia. }
  clearbody m'.
  pose proof (Z_div_mod m' (Zpos m2) eq_refl) as Hdm.
  destruct (Z.div_eucl m' (Zpos m2)) as [q r]. destruct Hdm as (Hq & Hr).
  set (K := D - 1 - e').
  assert (HK : prec - 1 <= K) by (unfold K, e'; lia).
  assert (Hs2 : 0 < 2 ^ s) by (apply Z.pow_pos_nonneg; lia).
  assert (HK2 : 0 < 2 ^ K) by (apply Z.pow_pos_nonneg; lia).
  assert (E1 : 2 ^ (d1 - 1) * 2 ^ s = 2 ^ K * 2 ^ d2).
  { rewrite <- !Z.pow_add_r by lia. f_equal. unfold K, s, D. lia. }
  assert (E2 : 2 ^ d1 * 2 ^ s = 2 ^ (K + 2) * 2 ^ (d2 - 1)).
  { rewrite <- !Z.pow_add_r by lia. f_equal. unfold K, s, D. lia. }
  assert (Hq1 : 2 ^ K <= q) by nia.
  assert (HK3 : 0 < 2 ^ (d2 - 1)) by (apply Z.pow_pos_nonneg; lia).
  assert (Hq2 : q < 2 ^ (K + 2)) by nia.
  assert (Hqpos : 0 < q) by lia.
  pose proof (Zdigits2_bounds q Hqpos) as Hbq.
  assert (Hdq : K + 1 <= Zdigits2 q <= K + 2).
  { split.
    - assert (K < Zdigits2 q); [| lia].
      apply (Z.pow_lt_mono_r_iff 2); [lia | | lia].
      rewrite (Zdigits2_log2 q Hqpos). pose proof (Z.log2_nonneg q). lia.
    - assert (Zdigits2 q - 1 < K + 2); [| lia].
      apply (Z.pow_lt_mono_r_iff 2); lia. }
  exists q, e', (new_location (Zpos m2) r).
  split; [reflexivity | split; [exact Hqpos | split]].
  - apply new_location_located; [lia | exact Hr |].
    pose proof (Q2_pos e2) as Hp2.
    apply (Qmult_inj_r _ _ (2 ^ e2)%Q); [lra |].
    rewrite <- Qmult_assoc, Hx.
    rewrite <- inject_Z_mult, <- inject_Z_plus.
    replace (q * Zpos m2 + r) with m' by lia.
    rewrite Hm', inject_Z_mult, Q2_inject by exact Hs.
    rewrite <- !Qmult_assoc, <- !Q2_add.
    replace (s + (e' + e2)) with e1 by (unfold s; lia). reflexivity.
  - unfold K, e' in *. lia.
Qed.

Lemma SFdiv_ge_pow2 (sx sy : bool) (m1 m2 : positive) (e1 e2 : Z) (x : Q)
    (k : Z) (m' : positive) (e' : Z) :
  let D := Zdigits2 (Zpos m1) + e1 - (Zdigits2 (Zpos m2) + e2) in
  emin prec emax <= D - prec ->
  D + 1 < emax ->
  (x * (inject_Z (Zpos m2) * 2 ^ e2) == inject_Z (Zpos m1) * 2 ^ e1)%Q ->
  SFdiv prec emax (S754_finite sx m1 e1) (S754_finite sy m2 e2)
    = S754_finite (xorb sx sy) m' e' ->
  (2 ^ k <= x)%Q ->
  (2 ^ k <= inject_Z (Zpos m') * 2 ^ e')%Q.
Proof.
  intros D Hmin Hmax Hx Hres Hk.
  destruct (SFdiv_as_round sx sy m1 m2 e1 e2 x Hmin Hmax Hx)
    as (q & eq & l & Hdiv & Hq & Hloc & Hd & Hlo & Hhi).
  rewrite Hdiv in Hres.
  apply (binary_round_aux_ge_pow2 (xorb sx sy) q eq l x k m' e'); assumption.
Qed.

End Round_pow2.

(** ** Full duty from the reference speed on *)

Lemma floor_at_least (n : Z) (q : Q) : (inject_Z n <= q)%Q -> n <= Qfloor q.
Proof.
  intros H. apply Qfloor_resp_le in H. rewrite Qfloor_Z in H. exact H.
Qed.

(** X6.  A target speed of at least TARGET_SPEED (20 RPM, any normal
    float from there up to 2^27) gives the full target level 255: the
    product line 44 converts is below 2^31 there, so the conversion is
    defined and the level is 255 whatever a build does elsewhere. *)
Theorem target_full_from_reference_speed (x : float32) (vx : Q) :
  normal_in 24 x (-100) 27 vx ->
  (inject_Z TARGET_SPEED <= vx)%Q ->
  target_duty_cycle x = MOTOR_MAX_DUTY_CYCLE /\
  fits_int (duty_product x) = true /\
  (forall u : Z, target_duty_cycle_or u x = MOTOR_MAX_DUTY_CYCLE).
Proof.
  intros Hx27 Hge.
  assert (Hx : normal_in 24 x (-100) 100 vx)
    by (apply (normal_in_weaken 24 _ _ _ (-100) 100 _ Hx27); lia).
  assert (Hfit : fits_int (duty_product x) = true).
  { destruct (duty_product_tolerance x vx Hx) as (Hfin & Hlo & Hhi).
    cbv zeta in Hlo, Hhi.
    destruct (normal_in_upper 24 _ _ _ _ eq_refl Hx27) as (_ & Hup).
    assert (e27 : (2 ^ 27 == 134217728)%Q) by reflexivity.
    rewrite e27 in Hup.
    change (inject_Z TARGET_SPEED) with 20%Q in Hge.
    apply (fits_int_small _ Hfin).
    assert (HX : (vx / 20 * 255 == vx * (51 # 4))%Q) by field.
    rewrite HX in Hlo, Hhi.
    set (P := SF2Q (duty_product x)) in *. clearbody P.
    apply Qabs_case; intros _; lra. }
  assert (Hfull : target_duty_cycle x = MOTOR_MAX_DUTY_CYCLE);
    [| split; [exact Hfull | split; [exact Hfit |];
       intros u; rewrite (target_duty_cycle_or_fits u x Hfit); exact Hfull]].

  pose proof Hx as (m & e & Ex & Hm & He & Hv).
  pose proof (normal_in_digits 24 m eq_refl Hm) as Hd.
  assert (H20 : (inject_Z 10485760 * 2 ^ (-19) == 20)%Q) by reflexivity.
  assert (Hq : (vx / 20 * (inject_Z 10485760 * 2 ^ (-19))
                == inject_Z (Zpos m) * 2 ^ e)%Q).
  { rewrite H20, <- Hv. field. }
  assert (Hone : (2 ^ 0 <= vx / 20)%Q).
  { change (2 ^ 0)%Q with 1%Q. change (inject_Z TARGET_SPEED) with 20%Q in Hge.
    apply Qle_shift_div_l; lra. }
  assert (Hlo : emin prec32 emax32
                <= Zdigits2 (Zpos m) + e - (Zdigits2 10485760 + -19) - prec32).
  { rewrite Hd. unfold emin, prec32, emax32. cbn [Zdigits2 digits2_pos Pos.succ]. lia. }
  assert (Hhi : Zdigits2 (Zpos m) + e - (Zdigits2 10485760 + -19) + 1 < emax32).
  { rewrite Hd. unfold emax32. cbn [Zdigits2 digits2_pos Pos.succ]. lia. }
  destruct (SFdiv_spec prec32 emax32 eq_refl false false m 10485760 e (-19)
              (vx / 20) Hlo Hhi Hq) as (m1 & e1 & Hr & Hm1 & He1 & _).
  pose proof (SFdiv_ge_pow2 prec32 emax32 eq_refl false false m 10485760 e (-19)
                (vx / 20) 0 m1 e1 Hlo Hhi Hq Hr Hone) as Hr1.
  change (2 ^ 0)%Q with 1%Q in Hr1. cbn [xorb] in Hr.
  rewrite Hd in He1. cbn [Zdigits2 digits2_pos Pos.succ] in He1.
  unfold prec32 in Hm1, He1.
  change (2 ^ (24 - 1)) with 8388608 in Hm1. change (2 ^ 24) with 16777216 in Hm1.
  (* the quotient is 1 or at least 1 + 2^-23 *)
  assert (He23 : -23 <= e1).
  { destruct (Z.lt_ge_cases e1 (-23)) as [Hlt | Hok]; [exfalso | exact Hok].
    pose proof (Q2_le e1 (-24) ltac:(lia)) as Hp. pose proof (Q2_pos e1) as Pp.
    assert (Hm1q : (inject_Z (Zpos m1) < inject_Z 16777216)%Q)
      by (rewrite <- Zlt_Qlt; lia).
    assert (e24 : (2 ^ (-24) == 1 # 16777216)%Q) by reflexivity.
    rewrite e24 in Hp. change (inject_Z 16777216) with (16777216 # 1)%Q in Hm1q.
    nra. }
  assert (Ex' : f32_div x (f32_of_Z TARGET_SPEED) = S754_finite false m1 e1).
  { rewrite Ex. exact Hr. }
  rewrite target_duty_cycle_clamp, Ex'.
  destruct (Z.eq_dec e1 (-23)) as [E23 | N23];
    [destruct (Z.eq_dec (Zpos m1) 8388608) as [Em | Nm] |].
  - (* the quotient is exactly 1 *)
    injection Em as ->. subst e1. vm_compute. reflexivity.
  - (* at least 1 + 2^-23, in the binade of 1 *)
    subst e1.
    assert (N1 : normal_in 24 (S754_finite false m1 (-23)) 1 1
                   (inject_Z (Zpos m1) * 2 ^ (-23))).
    { exists m1, (-23). repeat split; try reflexivity; lia. }
    assert (N255 : normal_in 24 (f32_of_Z MOTOR_MAX_DUTY_CYCLE) 8 8 255).
    { exists 16711680%positive, (-16). repeat split; try reflexivity; discriminate. }
    destruct (f32_mul_normal _ _ _ _ _ _ _ _ N1 N255) as (vp & Np & Ep); [lia | lia |].
    destruct (normal_in_SF2Q _ _ _ _ _ Np) as (Hfin & Hval).
    assert (Hm1q : (inject_Z 8388609 <= inject_Z (Zpos m1))%Q)
      by (rewrite <- Zle_Qle; lia).
    assert (e23 : (2 ^ (-23) == 1 # 8388608)%Q) by reflexivity.
    assert (e24 : (2 ^ (-24) == 1 # 16777216)%Q) by reflexivity.
    rewrite e23, e24 in Ep. change (inject_Z 8388609) with (8388609 # 1)%Q in Hm1q.
    assert (Hp : (inject_Z 255 <= vp)%Q)
      by (change (inject_Z 255) with 255%Q; nra).
    apply floor_at_least in Hp. rewrite <- Hval in Hp.
    assert (Hf : float_to_int
                   (f32_mul (S754_finite false m1 (-23))
                            (f32_of_Z MOTOR_MAX_DUTY_CYCLE)) >= 255).
    { destruct Np as (mp & ep & Epq & _). rewrite Epq in *.
      cbn [float_to_int]. destruct (trunc_pos_floor mp ep) as (-> & _).
      unfold saturate, INT_MIN, INT_MAX. lia. }
    unfold MOTOR_MAX_DUTY_CYCLE in *. lia.
  - (* at least 2 *)
    assert (N1 : normal_in 24 (S754_finite false m1 e1) 2 100
                   (inject_Z (Zpos m1) * 2 ^ e1)).
    { exists m1, e1. repeat split; try reflexivity; lia. }
    assert (N255 : normal_in 24 (f32_of_Z MOTOR_MAX_DUTY_CYCLE) 8 8 255).
    { exists 16711680%positive, (-16). repeat split; try reflexivity; discriminate. }
    destruct (f32_mul_normal _ _ _ _ _ _ _ _ N1 N255) as (vp & Np & Ep); [lia | lia |].
    destruct (normal_in_SF2Q _ _ _ _ _ Np) as (Hfin & Hval).
    destruct (normal_in_upper 24 _ _ _ _ eq_refl N1) as (Hlow & _).
    change (2 ^ (2 - 1))%Q with 2%Q in Hlow.
    assert (e24 : (2 ^ (-24) == 1 # 16777216)%Q) by reflexivity.
    rewrite e24 in Ep.
    assert (Hp : (inject_Z 255 <= vp)%Q)
      by (change (inject_Z 255) with 255%Q; nra).
    apply floor_at_least in Hp. rewrite <- Hval in Hp.
    assert (Hf : float_to_int
                   (f32_mul (S754_finite false m1 e1)
                            (f32_of_Z MOTOR_MAX_DUTY_CYCLE)) >= 255).
    { destruct Np as (mp & ep & Epq & _). rewrite Epq in *.
      cbn [float_to_int]. destruct (trunc_pos_floor mp ep) as (-> & _).
      unfold saturate, INT_MIN, INT_MAX. lia. }
    unfold MOTOR_MAX_DUTY_CYCLE in *. lia.
Qed.

Lemma target_full_from_reference_speed_witness :
  target_duty_cycle (f32_of_Z 20) = 255 /\ target_duty_cycle (f32_of_Z 3000) = 255.
Proof.
  assert (N20 : normal_in 24 (f32_of_Z 20) (-100) 27 20).
  { exists 10485760%positive, (-19). repeat split; try reflexivity; discriminate. }
  assert (N3000 : normal_in 24 (f32_of_Z 3000) (-100) 27 3000).
  { exists 12288000%positive, (-12). repeat split; try reflexivity; discriminate. }
  split.
  - apply (target_full_from_reference_speed _ 20 N20). discriminate.
  - apply (target_full_from_reference_speed _ 3000 N3000). discriminate.
Defined.

(** ** The setpoint and the manual target over the converter's range *)

Lemma setpoint_steps_checked : forallb setpoint_step_ok adc_range = true.
Proof. vm_compute. reflexivity. Qed.

Lemma manual_targets_checked : forallb manual_target_ok adc_range = true.
Proof. vm_compute. reflexivity. Qed.

Lemma pot_units_monotone (raw : Z) (n : nat) :
  0 <= raw -> raw + Z.of_nat n <= 4095 ->
  pot_units raw <= pot_units (raw + Z.of_nat n).
Proof.
  intros H0. induction n as [| n IH]; intros Hn.
  - rewrite Z.add_0_r. lia.
  - pose proof setpoint_steps_checked as Hall.
    rewrite forallb_forall in Hall.
    assert (Hin : 0 <= raw + Z.of_nat n <= 4095) by lia.
    specialize (Hall (raw + Z.of_nat n) (adc_range_spec _ Hin)).
    unfold setpoint_step_ok in Hall.
    apply orb_true_iff in Hall. destruct Hall as [Hall | Hall].
    + apply Z.leb_le in Hall. lia.
    + apply Z.leb_le in Hall.
      replace (raw + Z.of_nat (S n)) with (raw + Z.of_nat n + 1) by lia.
      specialize (IH ltac:(lia)). lia.
Qed.

(** X7.  Over the converter's range the setpoint of [read_potentiometer]
    never decreases when the raw sample increases; it is +0 for the
    samples 0..40 and exactly 20.0 for the top sample 4095. *)
Theorem setpoint_monotone (raw1 raw2 : Z) :
  0 <= raw1 -> raw1 <= raw2 -> raw2 <= 4095 ->
  (SF2Q (pot_setpoint raw1) <= SF2Q (pot_setpoint raw2))%Q /\
  (raw1 <= 40 -> pot_setpoint raw1 = S754_zero false) /\
  (40 < raw1 -> (1 # 5 <= SF2Q (pot_setpoint raw1))%Q) /\
  pot_setpoint 4095 = f32_of_Z TARGET_SPEED.
Proof.
  intros H0 H12 H2.
  destruct (setpoint_shape raw1 ltac:(lia)) as (L1 & V1 & _).
  destruct (setpoint_shape raw2 ltac:(lia)) as (_ & V2 & _).
  split; [| split; [| split]].
  - rewrite V1, V2. apply Qmult_le_r; [apply Q2_pos |].
    rewrite <- Zle_Qle.
    replace raw2 with (raw1 + Z.of_nat (Z.to_nat (raw2 - raw1))) by lia.
    apply pot_units_monotone; lia.
  - intros Hdead.
    pose proof adc_range_checked as Hall. rewrite forallb_forall in Hall.
    specialize (Hall raw1 (adc_range_spec raw1 ltac:(lia))).
    apply andb_true_iff in Hall. destruct Hall as (Hok & _).
    unfold pot_reading_ok in Hok. fold (pot_setpoint raw1) in Hok.
    assert (Hq : Qle_bool (1 # 5) (pot_exact raw1) = false).
    { destruct (Qle_bool (1 # 5) (pot_exact raw1)) eqn:E; [exfalso | reflexivity].
      apply Qle_bool_iff in E. unfold pot_exact, Qle, TARGET_SPEED in E.
      cbn [Qnum Qden] in E. lia. }
    rewrite Hq in Hok.
    destruct (pot_setpoint raw1) as [[ | ] | | | ]; try discriminate. reflexivity.
  - intros Hlive.
    pose proof adc_range_checked as Hall. rewrite forallb_forall in Hall.
    specialize (Hall raw1 (adc_range_spec raw1 ltac:(lia))).
    apply andb_true_iff in Hall. destruct Hall as (Hok & _).
    unfold pot_reading_ok in Hok. fold (pot_setpoint raw1) in Hok.
    assert (Hq : Qle_bool (1 # 5) (pot_exact raw1) = true).
    { apply Qle_bool_iff. unfold pot_exact, Qle, TARGET_SPEED.
      cbn [Qnum Qden]. lia. }
    rewrite Hq in Hok.
    destruct (pot_setpoint raw1) as [ | | | s m e]; try discriminate.
    destruct s; try discriminate.
    repeat (apply andb_true_iff in Hok; destruct Hok as (Hok & ?)).
    apply Qle_bool_iff in Hok. exact Hok.
  - vm_compute. reflexivity.
Qed.

Lemma setpoint_monotone_witness :
  (SF2Q (pot_setpoint 1000) <= SF2Q (pot_setpoint 3000))%Q /\
  pot_setpoint 17 = S754_zero false.
Proof.
  assert (H0 : 0 <= 1000) by lia.
  assert (H12 : 1000 <= 3000) by lia.
  assert (H2 : 3000 <= 4095) by lia.
  destruct (setpoint_monotone 1000 3000 H0 H12 H2) as (Hm & _).
  assert (H0' : 0 <= 17) by lia.
  assert (H12' : 17 <= 17) by lia.
  assert (H2' : 17 <= 4095) by lia.
  destruct (setpoint_monotone 17 17 H0' H12' H2') as (_ & Hz & _).
  split; [exact Hm | apply Hz; lia].
Defined.

Lemma manual_target_monotone (raw : Z) (n : nat) :
  0 <= raw -> raw + Z.of_nat n <= 4095 ->
  manual_target raw <= manual_target (raw + Z.of_nat n).
Proof.
  intros H0. induction n as [| n IH]; intros Hn.
  - rewrite Z.add_0_r. lia.
  - pose proof manual_targets_checked as Hall.
    rewrite forallb_forall in Hall.
    assert (Hin : 0 <= raw + Z.of_nat n <= 4095) by lia.
    specialize (Hall (raw + Z.of_nat n) (adc_range_spec _ Hin)).
    unfold manual_target_ok in Hall. cbv zeta in Hall.
    apply andb_true_iff in Hall. destruct Hall as (_ & Hall).
    apply orb_true_iff in Hall. destruct Hall as [Hall | Hall].
    + apply Z.leb_le in Hall. lia.
    + apply Z.leb_le in Hall.
      replace (raw + Z.of_nat (S n)) with (raw + Z.of_nat n + 1) by lia.
      specialize (IH ltac:(lia)). lia.
Qed.

(** X8.  The manual path, from raw sample to target level: for a sample
    of the converter the target is 0 in the dead zone (samples 0..40) and
    otherwise the integer part of 255 * raw / 4095 or one less; it never
    decreases with the sample; and only the top sample 4095 gives the
    full level 255. *)
Theorem manual_target_table (raw1 raw2 : Z) :
  0 <= raw1 -> raw1 <= raw2 -> raw2 <= 4095 ->
  let t := manual_target raw1 in
  (raw1 <= 40 -> t = 0) /\
  (40 < raw1 -> 255 * raw1 / 4095 - 1 <= t <= 255 * raw1 / 4095) /\
  (t = 255 <-> raw1 = 4095) /\
  t <= manual_target raw2.
Proof.
  intros H0 H12 H2 t.
  pose proof manual_targets_checked as Hall.
  rewrite forallb_forall in Hall.
  specialize (Hall raw1 (adc_range_spec raw1 ltac:(lia))).
  unfold manual_target_ok in Hall. cbv zeta in Hall. fold t in Hall.
  unfold MOTOR_MAX_DUTY_CYCLE in Hall.
  replace (raw1 * 255) with (255 * raw1) in Hall by lia.
  repeat (apply andb_true_iff in Hall; destruct Hall as (Hall & ?)).
  repeat match goal with
         | H : (_ || _) = true |- _ => apply orb_true_iff in H
         end.
  rewrite ?Z.leb_le, ?Z.ltb_lt, ?Z.eqb_eq in *.
  split; [| split; [| split]].
  - intros Hd. destruct (Z.leb_spec raw1 40); [| lia].
    apply Z.eqb_eq in Hall. exact Hall.
  - intros Hl. destruct (Z.leb_spec raw1 40); [lia |].
    apply andb_true_iff in Hall. rewrite !Z.leb_le in Hall. exact Hall.
  - split; intros; lia.
  - replace raw2 with (raw1 + Z.of_nat (Z.to_nat (raw2 - raw1))) by lia.
    apply manual_target_monotone; lia.
Qed.

Lemma manual_target_table_witness :
  manual_target 2048 = 127 /\ manual_target 30 = 0 /\
  manual_target 2048 <= manual_target 4000.
Proof.
  assert (H0 : 0 <= 2048) by lia.
  assert (H12 : 2048 <= 4000) by lia.
  assert (H2 : 4000 <= 4095) by lia.
  destruct (manual_target_table 2048 4000 H0 H12 H2) as (_ & Hq & _ & Hm).
  assert (H0' : 0 <= 30) by lia.
  assert (H12' : 30 <= 30) by lia.
  assert (H2' : 30 <= 4095) by lia.
  destruct (manual_target_table 30 30 H0' H12' H2') as (Hz & _).
  split; [vm_compute; reflexivity | split; [apply Hz; lia | exact Hm]].
Defined.

(** ** The cruise flag from cycle to cycle *)

Lemma cycle_flag (i : input) (st : state) :
  cruise_control_active (exec (cycle i) st) =
    xorb (cruise_control_active st)
         (falling_edge (last_button_state st) (in_button i))
    && negb (pot_changed (pot_setpoint (in_adc i)) (last_pot_value st)) /\
  last_button_state (exec (cycle i) st) = in_button i /\
  last_pot_value (exec (cycle i) st) = pot_setpoint (in_adc i).
Proof.
  destruct (cycle_cruise i st) as (Ha & Hp & Hb).
  destruct (cycle_to_button_frame i st) as (Ha1 & _).
  rewrite Ha, Ha1.
  split; [| split; [exact Hb | exact Hp]].
  destruct (falling_edge (last_button_state st) (in_button i));
    destruct (cruise_control_active st); reflexivity.
Qed.

(** X9.  The cruise flag at the end of a cycle is the flag at its start,
    inverted if the cycle saw a falling edge of the button, and then
    cleared if the setpoint changed by more than the threshold; the cycle
    stores the sampled button level and the new setpoint for the next
    one.  So without edge and without change the flag keeps its value,
    and an edge in an engaged cycle disengages. *)
Theorem cruise_next_state (i : input) (st : state) :
  let st' := exec (cycle i) st in
  let edge := falling_edge (last_button_state st) (in_button i) in
  let changed := pot_changed (pot_setpoint (in_adc i)) (last_pot_value st) in
  cruise_control_active st' =
    xorb (cruise_control_active st) edge && negb changed /\
  last_button_state st' = in_button i /\
  last_pot_value st' = pot_setpoint (in_adc i) /\
  (edge = false -> changed = false ->
     cruise_control_active st' = cruise_control_active st) /\
  (edge = true -> cruise_control_active st = true ->
     cruise_control_active st' = false).
Proof.
  cbv zeta.
  destruct (cycle_flag i st) as (Ha & Hb & Hp). rewrite Ha.
  split; [reflexivity | split; [exact Hb | split; [exact Hp | split]]].
  - intros -> ->. destruct (cruise_control_active st); reflexivity.
  - intros -> ->. reflexivity.
Qed.

Lemma cruise_next_state_witness :
  let st := mkState 0 0 (S754_zero false) true 0 (pot_setpoint 2000) true [] in
  cruise_control_active (exec (cycle (mkInput 0 10 true 2010)) st) = true /\
  cruise_control_active (exec (cycle (mkInput 0 10 false 2010)) st) = false.
Proof.
  intros st.
  destruct (cruise_next_state (mkInput 0 10 true 2010) st)
    as (_ & _ & _ & Hkeep & _).
  destruct (cruise_next_state (mkInput 0 10 false 2010) st)
    as (_ & _ & _ & _ & Hoff).
  split.
  - rewrite Hkeep; [reflexivity | reflexivity | vm_compute; reflexivity].
  - apply Hoff; reflexivity.
Defined.

Lemma pot_changed_same (x : float32) :
  is_finite x = true -> pot_changed x x = false.
Proof.
  destruct x as [s | s | | s m e]; cbn [is_finite]; intros H; try discriminate.
  - destruct s; reflexivity.
  - unfold pot_changed, f32_sub, SFsub.
    destruct (shl_align_spec m e (Z.min e e)) as (Hs & Hf).
    assert (Hf' : fst (shl_align m e (Z.min e e)) = m).
    { apply Pos2Z.inj. rewrite Hf, Hs.
      replace (e - Z.min e (Z.min e e)) with 0 by lia. cbn. lia. }
    rewrite Hf', Z.sub_diag. reflexivity.
Qed.

Lemma setpoint_finite (raw : Z) :
  0 <= raw <= 4095 -> is_finite (pot_setpoint raw) = true.
Proof.
  intros H. destruct (setpoint_shape raw H) as ([(-> & _) | N] & _).
  - reflexivity.
  - destruct N as (m & e & -> & _). reflexivity.
Qed.

Lemma held_run (raw : Z) (inputs : list input) :
  0 <= raw <= 4095 ->
  Forall (pressed_at raw) inputs ->
  forall st : state,
    last_pot_value st = pot_setpoint raw ->
    last_button_state st = false ->
    cruise_control_active (run inputs st) = cruise_control_active st /\
    (inputs <> [] -> last_button_state (run inputs st) = false).
Proof.
  intros Hraw Hall. induction Hall as [| i rest (Hb & Ha) Hrest IH];
    intros st Hp Hl; cbn [run].
  - split; [reflexivity | congruence].
  - destruct (cycle_flag i st) as (Hf & Hb' & Hp').
    rewrite Hb in Hb'. rewrite Ha in Hp'.
    assert (Hk : cruise_control_active (exec (cycle i) st)
                 = cruise_control_active st).
    { rewrite Hf, Hl, Hb, Ha, Hp.
      rewrite (pot_changed_same _ (setpoint_finite _ Hraw)).
      destruct (cruise_control_active st); reflexivity. }
    destruct (IH _ Hp' Hb') as (Hc & Hlast). rewrite Hc, Hk.
    split; [reflexivity |]. intros _.
    destruct rest as [| j rest']; [exact Hb' | apply Hlast; discriminate].
Qed.

(** X10.  A button held pressed toggles cruise control once: from a state
    with the button released, over any number of cycles (one at least) in
    which the button reads pressed and the converter keeps giving the
    sample the stored setpoint came from, the flag at the end is the
    inverse of the flag at the start, however many cycles the button is
    held. *)
Theorem held_button_toggles_once (raw : Z) (i : input) (inputs : list input)
    (st : state) :
  0 <= raw <= 4095 ->
  Forall (pressed_at raw) (i :: inputs) ->
  last_pot_value st = pot_setpoint raw ->
  last_button_state st = true ->
  cruise_control_active (run (i :: inputs) st) = negb (cruise_control_active st).
Proof.
  intros Hraw Hall Hp Hl. inversion Hall as [| i' rest (Hb & Ha) Hrest]; subst.
  cbn [run].
  destruct (cycle_flag i st) as (Hc & Hb' & Hp').
  rewrite Hb in Hb'.
  destruct (held_run (in_adc i) inputs Hraw Hrest _ Hp' Hb') as (Hk & _).
  rewrite Hk, Hc, Hl, Hb, Hp.
  rewrite (pot_changed_same _ (setpoint_finite _ Hraw)).
  destruct (cruise_control_active st); reflexivity.
Qed.

Lemma held_button_toggles_once_witness :
  cruise_control_active
    (run [mkInput 0 10 false 0; mkInput 1 2400 false 0; mkInput 2 4800 false 0]
         initial_state) = true.
Proof.
  assert (Hraw : 0 <= 0 <= 4095) by lia.
  assert (Hall : Forall (pressed_at 0)
                   [mkInput 0 10 false 0; mkInput 1 2400 false 0;
                    mkInput 2 4800 false 0]).
  { repeat constructor. }
  assert (Hp : last_pot_value initial_state = pot_setpoint 0) by reflexivity.
  assert (Hl : last_button_state initial_state = true) by reflexivity.
  exact (held_button_toggles_once 0 _ _ initial_state Hraw Hall Hp Hl).
Defined.

(** ** What a run leaves in [speed], in the output and on the PWM pin *)

Lemma rpm_of_elapsed_shape (ms : Z) :
  0 <= ms < 4294967296 -> speed_shape (rpm_of_elapsed ms).
Proof.
  intros Hms. destruct (Z.eq_dec ms 0) as [-> | Hnz].
  - right. left. vm_compute. reflexivity.
  - right. right.
    destruct (rpm_of_elapsed_tolerance ms ltac:(lia)) as (Hfin & Hpos & Htol).
    cbv zeta in Htol.
    split; [exact Hfin | split; [exact Hpos |]].
    assert (Hx1 : (1 <= inject_Z ms)%Q) by (rewrite <- (Zle_Qle 1); lia).
    set (X := (60 / (inject_Z ms / 1000))%Q) in *.
    assert (HX : (X * inject_Z ms == 60000)%Q) by (unfold X; field; lra).
    assert (PX : (0 < X)%Q).
    { unfold X. apply Qlt_shift_div_l; [apply Qlt_shift_div_l |]; lra. }
    assert (HX2 : (X <= 60000)%Q) by nra.
    clearbody X. lra.
Qed.

Lemma run_speed_shape (inputs : list input) (st : state) :
  duty_in_range st -> sensor_idle st -> speed_shape (speed st) ->
  speed_shape (speed (run inputs st)).
Proof.
  revert st. induction inputs as [| i rest IH]; intros st Hd Hs Hv; cbn [run].
  - exact Hv.
  - destruct (cycle_sensor i st Hd Hs) as (_ & _ & Hsp & Hs').
    apply IH; [apply (cycle_step i st Hd) | exact Hs' |].
    rewrite Hsp. destruct (PULSES_PER_REV <=? _); [| exact Hv].
    apply rpm_of_elapsed_shape. unfold elapsed_ms, u32.
    apply Z.mod_pos_bound. lia.
Qed.

(** X11.  After any run from power-on [speed] is the initial +0,
    +infinity (a sample over an interval of 0 ms), or a positive finite
    float of at most 60000 * (1 + 2^-22) RPM: never NaN, never negative. *)
Theorem speed_is_zero_infinite_or_positive (inputs : list input) :
  let v := speed (run inputs initial_state) in
  speed_shape v /\ v <> S754_nan /\ (not_positive v = true -> v = S754_zero false).
Proof.
  cbv zeta.
  assert (H : speed_shape (speed (run inputs initial_state))).
  { apply run_speed_shape;
      [apply initial_state_in_range | apply initial_state_idle |].
    left. reflexivity. }
  split; [exact H |].
  destruct H as [-> | [-> | (Hfin & Hpos & _)]].
  - split; [discriminate | reflexivity].
  - split; [discriminate | discriminate].
  - destruct (speed (run inputs initial_state)) as [s | s | | s m e];
      try discriminate.
    split; [discriminate |]. cbn [not_positive]. intros ->. exfalso.
    pose proof (Q2_pos e) as Pe.
    assert (Pm : (0 < inject_Z (Zpos m))%Q) by (rewrite <- (Zlt_Qlt 0); lia).
    rewrite (SF2Q_finite true m e) in Hpos. nra.
Qed.

(** The output of one cycle. *)
Lemma cycle_log (i : input) (st : state) :
  duty_in_range st -> sensor_idle st ->
  let st' := exec (cycle i) st in
  let fired := PULSES_PER_REV <=? u32 (pulse_count st + Z.of_nat (in_pulses i)) in
  let edge := falling_edge (last_button_state st) (in_button i) in
  let toggled := xorb (cruise_control_active st) edge in
  let v := pot_setpoint (in_adc i) in
  let changed := toggled && pot_changed v (last_pot_value st) in
  log st' =
    log st
    ++ (if fired then [Printf_speed (speed st'); Sleep_ms 1000] else [])
    ++ (if edge then [Printf_cruise toggled; Sleep_ms 200] else [])
    ++ [Printf_pot v; Sleep_ms 1000]
    ++ (if changed then [Printf_cruise_pot; Sleep_ms 1000] else [])
    ++ [Pwm_set_gpio_level MOTOR_PIN (current_duty_cycle st');
        Printf_pwm (current_duty_cycle st'); Sleep_ms 1000; Sleep_ms 100].
Proof.
  intros Hd (Hpc & Hlt). cbv zeta.
  rewrite (cycle_exec i st Hd). prog_fields.
  assert (Hpc' : 0 <= pulse_count st < 4294967296)
    by (unfold PULSES_PER_REV in Hpc; lia).
  rewrite (deliver_pulses_exec _ st Hpc').
  rewrite calculate_speed_exec. prog_fields.
  destruct (PULSES_PER_REV <=? u32 (pulse_count st + Z.of_nat (in_pulses i)));
    prog_fields; rewrite <- ?app_assoc; reflexivity.
Qed.

(** X12.  The output of a cycle, in order: the speed line and a pause of
    1000 ms if a sample was taken; the cruise line and 200 ms if the
    button showed a falling edge; the potentiometer line and 1000 ms; the
    disengagement line and 1000 ms if a setpoint change cleared an
    engaged flag; then one PWM write of the new duty level to the motor
    pin, the PWM line, 1000 ms, and the 100 ms of the loop. *)
Theorem cycle_output (inputs : list input) (i : input) :
  let st := run inputs initial_state in
  let st' := exec (cycle i) st in
  let fired := 3 <=? (pulse_count st + Z.of_nat (in_pulses i)) mod 4294967296 in
  let edge := falling_edge (last_button_state st) (in_button i) in
  let toggled := xorb (cruise_control_active st) edge in
  let v := pot_setpoint (in_adc i) in
  let changed := toggled && pot_changed v (last_pot_value st) in
  log st' =
    log st
    ++ (if fired then [Printf_speed (speed st'); Sleep_ms 1000] else [])
    ++ (if edge then [Printf_cruise toggled; Sleep_ms 200] else [])
    ++ [Printf_pot v; Sleep_ms 1000]
    ++ (if changed then [Printf_cruise_pot; Sleep_ms 1000] else [])
    ++ [Pwm_set_gpio_level MOTOR_PIN (current_duty_cycle st');
        Printf_pwm (current_duty_cycle st'); Sleep_ms 1000; Sleep_ms 100].
Proof.
  cbv zeta.
  destruct (run_invariant inputs initial_state initial_state_in_range
              initial_state_idle) as (Hd & Hs).
  exact (cycle_log i _ Hd Hs).
Qed.

Lemma slept_app (l1 l2 : list event) : slept (l1 ++ l2) = slept l1 + slept l2.
Proof.
  induction l1 as [| e l1 IH]; cbn [app slept]; [lia |].
  destruct e; rewrite IH; lia.
Qed.

(** X13.  A cycle pauses for 2100 ms at least and 4300 ms at most:
    2100 ms in [read_potentiometer], [set_motor_speed] and the loop, plus
    1000 ms when a speed sample is taken, 200 ms on a falling edge of the
    button and 1000 ms when a setpoint change disengages. *)
Theorem cycle_pause (inputs : list input) (i : input) :
  let st := run inputs initial_state in
  let st' := exec (cycle i) st in
  let fired := 3 <=? (pulse_count st + Z.of_nat (in_pulses i)) mod 4294967296 in
  let edge := falling_edge (last_button_state st) (in_button i) in
  let changed :=
    xorb (cruise_control_active st) edge
    && pot_changed (pot_setpoint (in_adc i)) (last_pot_value st) in
  slept (log st') - slept (log st) =
    2100 + (if fired then 1000 else 0) + (if edge then 200 else 0)
         + (if changed then 1000 else 0) /\
  2100 <= slept (log st') - slept (log st) <= 4300.
Proof.
  cbv zeta.
  destruct (run_invariant inputs initial_state initial_state_in_range
              initial_state_idle) as (Hd & Hs).
  rewrite (cycle_log i _ Hd Hs). cbv zeta. unfold u32, PULSES_PER_REV.
  rewrite !slept_app.
  destruct (3 <=? _); destruct (falling_edge _ _);
    destruct (xorb _ _ && _); cbn [slept]; lia.
Qed.

Lemma pwm_writes_app (l1 l2 : list event) :
  pwm_writes (l1 ++ l2) = pwm_writes l1 ++ pwm_writes l2.
Proof.
  induction l1 as [| e l1 IH]; cbn [app pwm_writes]; [reflexivity |].
  destruct e; rewrite IH; reflexivity.
Qed.

Lemma trace_length (inputs : list input) (st : state) :
  length (trace inputs st) = length inputs.
Proof.
  revert st. induction inputs as [| i rest IH]; intros st; cbn [trace length];
    [reflexivity | rewrite IH; reflexivity].
Qed.

Lemma run_pwm_writes (inputs : list input) (st : state) :
  duty_in_range st -> sensor_idle st ->
  pwm_writes (log (run inputs st)) =
    pwm_writes (log st)
    ++ map (fun s => (MOTOR_PIN, current_duty_cycle s)) (trace inputs st) /\
  Forall duty_in_range (trace inputs st).
Proof.
  revert st. induction inputs as [| i rest IH]; intros st Hd Hs;
    cbn [run trace map].
  - rewrite app_nil_r. split; [reflexivity | constructor].
  - destruct (cycle_step i st Hd) as (Hd' & _).
    destruct (cycle_sensor i st Hd Hs) as (_ & _ & _ & Hs').
    destruct (IH _ Hd' Hs') as (Hw & Hall).
    split; [| constructor; assumption].
    rewrite Hw, (cycle_log i st Hd Hs). cbv zeta.
    rewrite !pwm_writes_app.
    destruct (PULSES_PER_REV <=? _); destruct (falling_edge _ _);
      destruct (xorb _ _ && _); cbn [pwm_writes app];
      rewrite <- app_assoc; reflexivity.
Qed.

(** X14.  In any run from power-on every cycle writes the PWM level once,
    to the motor pin; the level written is the duty level the cycle ends
    with, and it lies in [0, 255]. *)
Theorem pwm_written_once_per_cycle (inputs : list input) :
  let writes := pwm_writes (log (run inputs initial_state)) in
  writes = map (fun s => (MOTOR_PIN, current_duty_cycle s))
               (trace inputs initial_state) /\
  length writes = length inputs /\
  Forall (fun w => fst w = MOTOR_PIN /\ 0 <= snd w <= 255) writes.
Proof.
  cbv zeta.
  destruct (run_pwm_writes inputs initial_state initial_state_in_range
              initial_state_idle) as (Hw & Hall).
  cbn [log initial_state pwm_writes app] in Hw. rewrite Hw.
  split; [reflexivity | split].
  - rewrite length_map. apply trace_length.
  - apply Forall_map. eapply Forall_impl; [| exact Hall].
    intros s Hs. cbn [fst snd]. split; [reflexivity | exact Hs].
Qed.

(** X15.  Where the motor command of a cycle comes from: the duty level
    moves one step toward the target of [speed] if the cycle ends
    engaged -- the sample of this very cycle if one was taken, the stale
    one otherwise -- and toward the target of the setpoint if it ends
    disengaged. *)
Theorem motor_command_source (inputs : list input) (i : input) :
  let st := run inputs initial_state in
  let st' := exec (cycle i) st in
  current_duty_cycle st' =
    toward (target_duty_cycle
              (if cruise_control_active st' then speed st'
               else pot_setpoint (in_adc i)))
           (current_duty_cycle st) /\
  (cruise_control_active st' = false ->
     current_duty_cycle st' = toward (manual_target (in_adc i))
                                     (current_duty_cycle st)).
Proof.
  cbv zeta.
  destruct (run_invariant inputs initial_state initial_state_in_range
              initial_state_idle) as (Hd & _).
  rewrite (cycle_exec i _ Hd). prog_fields.
  split; [reflexivity |]. intros ->. reflexivity.
Qed.

(** ** The cruise target of a measured interval *)

Lemma rpm_of_elapsed_normal (ms : Z) :
  0 < ms < 4294967296 ->
  exists v : Q,
    normal_in 24 (rpm_of_elapsed ms) (-21) 20 v /\
    (- (60 / (inject_Z ms / 1000) * (1 # 4194304))
       <= v - 60 / (inject_Z ms / 1000)
       <= 60 / (inject_Z ms / 1000) * (1 # 4194304))%Q.
Proof.
  intros Hms.
  assert (Hd : 1 <= Zdigits2 ms <= 32).
  { pose proof (Zdigits2_bounds ms (proj1 Hms)) as Hb.
    rewrite (Zdigits2_log2 ms (proj1 Hms)) in *.
    pose proof (Z.log2_nonneg ms). split; [lia |].
    assert (Z.log2 ms + 1 - 1 < 32); [| lia].
    apply (Z.pow_lt_mono_r_iff 2); [lia | lia |].
    change (2 ^ 32) with 4294967296. lia. }
  assert (Ha : normal_in 53 (f64_of_Z ms) 1 33 (inject_Z ms)).
  { apply (normal_in_weaken 53 _ (Zdigits2 ms) (Zdigits2 ms + 1));
      [apply f64_of_Z_normal | |]; change (2 ^ 53) with 9007199254740992; lia. }
  assert (Hb : normal_in 53 (f64_of_Z 1000) 10 11 1000).
  { apply (f64_of_Z_normal 1000). split; reflexivity. }
  assert (Hc : normal_in 53 (f64_of_Z 60) 6 7 60).
  { apply (f64_of_Z_normal 60). split; reflexivity. }
  destruct (f64_div_normal _ _ _ _ _ _ _ _ Ha Hb) as (v1 & N1 & _); [lia | lia |].
  destruct (f32_of_f64_normal _ _ _ _ N1) as (v2 & N2 & _); [lia | lia |].
  pose proof (f64_of_f32_normal _ _ _ _ N2) as N2'.
  specialize (N2' ltac:(lia) ltac:(lia)).
  destruct (f64_div_normal _ _ _ _ _ _ _ _ Hc N2') as (v3 & N3 & _); [lia | lia |].
  destruct (f32_of_f64_normal _ _ _ _ N3) as (v4 & N4 & _); [lia | lia |].
  exists v4. split.
  - unfold rpm_of_elapsed. cbv zeta.
    apply (normal_in_weaken 24 _ _ _ (-21) 20 _ N4); lia.
  - destruct (normal_in_SF2Q _ _ _ _ _ N4) as (_ & Hval).
    destruct (rpm_of_elapsed_tolerance ms Hms) as (_ & _ & Htol).
    cbv zeta in Htol. unfold rpm_of_elapsed in Htol. cbv zeta in Htol.
    rewrite Hval in Htol. exact Htol.
Qed.

(** The product [set_motor_speed] truncates, for the speed of an interval
    of [ms] milliseconds: the conversion is defined on it, and times [ms]
    it is 765000 within one half. *)
Lemma cruise_product (ms : Z) :
  0 < ms < 4294967296 ->
  fits_int (duty_product (rpm_of_elapsed ms)) = true /\
  (764999 + (1 # 2) <= SF2Q (duty_product (rpm_of_elapsed ms)) * inject_Z ms
     <= 765000 + (1 # 2))%Q.
Proof.
  intros Hms.
  destruct (rpm_of_elapsed_normal ms Hms) as (v & N & T1).
  assert (N' : normal_in 24 (rpm_of_elapsed ms) (-100) 100 v)
    by (apply (normal_in_weaken 24 _ _ _ (-100) 100 _ N); lia).
  destruct (duty_product_tolerance _ _ N') as (Hfin & T2). cbv zeta in T2.
  assert (Hb : (764999 + (1 # 2)
                  <= SF2Q (duty_product (rpm_of_elapsed ms)) * inject_Z ms
                  <= 765000 + (1 # 2))%Q);
    [| split; [| exact Hb];
       apply (fits_int_small _ Hfin);
       assert (PM : (1 <= inject_Z ms)%Q) by (rewrite <- (Zle_Qle 1); lia);
       set (P := SF2Q (duty_product (rpm_of_elapsed ms))) in *;
       set (M := inject_Z ms) in *; clearbody P M;
       assert (H0 : (0 < P)%Q)
         by (destruct (Qlt_le_dec 0 P) as [L | G]; [exact L | exfalso];
             assert (P * M <= 0 * M)%Q by (apply Qmult_le_compat_r; lra); lra);
       rewrite Qabs_pos by lra;
       destruct (Qlt_le_dec P 2147483648) as [L | G]; [exact L | exfalso];
       assert (0 <= (P - 2147483648) * (M - 1))%Q
         by (apply Qmult_le_0_compat; lra);
       lra].
  set (P := SF2Q (duty_product (rpm_of_elapsed ms))) in *.
  assert (PM : (1 <= inject_Z ms)%Q) by (rewrite <- (Zle_Qle 1); lia).
  set (M := inject_Z ms) in *.
  set (X := (60 / (M / 1000))%Q) in *.
  assert (HX : (X * M == 60000)%Q) by (unfold X; field; lra).
  assert (HX' : (v / 20 * 255 == v * (51 # 4))%Q) by field.
  rewrite HX' in T2. clear HX' N N'. clearbody X P M.
  assert (V1 : (60000 * (4194303 # 4194304) <= v * M)%Q).
  { assert (H : (X * (4194303 # 4194304) * M <= v * M)%Q)
      by (apply Qmult_le_r; lra).
    assert (E : (X * (4194303 # 4194304) * M == X * M * (4194303 # 4194304))%Q)
      by ring.
    rewrite E, HX in H. exact H. }
  assert (V2 : (v * M <= 60000 * (4194305 # 4194304))%Q).
  { assert (H : (v * M <= X * (4194305 # 4194304) * M)%Q)
      by (apply Qmult_le_r; lra).
    assert (E : (X * (4194305 # 4194304) * M == X * M * (4194305 # 4194304))%Q)
      by ring.
    rewrite E, HX in H. exact H. }
  assert (P1 : (v * M * (51 # 4) * (4194303 # 4194304) <= P * M)%Q).
  { assert (H : (v * (51 # 4) * (4194303 # 4194304) * M <= P * M)%Q)
      by (apply Qmult_le_r; lra).
    assert (E : (v * (51 # 4) * (4194303 # 4194304) * M
                 == v * M * (51 # 4) * (4194303 # 4194304))%Q) by ring.
    rewrite E in H. exact H. }
  assert (P2 : (P * M <= v * M * (51 # 4) * (4194305 # 4194304))%Q).
  { assert (H : (P * M <= v * (51 # 4) * (4194305 # 4194304) * M)%Q)
      by (apply Qmult_le_r; lra).
    assert (E : (v * (51 # 4) * (4194305 # 4194304) * M
                 == v * M * (51 # 4) * (4194305 # 4194304))%Q) by ring.
    rewrite E in H. exact H. }
  set (W := (v * M)%Q) in *. clearbody W. lra.
Qed.

(** X16.  With cruise control engaged the target of [set_motor_speed]
    follows from the interval [ms] of the last sample alone, for every
    interval of 1 ms or more: the conversion of line 44 is defined, and
    the target is 255 up to 3000 ms (20 RPM and more); beyond that the
    integer quotient 765000 / ms or one less, never negative; 0 beyond
    765000 ms. *)
Theorem cruise_target_of_interval (ms : Z) :
  0 < ms < 4294967296 ->
  let t := target_duty_cycle (rpm_of_elapsed ms) in
  fits_int (duty_product (rpm_of_elapsed ms)) = true /\
  (forall u : Z, target_duty_cycle_or u (rpm_of_elapsed ms) = t) /\
  (ms <= 3000 -> t = MOTOR_MAX_DUTY_CYCLE) /\
  (3000 < ms -> Z.max 0 (765000 / ms - 1) <= t <= 765000 / ms) /\
  (765000 < ms -> t = 0).
Proof.
  intros Hms t.
  assert (Hnz : ms <> 0) by lia.
  destruct (cruise_product ms Hms) as (Hfit & Hlo & Hhi).
  split; [exact Hfit |].
  split; [intros u; apply (target_duty_cycle_or_fits u _ Hfit) |].
  assert (Et : t = Z.max 0 (Z.min MOTOR_MAX_DUTY_CYCLE
                      (Qfloor (SF2Q (duty_product (rpm_of_elapsed ms))))))
    by (apply target_duty_cycle_finite; exact Hfit).
  set (P := SF2Q (duty_product (rpm_of_elapsed ms))) in *.
  assert (PM : (1 <= inject_Z ms)%Q) by (rewrite <- (Zle_Qle 1); lia).
  (* the integer quotient brackets the product *)
  assert (Hq : 765000 / ms - 1 <= Qfloor P <= 765000 / ms).
  { pose proof (Z.div_mod 765000 ms Hnz) as Hdm.
    pose proof (Z.mod_pos_bound 765000 ms ltac:(lia)) as Hr.
    set (q := 765000 / ms) in *.
    assert (Hq1 : (inject_Z q * inject_Z ms <= 765000)%Q).
    { rewrite <- inject_Z_mult. change 765000%Q with (inject_Z 765000).
      rewrite <- Zle_Qle. lia. }
    assert (Hq2 : (765001 <= (inject_Z q + 1) * inject_Z ms)%Q).
    { change 1%Q with (inject_Z 1).
      rewrite <- inject_Z_plus, <- inject_Z_mult.
      change 765001%Q with (inject_Z 765001). rewrite <- Zle_Qle. lia. }
    split.
    - assert (H : (inject_Z (q - 1) <= P)%Q).
      { unfold Z.sub. rewrite inject_Z_plus. change (inject_Z (-1)) with (-1)%Q.
        set (M := inject_Z ms) in *. set (Q0 := inject_Z q) in *.
        clearbody M Q0 P.
        destruct (Qlt_le_dec P (Q0 + -1)) as [L | G]; [exfalso | exact G].
        assert (0 < (Q0 + -1 - P) * M)%Q by (apply Qmult_lt_0_compat; lra).
        lra. }
      apply floor_at_least. exact H.
    - assert (H : (P < inject_Z (q + 1))%Q).
      { rewrite inject_Z_plus. change (inject_Z 1) with 1%Q.
        set (M := inject_Z ms) in *. set (Q0 := inject_Z q) in *.
        clearbody M Q0 P.
        destruct (Qlt_le_dec P (Q0 + 1)) as [L | G]; [exact L | exfalso].
        assert (0 <= (P - (Q0 + 1)) * M)%Q by (apply Qmult_le_0_compat; lra).
        lra. }
      assert (H' : Qfloor P < q + 1).
      { destruct (Z.lt_ge_cases (Qfloor P) (q + 1)) as [L | G]; [exact L |].
        exfalso. apply (Qlt_not_le _ _ H).
        apply Qle_trans with (inject_Z (Qfloor P));
          [rewrite <- Zle_Qle; exact G | apply Qfloor_le]. }
      lia. }
  unfold MOTOR_MAX_DUTY_CYCLE in *.
  split; [| split].
  - intros Hle.
    destruct (Z.eq_dec ms 3000) as [-> | Hne]; [vm_compute; reflexivity |].
    assert (H255 : (inject_Z 255 <= P)%Q).
    { assert (HM : (inject_Z ms <= 2999)%Q).
      { change 2999%Q with (inject_Z 2999). rewrite <- Zle_Qle. lia. }
      change (inject_Z 255) with 255%Q.
      set (M := inject_Z ms) in *. clearbody M P.
      destruct (Qlt_le_dec P 255) as [L | G]; [exfalso | exact G].
      assert (0 < (255 - P) * M)%Q by (apply Qmult_lt_0_compat; lra).
      lra. }
    apply floor_at_least in H255. lia.
  - intros Hgt.
    assert (765000 / ms <= 254).
    { apply Z.lt_succ_r. apply Z.div_lt_upper_bound; lia. }
    assert (0 <= 765000 / ms) by (apply Z.div_pos; lia).
    lia.
  - intros Hgt. rewrite (Z.div_small 765000 ms) in Hq by lia. lia.
Qed.

Lemma cruise_target_of_interval_witness :
  target_duty_cycle (rpm_of_elapsed 1500) = 255 /\
  126 <= target_duty_cycle (rpm_of_elapsed 6000) <= 127.
Proof.
  assert (H1 : 0 < 1500 < 4294967296) by lia.
  assert (H2 : 0 < 6000 < 4294967296) by lia.
  destruct (cruise_target_of_interval 1500 H1) as (_ & _ & Hfull & _).
  destruct (cruise_target_of_interval 6000 H2) as (_ & _ & _ & Hmid & _).
  split; [apply Hfull; lia |].
  specialize (Hmid ltac:(lia)).
  change (765000 / 6000) with 127 in Hmid. lia.
Defined.

(** ** Pulses that arrive inside [calculate_speed] *)

Lemma interleave_irqs (now : Z) (n : nat) (rest : list turn) (p : point)
    (seen : Z) (st : state) :
  interleave now (repeat Irq n ++ rest) p seen st =
    interleave now rest p seen (exec (deliver_pulses n) st).
Proof.
  revert st. induction n as [| n IH]; intros st.
  - reflexivity.
  - cbn [repeat app interleave deliver_pulses].
    rewrite exec_bind. rewrite <- IH. reflexivity.
Qed.

Lemma irqs_schedule (a c1 c2 b : nat) :
  irqs (schedule a c1 c2 b) = Z.of_nat (a + c1 + c2 + b).
Proof.
  unfold irqs, schedule. f_equal.
  assert (H : forall n l,
            length (filter (fun t => match t with Irq => true | Main => false end)
                           (repeat Irq n ++ l)) =
            (n + length (filter (fun t => match t with Irq => true | Main => false end) l))%nat).
  { induction n as [| n IH]; intros l; cbn [repeat app filter length];
      [reflexivity | rewrite IH; reflexivity]. }
  rewrite H. cbn [app filter]. rewrite H. cbn [app filter]. rewrite H.
  cbn [app filter]. rewrite H. cbn [app filter length]. lia.
Qed.

Lemma interleave_main (now : Z) (rest : list turn) (p : point) (seen : Z)
    (st : state) :
  interleave now (Main :: rest) p seen st =
    interleave now rest (fst (fst (main_step now p seen st)))
      (snd (fst (main_step now p seen st))) (snd (main_step now p seen st)).
Proof.
  cbn [interleave]. unfold bind.
  destruct (main_step now p seen st) as [[p' seen'] st']. reflexivity.
Qed.

(** The whole schedule, started before the test. *)
Lemma interleave_schedule (now : Z) (a c1 c2 b : nat) (st : state) :
  0 <= pulse_count st ->
  pulse_count st + Z.of_nat (a + c1 + c2 + b) < 4294967296 ->
  interleave now (schedule a c1 c2 b) At_test 0 st =
    if PULSES_PER_REV <=? pulse_count st + Z.of_nat a then
      ((Returned, pulse_count st + Z.of_nat a),
       mkState (Z.of_nat b) (u32 now) (rpm_of_elapsed (elapsed_ms now st))
         (cruise_control_active st) (current_duty_cycle st)
         (last_pot_value st) (last_button_state st)
         (log st ++ [Printf_speed (rpm_of_elapsed (elapsed_ms now st));
                     Sleep_ms 1000]))
    else ((Returned, 0), exec (deliver_pulses (a + c1 + c2 + b)) st).
Proof.
  intros H0 Hmax. unfold schedule.
  rewrite (deliver_pulses_exec (a + c1 + c2 + b) st) by lia.
  rewrite (u32_small (pulse_count st + Z.of_nat (a + c1 + c2 + b))) by lia.
  rewrite interleave_irqs, (deliver_pulses_exec a st) by lia.
  rewrite (u32_small (pulse_count st + Z.of_nat a)) by lia.
  cbn [app]. rewrite interleave_main.
  unfold main_step at 1 2 3. prog_simpl.
  destruct (Z.leb_spec PULSES_PER_REV (pulse_count st + Z.of_nat a)) as [Hge | Hlt].
  - prog_simpl.
    rewrite interleave_irqs, deliver_pulses_exec by (prog_fields; lia).
    prog_fields.
    rewrite (u32_small (pulse_count st + Z.of_nat a + Z.of_nat c1)) by lia.
    rewrite interleave_main. unfold main_step at 1 2 3. prog_simpl.
    rewrite interleave_irqs, deliver_pulses_exec by (prog_fields; lia).
    prog_fields. rewrite interleave_main. unfold main_step at 1 2 3. prog_simpl.
    rewrite interleave_irqs, deliver_pulses_exec by (prog_fields; lia).
    prog_fields. rewrite (u32_small (0 + Z.of_nat b)) by lia.
    rewrite interleave_main. unfold main_step at 1 2 3. prog_simpl.
    cbn [interleave]. unfold ret.
    unfold rpm_of_elapsed, elapsed_ms. cbv zeta.
    rewrite !Z.add_0_l, <- app_assoc. reflexivity.
  - unfold PULSES_PER_REV in Hlt. prog_simpl.
    rewrite interleave_irqs, deliver_pulses_exec by (prog_fields; lia).
    prog_fields.
    rewrite (u32_small (pulse_count st + Z.of_nat a + Z.of_nat c1)) by lia.
    rewrite interleave_main. unfold main_step at 1 2 3. prog_simpl.
    rewrite interleave_irqs, deliver_pulses_exec by (prog_fields; lia).
    prog_fields.
    rewrite (u32_small (pulse_count st + Z.of_nat a + Z.of_nat c1 + Z.of_nat c2))
      by lia.
    rewrite interleave_main. unfold main_step at 1 2 3. prog_simpl.
    rewrite interleave_irqs, deliver_pulses_exec by (prog_fields; lia).
    prog_fields.
    rewrite (u32_small (pulse_count st + Z.of_nat a + Z.of_nat c1 + Z.of_nat c2
                        + Z.of_nat b)) by lia.
    rewrite interleave_main. unfold main_step at 1 2 3. prog_simpl.
    cbn [interleave]. unfold ret.
    do 2 f_equal. lia.
Qed.

(** X17.  Pulses and the statements of [calculate_speed]: with [a]
    interrupts before the call, [c1] between the test and lines 33-36,
    [c2] between those and the reset, and [b] after the reset, a call
    that takes the branch accounts for the pulses its test has read,
    leaves [b] in the counter, and loses exactly the [c1 + c2] that came
    between test and reset.  A call that does not take the branch loses
    none. *)
Theorem pulses_between_test_and_reset_are_lost
    (now : Z) (a c1 c2 b : nat) (st : state) :
  0 <= pulse_count st ->
  pulse_count st + Z.of_nat (a + c1 + c2 + b) < 4294967296 ->
  let sched := schedule a c1 c2 b in
  let r := interleave now sched At_test 0 st in
  let read := pulse_count st + Z.of_nat a in
  let lost := pulse_count st + irqs sched - (snd (fst r) + pulse_count (snd r)) in
  fst (fst r) = Returned /\
  (PULSES_PER_REV <= read ->
     snd (fst r) = read /\ pulse_count (snd r) = Z.of_nat b /\
     lost = Z.of_nat (c1 + c2)) /\
  (read < PULSES_PER_REV ->
     snd (fst r) = 0 /\ lost = 0 /\
     snd r = exec (deliver_pulses (a + c1 + c2 + b)) st).
Proof.
  intros H0 Hmax. cbv zeta.
  rewrite irqs_schedule, (interleave_schedule now a c1 c2 b st H0 Hmax).
  destruct (Z.leb_spec PULSES_PER_REV (pulse_count st + Z.of_nat a)) as [Hge | Hlt];
    prog_fields.
  - split; [reflexivity |]. split; [| lia]. intros _.
    split; [reflexivity |]. split; [reflexivity | lia].
  - split; [reflexivity |]. split; [lia |]. intros _.
    split; [reflexivity |]. split; [| reflexivity].
    rewrite (deliver_pulses_exec _ st) by (unfold PULSES_PER_REV in *; lia).
    prog_fields. rewrite u32_small by lia. lia.
Qed.

Lemma pulses_between_test_and_reset_are_lost_witness :
  let r := interleave 1500 (schedule 3 1 2 1) At_test 0 initial_state in
  snd (fst r) = 3 /\ pulse_count (snd r) = 1 /\
  0 + irqs (schedule 3 1 2 1) - (snd (fst r) + pulse_count (snd r)) = 3.
Proof.
  cbv zeta.
  destruct (pulses_between_test_and_reset_are_lost 1500 3 1 2 1 initial_state)
    as (_ & H & _); [cbn; lia | cbn; lia |].
  apply H. cbn. unfold PULSES_PER_REV. lia.
Defined.

(** ** The change test in samples of the converter *)

Lemma setpoint_units_checked : forallb setpoint_units_ok adc_range = true.
Proof. vm_compute. reflexivity. Qed.

Lemma setpoint_units (raw : Z) :
  0 <= raw <= 4095 ->
  Z.abs (4095 * pot_units raw - live_sample raw * 20 * 67108864) <= 4095 * 65.
Proof.
  intros Hraw. pose proof setpoint_units_checked as H.
  rewrite forallb_forall in H. specialize (H raw (adc_range_spec raw Hraw)).
  unfold setpoint_units_ok, TARGET_SPEED in H. apply Z.leb_le in H. exact H.
Qed.

(** Comparison of positive normal doubles, the other way round. *)
Lemma f64_gt_normal_false (a b : float64) (lo1 hi1 lo2 hi2 : Z) (va vb : Q) :
  normal_in 53 a lo1 hi1 va ->
  normal_in 53 b lo2 hi2 vb ->
  (va <= vb)%Q ->
  f64_gt a b = false.
Proof.
  intros (m1 & e1 & -> & Hm1 & _ & Hva) (m2 & e2 & -> & Hm2 & _ & Hvb) Hle.
  unfold f64_gt, SFltb, SFcompare.
  rewrite Hva, Hvb in Hle.
  assert (P1 : (9007199254740992 == 2 * inject_Z 4503599627370496)%Q) by reflexivity.
  assert (B1 : (inject_Z 4503599627370496 <= inject_Z (Zpos m1))%Q)
    by (rewrite <- Zle_Qle; change (2 ^ (53 - 1)) with 4503599627370496 in Hm1; lia).
  assert (B1' : (inject_Z (Zpos m1) < 2 * inject_Z 4503599627370496)%Q).
  { rewrite <- P1. change 9007199254740992%Q with (inject_Z 9007199254740992).
    rewrite <- Zlt_Qlt. change (2 ^ 53) with 9007199254740992 in Hm1. lia. }
  assert (B2 : (inject_Z 4503599627370496 <= inject_Z (Zpos m2))%Q)
    by (rewrite <- Zle_Qle; change (2 ^ (53 - 1)) with 4503599627370496 in Hm2; lia).
  assert (B2' : (inject_Z (Zpos m2) < 2 * inject_Z 4503599627370496)%Q).
  { rewrite <- P1. change 9007199254740992%Q with (inject_Z 9007199254740992).
    rewrite <- Zlt_Qlt. change (2 ^ 53) with 9007199254740992 in Hm2. lia. }
  assert (P0 : (0 < inject_Z 4503599627370496)%Q) by reflexivity.
  set (c := inject_Z 4503599627370496) in *.
  destruct (Z.compare_spec e2 e1) as [E | L | G].
  - subst e2. pose proof (Q2_pos e1) as HP.
    assert (Hm : (inject_Z (Zpos m1) <= inject_Z (Zpos m2))%Q).
    { destruct (Qlt_le_dec (inject_Z (Zpos m2)) (inject_Z (Zpos m1))) as [L | G];
        [exfalso | exact G].
      assert (0 < (inject_Z (Zpos m1) - inject_Z (Zpos m2)) * 2 ^ e1)%Q
        by (apply Qmult_lt_0_compat; lra).
      lra. }
    rewrite <- Zle_Qle in Hm.
    rewrite Pos.compare_cont_spec. cbn [Pos.switch_Eq].
    destruct (Pos.compare_spec m2 m1) as [E | L | G]; try reflexivity.
    exfalso. lia.
  - exfalso.
    pose proof (Q2_le (e2 + 1) e1 ltac:(lia)) as Hle2.
    rewrite Q2_succ in Hle2. pose proof (Q2_pos e1) as HP.
    pose proof (Q2_pos e2) as HP2.
    set (M1 := inject_Z (Zpos m1)) in *. set (M2 := inject_Z (Zpos m2)) in *.
    assert (H1 : (M2 * 2 ^ e2 < 2 * c * 2 ^ e2)%Q) by nra.
    assert (H2 : (c * 2 ^ e1 <= M1 * 2 ^ e1)%Q) by nra.
    assert (H3 : (c * (2 * 2 ^ e2) <= c * 2 ^ e1)%Q) by nra.
    nra.
  - reflexivity.
Qed.

(** A float of 24 bits that is at most one half plus a quarter of its
    spacing there is at most one half. *)
Lemma float_le_half (m : positive) (e : Z) :
  2 ^ (24 - 1) <= Zpos m < 2 ^ 24 ->
  (inject_Z (Zpos m) * 2 ^ e <= (1 # 2) + (1 # 33554432))%Q ->
  (inject_Z (Zpos m) * 2 ^ e <= 1 # 2)%Q.
Proof.
  intros Hm Hle.
  change (2 ^ (24 - 1)) with 8388608 in Hm. change (2 ^ 24) with 16777216 in Hm.
  assert (M1 : (inject_Z 8388608 <= inject_Z (Zpos m))%Q) by (rewrite <- Zle_Qle; lia).
  assert (M2 : (inject_Z (Zpos m) < inject_Z 16777216)%Q) by (rewrite <- Zlt_Qlt; lia).
  change (inject_Z 8388608) with 8388608%Q in M1.
  change (inject_Z 16777216) with 16777216%Q in M2.
  pose proof (Q2_pos e) as Pe.
  destruct (Z.lt_ge_cases e (-24)) as [Hlo | Hhi].
  - pose proof (Q2_le e (-25) ltac:(lia)) as H25.
    assert (e25 : (2 ^ (-25) == 1 # 33554432)%Q) by reflexivity.
    rewrite e25 in H25.
    set (M := inject_Z (Zpos m)) in *. clearbody M. nra.
  - destruct (Z.eq_dec e (-24)) as [-> | Hne].
    + assert (e24 : (2 ^ (-24) == 1 # 16777216)%Q) by reflexivity.
      rewrite e24 in *.
      destruct (Z.eq_dec (Zpos m) 8388608) as [E | N].
      * rewrite E. apply Qle_bool_imp_le. reflexivity.
      * exfalso.
        assert (M3 : (inject_Z 8388609 <= inject_Z (Zpos m))%Q)
          by (rewrite <- Zle_Qle; lia).
        change (inject_Z 8388609) with 8388609%Q in M3.
        set (M := inject_Z (Zpos m)) in *. clearbody M. lra.
    + exfalso.
      pose proof (Q2_le (-23) e ltac:(lia)) as H23.
      assert (e23 : (2 ^ (-23) == 1 # 8388608)%Q) by reflexivity.
      rewrite e23 in H23.
      set (M := inject_Z (Zpos m)) in *. clearbody M. nra.
Qed.

(** The magnitude of a float difference of two setpoints, widened to a
    double, from above: the value of a float of 24 bits, at most the exact
    difference [d] plus a relative 2^-24. *)
Lemma setpoint_difference_upper (a b : float32) (va vb d : Q) :
  setpoint_like a va -> setpoint_like b vb ->
  (0 < d)%Q -> (d == va - vb \/ d == vb - va)%Q ->
  exists (m : positive) (e : Z),
    normal_in 53 (fabs (f64_of_f32 (f32_sub a b))) (-26) 7
              (inject_Z (Zpos m) * 2 ^ e) /\
    2 ^ (24 - 1) <= Zpos m < 2 ^ 24 /\
    (inject_Z (Zpos m) * 2 ^ e <= d + d * 2 ^ (-24))%Q.
Proof.
  intros Ha Hb Hd Hdiff.
  assert (Hwide : forall (s : bool) (m : positive) (e : Z),
             2 ^ (24 - 1) <= Zpos m < 2 ^ 24 -> -26 <= 24 + e <= 6 ->
             normal_in 53 (fabs (f64_of_f32 (S754_finite s m e))) (-26) 7
                       (inject_Z (Zpos m) * 2 ^ e)).
  { intros s m e Hm He.
    pose proof (normal_in_digits 24 m eq_refl Hm) as Hdg.
    unfold f64_of_f32.
    destruct (binary_round_relative prec64 emax64 eq_refl s m e)
      as (m' & e' & Hr & Hm' & He' & _ & Hex).
    - rewrite Hdg. unfold emin, prec64, emax64. lia.
    - rewrite Hdg. unfold emax64. lia.
    - rewrite Hr. cbn [fabs SFabs]. rewrite Hdg in He'. unfold prec64 in *.
      exists m', e'. split; [reflexivity | split; [exact Hm' | split; [lia |]]].
      symmetry. apply Hex. rewrite Hdg. lia. }
  pose proof (Q2_pos (-24)) as P24.
  destruct Ha as [(-> & Za) | Na]; destruct Hb as [(-> & Zb) | Nb].
  - exfalso. destruct Hdiff as [E | E]; rewrite Za, Zb in E; lra.
  - (* 0 - b *)
    pose proof (normal_in_pos _ _ _ _ _ Nb) as Pb.
    destruct Nb as (m & e & -> & Hm & He & Hv).
    exists m, e. split; [| split; [exact Hm |]].
    + cbn [f32_sub SFsub negb]. apply Hwide; [exact Hm | lia].
    + destruct Hdiff as [E | E]; rewrite Za in E; [lra |]. nra.
  - (* a - 0 *)
    pose proof (normal_in_pos _ _ _ _ _ Na) as Pa.
    destruct Na as (m & e & -> & Hm & He & Hv).
    exists m, e. split; [| split; [exact Hm |]].
    + cbn [f32_sub SFsub]. apply Hwide; [exact Hm | lia].
    + destruct Hdiff as [E | E]; rewrite Zb in E; [| lra]. nra.
  - (* two normal setpoints *)
    destruct (normal_in_upper 24 _ _ _ _ eq_refl Na) as (_ & Ua).
    destruct (normal_in_upper 24 _ _ _ _ eq_refl Nb) as (_ & Ub).
    pose proof (normal_in_pos _ _ _ _ _ Na) as Pa.
    pose proof (normal_in_pos _ _ _ _ _ Nb) as Pb.
    destruct Na as (m1 & e1 & -> & Hm1 & He1 & Hv1).
    destruct Nb as (m2 & e2 & -> & Hm2 & He2 & Hv2).
    unfold f32_sub, SFsub. cbn [cond_Zopp].
    set (ez := Z.min e1 e2).
    destruct (shl_align_spec m1 e1 ez) as (S1 & F1).
    destruct (shl_align_spec m2 e2 ez) as (S2 & F2).
    replace (Z.min e1 ez) with ez in S1 by (unfold ez; lia).
    replace (Z.min e2 ez) with ez in S2 by (unfold ez; lia).
    rewrite S1 in F1. rewrite S2 in F2. rewrite F1, F2.
    set (k := Zpos m1 * 2 ^ (e1 - ez) - Zpos m2 * 2 ^ (e2 - ez)).
    assert (Hk : (inject_Z k * 2 ^ ez == va - vb)%Q).
    { unfold k. unfold Z.sub at 1. rewrite inject_Z_plus, inject_Z_opp, !inject_Z_mult.
      rewrite !Q2_inject by (unfold ez; lia).
      rewrite Hv1, Hv2.
      replace e1 with (e1 - ez + ez) at 2 by lia.
      replace e2 with (e2 - ez + ez) at 2 by lia.
      rewrite !Q2_add. ring. }
    pose proof (Q2_pos ez) as Pz.
    assert (Hrange : forall p : positive,
               (inject_Z (Zpos p) * 2 ^ ez == d)%Q ->
               -26 <= Zdigits2 (Zpos p) + ez <= 5).
    { intros p Hp.
      pose proof (Zdigits2_bounds (Zpos p) eq_refl) as Hb.
      assert (Hd0 : 0 < Zdigits2 (Zpos p)) by (cbn; lia).
      split; [unfold ez; lia |].
      assert (Hlt : (2 ^ (Zdigits2 (Zpos p) - 1 + ez) < 2 ^ 5)%Q).
      { rewrite Q2_add.
        apply Qle_lt_trans with (inject_Z (Zpos p) * 2 ^ ez)%Q.
        - apply Qmult_le_r; [exact Pz |].
          rewrite <- Q2_inject by lia. rewrite <- Zle_Qle. lia.
        - rewrite Hp. destruct Hdiff as [E | E]; rewrite E; lra. }
      apply Q2_lt_inv in Hlt. lia. }
    assert (Hround : forall (s : bool) (p : positive),
               (inject_Z (Zpos p) * 2 ^ ez == d)%Q ->
               exists (m : positive) (e : Z),
                 normal_in 53 (fabs (f64_of_f32 (binary_round prec32 emax32 s p ez)))
                           (-26) 7 (inject_Z (Zpos m) * 2 ^ e) /\
                 2 ^ (24 - 1) <= Zpos m < 2 ^ 24 /\
                 (inject_Z (Zpos m) * 2 ^ e <= d + d * 2 ^ (-24))%Q).
    { intros s p Hp. pose proof (Hrange p Hp) as Hr.
      destruct (binary_round_relative prec32 emax32 eq_refl s p ez)
        as (m' & e' & Hres & Hm' & He' & Herr & _).
      - unfold emin, prec32, emax32. lia.
      - unfold emax32. lia.
      - rewrite Hres. unfold prec32 in *. rewrite Hp in Herr.
        exists m', e'. split; [| split; [exact Hm' |]].
        + apply Hwide; [exact Hm' | lia].
        + change (Z.opp 24) with (-24) in Herr. lra. }
    unfold binary_normalize. destruct k as [| p | p] eqn:Ek.
    + exfalso. change (inject_Z 0) with 0%Q in Hk.
      destruct Hdiff as [E | E]; rewrite E in Hd; lra.
    + apply Hround. rewrite Hk. destruct Hdiff as [E | E]; [symmetry; exact E |].
      exfalso. assert ((0 < inject_Z (Zpos p))%Q) by (rewrite <- (Zlt_Qlt 0); lia).
      rewrite E in Hd. nra.
    + apply Hround.
      assert (Hn : (inject_Z (Zneg p) == - inject_Z (Zpos p))%Q).
      { rewrite <- inject_Z_opp. reflexivity. }
      rewrite Hn in Hk.
      destruct Hdiff as [E | E]; [| rewrite E; lra].
      exfalso. assert ((0 < inject_Z (Zpos p))%Q) by (rewrite <- (Zlt_Qlt 0); lia).
      rewrite E in Hd. nra.
Qed.

(** Two float values with the same exact value give a zero difference. *)
Lemma setpoint_difference_zero (a b : float32) (va vb : Q) :
  setpoint_like a va -> setpoint_like b vb -> (va == vb)%Q ->
  pot_changed a b = false.
Proof.
  intros Ha Hb Heq.
  destruct Ha as [(-> & Za) | Na]; destruct Hb as [(-> & Zb) | Nb].
  - vm_compute. reflexivity.
  - exfalso. pose proof (normal_in_pos _ _ _ _ _ Nb). lra.
  - exfalso. pose proof (normal_in_pos _ _ _ _ _ Na). lra.
  - destruct Na as (m1 & e1 & -> & Hm1 & He1 & Hv1).
    destruct Nb as (m2 & e2 & -> & Hm2 & He2 & Hv2).
    unfold pot_changed, f32_sub, SFsub. cbn [cond_Zopp].
    set (ez := Z.min e1 e2).
    destruct (shl_align_spec m1 e1 ez) as (S1 & F1).
    destruct (shl_align_spec m2 e2 ez) as (S2 & F2).
    replace (Z.min e1 ez) with ez in S1 by (unfold ez; lia).
    replace (Z.min e2 ez) with ez in S2 by (unfold ez; lia).
    rewrite S1 in F1. rewrite S2 in F2. rewrite F1, F2.
    set (k := Zpos m1 * 2 ^ (e1 - ez) - Zpos m2 * 2 ^ (e2 - ez)).
    assert (Hk : (inject_Z k * 2 ^ ez == va - vb)%Q).
    { unfold k. unfold Z.sub at 1. rewrite inject_Z_plus, inject_Z_opp, !inject_Z_mult.
      rewrite !Q2_inject by (unfold ez; lia).
      rewrite Hv1, Hv2.
      replace e1 with (e1 - ez + ez) at 2 by lia.
      replace e2 with (e2 - ez + ez) at 2 by lia.
      rewrite !Q2_add. ring. }
    pose proof (Q2_pos ez) as Pz.
    assert (Hz : k = 0).
    { assert (Hq : (inject_Z k * 2 ^ ez == 0)%Q) by (rewrite Hk; lra).
      destruct (Z.eq_dec k 0) as [E | N]; [exact E | exfalso].
      destruct (Z.lt_trichotomy k 0) as [L | [E | G]]; [| lia |].
      - assert (inject_Z k < inject_Z 0)%Q by (rewrite <- Zlt_Qlt; exact L).
        change (inject_Z 0) with 0%Q in *. nra.
      - assert (inject_Z 0 < inject_Z k)%Q by (rewrite <- Zlt_Qlt; exact G).
        change (inject_Z 0) with 0%Q in *. nra. }
    rewrite Hz. vm_compute. reflexivity.
Qed.

(** The change test on two setpoints whose exact difference is at most
    one half does not fire. *)
Lemma pot_changed_within (a b : float32) (va vb : Q) :
  setpoint_like a va -> setpoint_like b vb ->
  (Qabs (va - vb) <= 1 # 2)%Q ->
  pot_changed a b = false.
Proof.
  intros Ha Hb Habs.
  destruct (Qeq_dec va vb) as [E | N];
    [exact (setpoint_difference_zero a b va vb Ha Hb E) |].
  set (d := Qabs (va - vb)) in *.
  assert (Hd : (0 < d)%Q).
  { unfold d. apply Qabs_case; intros H; [| lra].
    destruct (Qlt_le_dec 0 (va - vb)) as [L | G]; [exact L |].
    exfalso. apply N. lra. }
  assert (Hdiff : (d == va - vb \/ d == vb - va)%Q).
  { unfold d. apply Qabs_case; intros H; [left; reflexivity | right; ring]. }
  destruct (setpoint_difference_upper a b va vb d Ha Hb Hd Hdiff)
    as (m & e & Hn & Hm & Hup).
  assert (Hhalf : normal_in 53 POT_CHANGE_THRESHOLD 0 0 (1 # 2)).
  { exists 4503599627370496%positive, (-53).
    repeat split; try reflexivity; discriminate. }
  unfold pot_changed.
  apply (f64_gt_normal_false _ _ _ _ _ _ _ _ Hn Hhalf).
  apply float_le_half; [exact Hm |].
  assert (e24 : (2 ^ (-24) == 1 # 16777216)%Q) by reflexivity.
  rewrite e24 in Hup. clearbody d. lra.
Qed.

(** X18.  The change test of the loop, in samples of the converter: for
    the setpoints of two samples it fires exactly when the samples, those
    of the dead zone (0..40) counted as 0, are 103 or more apart -- so a
    cycle entered with the setpoint of [raw_prev] stored ends engaged
    exactly when the button block leaves the flag set and the new sample
    is fewer than 103 away. *)
Theorem pot_change_in_samples (raw_prev : Z) (i : input) (st : state) :
  0 <= raw_prev <= 4095 -> 0 <= in_adc i <= 4095 ->
  last_pot_value st = pot_setpoint raw_prev ->
  let moved := 103 <=? Z.abs (live_sample (in_adc i) - live_sample raw_prev) in
  pot_changed (pot_setpoint (in_adc i)) (pot_setpoint raw_prev) = moved /\
  cruise_control_active (exec (cycle i) st) =
    xorb (cruise_control_active st)
         (falling_edge (last_button_state st) (in_button i))
    && negb moved.
Proof.
  intros H1 H2 Hlast. cbv zeta.
  assert (Hc : pot_changed (pot_setpoint (in_adc i)) (pot_setpoint raw_prev) =
               (103 <=? Z.abs (live_sample (in_adc i) - live_sample raw_prev))).
  { destruct (setpoint_shape (in_adc i) H2) as (L2 & V2 & _).
    destruct (setpoint_shape raw_prev H1) as (L1 & V1 & _).
    pose proof (setpoint_units (in_adc i) H2) as U2.
    pose proof (setpoint_units raw_prev H1) as U1.
    assert (B1 : 0 <= live_sample raw_prev <= 4095)
      by (unfold live_sample; destruct (raw_prev <=? 40); lia).
    assert (B2 : 0 <= live_sample (in_adc i) <= 4095)
      by (unfold live_sample; destruct (in_adc i <=? 40); lia).
    set (l1 := live_sample raw_prev) in *. set (l2 := live_sample (in_adc i)) in *.
    set (k1 := pot_units raw_prev) in *. set (k2 := pot_units (in_adc i)) in *.
    assert (e26 : (2 ^ (-26) == 1 # 67108864)%Q) by reflexivity.
    rewrite e26 in V1, V2.
    assert (Hdq : (SF2Q (pot_setpoint (in_adc i)) - SF2Q (pot_setpoint raw_prev)
                   == inject_Z (k2 - k1) * (1 # 67108864))%Q).
    { rewrite V1, V2. unfold Z.sub. rewrite inject_Z_plus, inject_Z_opp. ring. }
    assert (Habs : (Qabs (SF2Q (pot_setpoint (in_adc i))
                          - SF2Q (pot_setpoint raw_prev))
                    == inject_Z (Z.abs (k2 - k1)) * (1 # 67108864))%Q).
    { rewrite Hdq, Qabs_Qmult. rewrite (Qabs_pos (1 # 67108864)) by discriminate.
      apply Qmult_comp; [| reflexivity].
      unfold Qabs, inject_Z. reflexivity. }
    destruct (Z.leb_spec 103 (Z.abs (l2 - l1))) as [Hfar | Hnear].
    - apply pot_changed_exact; [exact H2 | exact H1 |].
      rewrite Habs.
      assert (Hk : 33554432 < Z.abs (k2 - k1)) by lia.
      assert (Hkq : (inject_Z 33554433 <= inject_Z (Z.abs (k2 - k1)))%Q)
        by (rewrite <- Zle_Qle; lia).
      change (inject_Z 33554433) with 33554433%Q in Hkq. lra.
    - apply (pot_changed_within _ _ _ _ L2 L1).
      rewrite Habs.
      assert (Hk : Z.abs (k2 - k1) <= 33554432) by lia.
      assert (Hkq : (inject_Z (Z.abs (k2 - k1)) <= inject_Z 33554432)%Q)
        by (rewrite <- Zle_Qle; lia).
      change (inject_Z 33554432) with 33554432%Q in Hkq. lra. }
  split; [exact Hc |].
  destruct (cycle_flag i st) as (-> & _). rewrite Hlast, Hc. reflexivity.
Qed.

Lemma pot_change_in_samples_witness :
  pot_changed (pot_setpoint 2150) (pot_setpoint 2048) = false /\
  pot_changed (pot_setpoint 2151) (pot_setpoint 2048) = true.
Proof.
  pose (st := mkState 0 0 (S754_zero false) true 0 (pot_setpoint 2048) true []).
  split.
  - apply (pot_change_in_samples 2048 (mkInput 0 0 true 2150) st);
      [lia | cbn; lia | reflexivity].
  - apply (pot_change_in_samples 2048 (mkInput 0 0 true 2151) st);
      [lia | cbn; lia | reflexivity].
Defined.

(** ** Runs with the button released *)

Lemma toward_below (t c : Z) :
  c <= t -> toward t c = Z.min (c + duty_cycle_step) t.
Proof.
  intros H. unfold toward. destruct (Z.ltb_spec c t); unfold duty_cycle_step; lia.
Qed.

Lemma released_run (raw : Z) (inputs : list input) (st : state) :
  Forall (released_at raw) inputs ->
  duty_in_range st ->
  cruise_control_active st = false ->
  current_duty_cycle st <= manual_target raw ->
  cruise_control_active (run inputs st) = false /\
  current_duty_cycle (run inputs st) =
    Z.min (current_duty_cycle st + 20 * Z.of_nat (length inputs))
          (manual_target raw).
Proof.
  intros Hall. revert st.
  induction Hall as [| i rest (Hb & Ha) _ IH]; intros st Hd Hoff Hle;
    cbn [run length].
  - split; [exact Hoff | lia].
  - assert (Hst : cruise_control_active (exec (cycle i) st) = false /\
                  current_duty_cycle (exec (cycle i) st) =
                    Z.min (current_duty_cycle st + 20) (manual_target raw)).
    { rewrite (cycle_exec i st Hd). prog_fields.
      rewrite Hoff, Hb, Ha. unfold falling_edge. cbn [negb andb xorb].
      split; [reflexivity |].
      fold (manual_target raw). rewrite (toward_below _ _ Hle).
      reflexivity. }
    destruct Hst as (Hoff' & Hc').
    destruct (IH (exec (cycle i) st)) as (Hoff'' & Hc'').
    + apply (cycle_step i st Hd).
    + exact Hoff'.
    + rewrite Hc'. lia.
    + split; [exact Hoff'' |]. rewrite Hc'', Hc'. lia.
Qed.

(** X19.  Manual driving from power-on: while the button reads released
    and the converter keeps giving the sample [raw], cruise control stays
    disengaged and the duty level climbs by 20 per cycle to the target
    level of the sample; from the 13th cycle on it is that level. *)
Theorem manual_run_reaches_target (raw : Z) (inputs : list input) :
  0 <= raw <= 4095 ->
  Forall (released_at raw) inputs ->
  let st := run inputs initial_state in
  let n := Z.of_nat (length inputs) in
  cruise_control_active st = false /\
  current_duty_cycle st = Z.min (20 * n) (manual_target raw) /\
  (13 <= n -> current_duty_cycle st = manual_target raw).
Proof.
  intros Hraw Hall. cbv zeta.
  pose proof (target_duty_cycle_range (pot_setpoint raw)) as Ht.
  fold (manual_target raw) in Ht. unfold MOTOR_MAX_DUTY_CYCLE in Ht.
  destruct (released_run raw inputs initial_state Hall initial_state_in_range
              eq_refl) as (Hoff & Hc).
  { cbn [current_duty_cycle initial_state]. lia. }
  cbn [current_duty_cycle initial_state] in Hc.
  split; [exact Hoff |]. split; [rewrite Hc; f_equal; lia |].
  intros Hn. rewrite Hc. lia.
Qed.

Lemma manual_run_reaches_target_witness :
  let inputs := repeat (mkInput 0 0 true 2048) 13 in
  cruise_control_active (run inputs initial_state) = false /\
  current_duty_cycle (run inputs initial_state) = manual_target 2048.
Proof.
  cbv zeta.
  assert (Hall : Forall (released_at 2048) (repeat (mkInput 0 0 true 2048) 13)).
  { apply Forall_forall. intros i Hi. apply repeat_spec in Hi. subst i.
    split; reflexivity. }
  destruct (manual_run_reaches_target 2048 _ ltac:(lia) Hall) as (H1 & _ & H3).
  split; [exact H1 | apply H3; cbn; lia].
Defined.

(** ** The pauses of the loop and the measured speed *)

Lemma slept_cycle (i : input) (st : state) :
  duty_in_range st -> sensor_idle st ->
  let fired := PULSES_PER_REV <=? u32 (pulse_count st + Z.of_nat (in_pulses i)) in
  2100 + (if fired then 1000 else 0)
    <= slept (log (exec (cycle i) st)) - slept (log st).
Proof.
  intros Hd Hs. cbv zeta. rewrite (cycle_log i st Hd Hs). cbv zeta.
  rewrite !slept_app.
  destruct (PULSES_PER_REV <=? _); destruct (falling_edge _ _);
    destruct (xorb _ _ && _); cbn [slept]; lia.
Qed.

(** Along a clocked run a stored instant is at least 3100 ms old when
    the next cycle starts. *)
Lemma clocked_run (inputs rest : list input) (st : state) (t : Z) :
  duty_in_range st -> sensor_idle st -> 0 <= t ->
  speed st = S754_zero false \/ last_pulse_time st + 3100 <= t ->
  clocked (inputs ++ rest) st t = true ->
  exists t' : Z,
    0 <= t' /\
    clocked rest (run inputs st) t' = true /\
    (speed (run inputs st) = S754_zero false \/
     last_pulse_time (run inputs st) + 3100 <= t').
Proof.
  revert st t. induction inputs as [| j more IH]; intros st t Hd Hs H0 Hinv Hck.
  - exists t. cbn [run app] in *. auto.
  - cbn [app clocked] in Hck.
    apply andb_true_iff in Hck. destruct Hck as (Hck & Hrest).
    apply andb_true_iff in Hck. destruct Hck as (Hlo & Hhi).
    apply Z.leb_le in Hlo. apply Z.ltb_lt in Hhi.
    cbn [run].
    pose proof (slept_cycle j st Hd Hs) as Hsl. cbv zeta in Hsl.
    destruct (cycle_sensor j st Hd Hs) as (_ & Hlast & Hsp & Hs').
    set (dt := slept (log (exec (cycle j) st)) - slept (log st)) in *.
    assert (Hinv' : speed (exec (cycle j) st) = S754_zero false \/
                    last_pulse_time (exec (cycle j) st) + 3100 <= in_now j + dt).
    { rewrite Hlast, Hsp.
      destruct (PULSES_PER_REV <=? u32 (pulse_count st + Z.of_nat (in_pulses j))).
      - right. rewrite u32_small by lia. lia.
      - destruct Hinv as [Hz | Hold]; [left; exact Hz | right; lia]. }
    assert (H0' : 0 <= in_now j + dt).
    { destruct (PULSES_PER_REV <=? u32 (pulse_count st + Z.of_nat (in_pulses j)));
        lia. }
    exact (IH _ _ (proj1 (cycle_step j st Hd)) Hs' H0' Hinv' Hrest).
Qed.

(** X20.  The pauses of the loop cap the speed it can measure.  In a run
    from power-on whose clock is consistent with its pauses, a sample
    taken after the first one spans 3100 ms at least (the 1000 ms
    [calculate_speed] pauses after a sample and the 2100 ms of the rest
    of the cycle), so the speed stored is below 20 RPM whatever the
    wheel does, and the target level that cruise control derives from it
    is 246 at most. *)
Theorem speed_capped_by_loop_pauses (inputs : list input) (i : input) :
  clocked (inputs ++ [i]) initial_state 0 = true ->
  let st := run inputs initial_state in
  let st' := exec (cycle i) st in
  3 <= (pulse_count st + Z.of_nat (in_pulses i)) mod 4294967296 ->
  speed st <> S754_zero false ->
  3100 <= elapsed_ms (in_now i) st /\
  speed st' = rpm_of_elapsed (elapsed_ms (in_now i) st) /\
  (SF2Q (speed st') < 20)%Q /\
  target_duty_cycle (speed st') <= 246.
Proof.
  intros Hck st st' Hfired Hsampled.
  destruct (run_invariant inputs initial_state initial_state_in_range
              initial_state_idle) as (Hd & Hs).
  fold st in Hd, Hs.
  destruct (clocked_run inputs [i] initial_state 0 initial_state_in_range
              initial_state_idle ltac:(lia) (or_introl eq_refl) Hck)
    as (t' & H0 & Hck' & Hinv).
  fold st in Hck', Hinv.
  destruct Hinv as [Hz | Hold]; [contradiction |].
  cbn [clocked] in Hck'. rewrite andb_true_r in Hck'.
  apply andb_true_iff in Hck'. destruct Hck' as (Hlo & Hhi).
  apply Z.leb_le in Hlo. apply Z.ltb_lt in Hhi.
  pose proof Hs as (_ & Hlast).
  assert (He : elapsed_ms (in_now i) st = in_now i - last_pulse_time st).
  { unfold elapsed_ms. rewrite (u32_small (in_now i)) by lia.
    apply u32_small. lia. }
  destruct (cycle_sensor i st Hd Hs) as (_ & _ & Hsp & _).
  fold st' in Hsp. unfold u32, PULSES_PER_REV in Hsp.
  assert (Hb : (3 <=? (pulse_count st + Z.of_nat (in_pulses i)) mod 4294967296)
               = true) by (apply Z.leb_le; exact Hfired).
  rewrite Hb in Hsp.
  set (ms := elapsed_ms (in_now i) st) in *.
  assert (Hms : 3100 <= ms < 4294967296) by lia.
  split; [lia |]. split; [exact Hsp |]. rewrite Hsp.
  assert (HM : (3100 <= inject_Z ms)%Q).
  { change 3100%Q with (inject_Z 3100). rewrite <- Zle_Qle. lia. }
  split.
  - destruct (rpm_of_elapsed_tolerance ms ltac:(lia)) as (_ & _ & Htol).
    cbv zeta in Htol.
    set (M := inject_Z ms) in *. set (X := (60 / (M / 1000))%Q) in *.
    assert (HX : (X * M == 60000)%Q) by (unfold X; field; lra).
    set (V := SF2Q (rpm_of_elapsed ms)) in *. clearbody V X M.
    destruct (Qlt_le_dec V 20) as [L | G]; [exact L | exfalso].
    assert (HXlo : (20 * (4194304 # 4194305) <= X)%Q) by lra.
    assert (0 <= (X - 20 * (4194304 # 4194305)) * (M - 3100))%Q
      by (apply Qmult_le_0_compat; lra).
    lra.
  - destruct (cruise_product ms ltac:(lia)) as (Hfit & _ & Hhi').
    rewrite (target_duty_cycle_finite _ Hfit).
    set (P := SF2Q (duty_product (rpm_of_elapsed ms))) in *.
    assert (HP : (P < inject_Z 247)%Q).
    { change (inject_Z 247) with 247%Q.
      set (M := inject_Z ms) in *. clearbody P M.
      destruct (Qlt_le_dec P 247) as [L | G]; [exact L | exfalso].
      assert (0 <= (P - 247) * (M - 3100))%Q by (apply Qmult_le_0_compat; lra).
      lra. }
    assert (Hf : Qfloor P < 247).
    { destruct (Z.lt_ge_cases (Qfloor P) 247) as [L | G]; [exact L | exfalso].
      apply (Qlt_not_le _ _ HP).
      apply Qle_trans with (inject_Z (Qfloor P));
        [rewrite <- Zle_Qle; exact G | apply Qfloor_le]. }
    unfold MOTOR_MAX_DUTY_CYCLE. lia.
Qed.

Lemma speed_capped_by_loop_pauses_witness :
  let inputs := [mkInput 3 1000 true 0] in
  let i := mkInput 3 4100 true 0 in
  3100 <= elapsed_ms (in_now i) (run inputs initial_state) /\
  target_duty_cycle (speed (exec (cycle i) (run inputs initial_state))) <= 246.
Proof.
  cbv zeta.
  destruct (speed_capped_by_loop_pauses [mkInput 3 1000 true 0]
              (mkInput 3 4100 true 0)) as (H1 & _ & _ & H4).
  - vm_compute. reflexivity.
  - vm_compute. discriminate.
  - vm_compute. discriminate.
  - split; [exact H1 | exact H4].
Defined.
